(** * typescript-universal-analytics: the Visitor of [src/index.ts]

    A shallow embedding of the hit queue, the batch planner, the dispatcher
    and the pageview facade of [src/index.ts], with the JavaScript values,
    objects and arrays they work on, and the properties of the
    specification stated over it.

    The state of the process is explicit: the shared [config] object, a
    store of arrays and a store of objects addressed by reference (the
    queue and the persistent parameters are shared between a Visitor and
    its views), the identifiers drawn from [uuid.v4()], and a record of
    the requests posted and of the callbacks called.  What only writes to
    the debug log ([debug], [checkParameters]) is left out. *)

From Stdlib Require Import ZArith Ascii String.
From stdpp Require Import gmap strings list fin_maps.

Local Open Scope string_scope.

(** ** JavaScript values and plain objects *)

Module JS.

(** The values a parameter map can hold.  [ArbitraryParams] promises
    strings, but callers pass [null] and [undefined] too, and
    [tidyParameters] exists to remove them. *)
Inductive value : Type :=
| VUndefined
| VNull
| VStr (s : string).

#[global] Instance value_eq_dec : EqDecision value.
Proof. solve_decision. Defined.

(** [ToBoolean]: the empty string, [null] and [undefined] are falsy. *)
Definition truthy (v : value) : bool :=
  match v with
  | VStr s => negb (String.eqb s "")
  | _ => false
  end.

(** [a || b] *)
Definition or_else (a b : value) : value := if truthy a then a else b.

(** [v === null || v === undefined] *)
Definition nullish (v : value) : bool :=
  match v with
  | VStr _ => false
  | _ => true
  end.

(** An optional field of an object literal read as a value. *)
Definition of_option (o : option string) : value :=
  match o with
  | Some s => VStr s
  | None => VUndefined
  end.

(** A plain object: its own enumerable properties in the order [for..in],
    [Object.keys] and [Object.assign] visit them. *)
Definition object : Type := list (string * value).

Definition digit_of (c : ascii) : option N :=
  let n := N_of_ascii c in
  if ((48 <=? n) && (n <=? 57))%N then Some (n - 48)%N else None.

Fixpoint digits_value (acc : N) (s : string) : option N :=
  match s with
  | EmptyString => Some acc
  | String c s' =>
      match digit_of c with
      | Some d => digits_value (acc * 10 + d)%N s'
      | None => None
      end
  end.

(** An array index is a canonical numeric string below 2^32 - 1; such
    keys are enumerated first, in ascending order. *)
Definition key_index (k : string) : option N :=
  match k with
  | EmptyString => None
  | String "0" EmptyString => Some 0%N
  | String "0" _ => None
  | _ =>
      match digits_value 0 k with
      | Some n => if (n <=? 4294967294)%N then Some n else None
      | None => None
      end
  end.

Fixpoint has (k : string) (o : object) : bool :=
  match o with
  | [] => false
  | (k', _) :: o' => if String.eqb k' k then true else has k o'
  end.

(** [o[k]] as an optional value: [None] when [k] is not a property. *)
Fixpoint lookup (k : string) (o : object) : option value :=
  match o with
  | [] => None
  | (k', v) :: o' => if String.eqb k' k then Some v else lookup k o'
  end.

(** [o[k]], which reads [undefined] for a missing property. *)
Definition get (k : string) (o : object) : value :=
  match lookup k o with
  | Some v => v
  | None => VUndefined
  end.

Fixpoint replace (k : string) (v : value) (o : object) : object :=
  match o with
  | [] => []
  | (k', v') :: o' =>
      (if String.eqb k' k then (k', v) else (k', v')) :: replace k v o'
  end.

(** Where a new index key goes: before the first larger index key and
    before every string key. *)
Fixpoint add_index (n : N) (k : string) (v : value) (o : object) : object :=
  match o with
  | [] => [(k, v)]
  | (k', v') :: o' =>
      match key_index k' with
      | Some n' =>
          if (n' <? n)%N then (k', v') :: add_index n k v o'
          else (k, v) :: (k', v') :: o'
      | None => (k, v) :: (k', v') :: o'
      end
  end.

(** [o[k] = v], assignment to a data property: an existing property
    keeps its place, a new one is created.  The one name under which a
    plain object inherits a setter is [__proto__]: an assignment to it
    creates no property, and the statements that range over the names
    assigned leave that name out. *)
Definition set (k : string) (v : value) (o : object) : object :=
  if has k o then replace k v o
  else match key_index k with
       | Some n => add_index n k v o
       | None => (o ++ [(k, v)])%list
       end.

(** [delete o[k]] *)
Fixpoint delete (k : string) (o : object) : object :=
  match o with
  | [] => []
  | (k', v') :: o' =>
      if String.eqb k' k then delete k o' else (k', v') :: delete k o'
  end.

(** The keys a [for (var k in o)] loop visits. *)
Definition keys (o : object) : list string := map fst o.

(** [Object.assign(target, src)] for one source. *)
Definition assign (target src : object) : object :=
  fold_left (fun t k => set k (get k src) t) (keys src) target.

(** A property whose value is [null] or [undefined] is in the object. *)
Definition has_nullish (o : object) : bool :=
  existsb (fun kv => nullish (snd kv)) o.

End JS.

(** ** [querystring.stringify] *)

Module QueryString.

Definition hex_digit (n : N) : ascii :=
  ascii_of_N (if (n <? 10)%N then 48 + n else 55 + n)%N.

(** The characters [querystring.escape] leaves alone: letters, digits
    and [- _ . ! ~ * ' ( )]. *)
Definition unreserved (c : ascii) : bool :=
  let n := N_of_ascii c in
  (((65 <=? n) && (n <=? 90)) || ((97 <=? n) && (n <=? 122))
   || ((48 <=? n) && (n <=? 57))
   || (n =? 45) || (n =? 95) || (n =? 46) || (n =? 33) || (n =? 126)
   || (n =? 42) || (n =? 39) || (n =? 40) || (n =? 41))%N.

(** Strings are sequences of UTF-8 bytes; every byte that is not
    unreserved becomes [%XX]. *)
Fixpoint escape (s : string) : string :=
  match s with
  | EmptyString => EmptyString
  | String c s' =>
      if unreserved c then String c (escape s')
      else
        let n := N_of_ascii c in
        String "%" (String (hex_digit (n / 16)) (String (hex_digit (n mod 16))
                                                    (escape s')))
  end.

(** [stringifyPrimitive]: strings as they are, everything else the
    model has ([null], [undefined]) as the empty string. *)
Definition stringifyPrimitive (v : JS.value) : string :=
  match v with
  | JS.VStr s => s
  | _ => ""
  end.

Definition field (o : JS.object) (k : string) : string :=
  escape k ++ "=" ++ escape (stringifyPrimitive (JS.get k o)).

Fixpoint join (sep : string) (l : list string) : string :=
  match l with
  | [] => ""
  | [x] => x
  | x :: l' => x ++ sep ++ join sep l'
  end.

Definition stringify (o : JS.object) : string :=
  join "&" (map (field o) (JS.keys o)).

End QueryString.

(** ** The configuration module and the constructor's options *)

(** [config] is one mutable object shared by the whole process.  Its
    fields are the ones [index.ts] reads and writes; their initial values
    are left open.  The batch size is an integer, of either sign: the
    batching policy of the specification has a positive integer, and the
    planner is followed on every integer. *)
Module Config.
Record t : Type := mk {
  hostname : string;
  path : string;
  batchPath : string;
  batching : bool;
  batchSize : Z;
  protocolVersion : string;
  parametersMap : list (string * string)
}.
End Config.

(** [VisitorOptions]: [None] is an option left out. *)
Module VisitorOptions.
Record t : Type := mk {
  tid : option string;
  cid : option string;
  uid : option string;
  hostname : option string;
  path : option string;
  https : option bool;
  enableBatching : option bool;
  batchSize : option Z;
  requestOptions : option JS.object;
  headers : option (list (string * string))
}.

Definition empty : t :=
  mk None None None None None None None None None None.
End VisitorOptions.

(** ** Visitors and the state of the process *)

Definition loc : Type := nat.

(** A completion callback, known by its identity. *)
Definition Callback : Type := nat.

Inductive MetricType : Type := PAGEVIEW.

Definition MetricType_value (t : MetricType) : string :=
  match t with PAGEVIEW => "pageview" end.

(** A Visitor holds references to its queue array and to its persistent
    parameters object; views made by [withContext] hold the same ones. *)
Record Visitor : Type := mkVisitor {
  options : VisitorOptions.t;
  context : JS.object;
  persistentParams : loc;
  queue : loc;
  tid : JS.value;
  cid : JS.value;
  uid : JS.value
}.

(** One [request.post(path, options, cb)]. *)
Record Post : Type := mkPost {
  post_path : string;
  post_body : string;
  post_headers : list (string * string);
  post_requestOptions : JS.object
}.

(** One [fn.call(this, error, count)]. *)
Record Call : Type := mkCall {
  call_fn : Callback;
  call_this : Visitor;
  call_error : option string;
  call_count : nat
}.

Record World : Type := mkWorld {
  config : Config.t;
  arrays : gmap loc (list JS.object);
  objects : gmap loc JS.object;
  uuids : nat;
  posts : list Post;
  calls : list Call
}.

Definition with_config (c : Config.t) (w : World) : World :=
  mkWorld c (arrays w) (objects w) (uuids w) (posts w) (calls w).

Definition with_arrays (a : gmap loc (list JS.object)) (w : World) : World :=
  mkWorld (config w) a (objects w) (uuids w) (posts w) (calls w).

Definition with_objects (o : gmap loc JS.object) (w : World) : World :=
  mkWorld (config w) (arrays w) o (uuids w) (posts w) (calls w).

Definition with_uuids (n : nat) (w : World) : World :=
  mkWorld (config w) (arrays w) (objects w) n (posts w) (calls w).

Definition with_posts (p : list Post) (w : World) : World :=
  mkWorld (config w) (arrays w) (objects w) (uuids w) p (calls w).

Definition with_calls (c : list Call) (w : World) : World :=
  mkWorld (config w) (arrays w) (objects w) (uuids w) (posts w) c.

(** What the program takes from its libraries: the identifiers
    [uuid.v4()] hands out, in the order of the calls, and the [host] of
    [url.parse] ([None] for [null]). *)
Class Collaborators : Type := {
  uuid_v4 : nat -> string;
  url_host : string -> option string
}.

(** ** Computations: state, and a loop that may never end *)

Definition M (A : Type) : Type := World -> option (A * World).

Definition ret {A} (a : A) : M A := fun w => Some (a, w).

Definition bind {A B} (m : M A) (f : A -> M B) : M B :=
  fun w => match m w with
           | Some (a, w') => f a w'
           | None => None
           end.

Definition diverge {A} : M A := fun _ => None.

Definition gets {A} (f : World -> A) : M A := fun w => Some (f w, w).

Definition modify (f : World -> World) : M unit := fun w => Some (tt, f w).

Declare Scope js_scope.
Delimit Scope js_scope with js.
Notation "'let*' x ':=' m 'in' k" := (bind m (fun x => k))
  (at level 10, x pattern, m at level 100, k at level 200) : js_scope.
Notation "m ';;' k" := (bind m (fun _ => k))
  (at level 100, k at level 200, right associativity) : js_scope.
Local Open Scope js_scope.

Fixpoint mapM {A B} (f : A -> M B) (l : list A) : M (list B) :=
  match l with
  | [] => ret []
  | a :: l' => let* b := f a in let* bs := mapM f l' in ret (b :: bs)
  end.

(** The array behind a reference; a reference never allocated reads as
    the empty array. *)
Definition array_at (l : loc) (w : World) : list JS.object :=
  default [] (arrays w !! l).

Definition object_at (l : loc) (w : World) : JS.object :=
  default [] (objects w !! l).

(** [[]] and [{}]: a new array, a new object. *)
Definition new_array : M loc :=
  fun w => let l := fresh (dom (arrays w)) in
           Some (l, with_arrays (<[l := []]> (arrays w)) w).

Definition new_object : M loc :=
  fun w => let l := fresh (dom (objects w)) in
           Some (l, with_objects (<[l := []]> (objects w)) w).

(** [a.push(x)] *)
Definition push (l : loc) (x : JS.object) : M unit :=
  modify (fun w => with_arrays (<[l := (array_at l w ++ [x])%list]> (arrays w)) w).

(** [a.splice(0, deleteCount)]: the count is clamped to the length, the
    removed elements come back in an array of their own. *)
Definition splice0 (l : loc) (deleteCount : Z) : M (list JS.object) :=
  fun w =>
    let a := array_at l w in
    let n := Z.to_nat (Z.min (Z.max deleteCount 0) (Z.of_nat (length a))) in
    Some (take n a, with_arrays (<[l := drop n a]> (arrays w)) w).

Definition draw_uuid {collab : Collaborators} : M string :=
  fun w => Some (uuid_v4 (uuids w), with_uuids (S (uuids w)) w).

(** ** [class Visitor] *)

Section Program.
Context {collab : Collaborators}.

(** [`${protocol}://${parsedHostname.host}`], where a [null] host
    prints as [null]. *)
Definition render_host (h : option string) : string :=
  match h with
  | Some s => s
  | None => "null"
  end.

Definition apply_options (o : VisitorOptions.t) (c : Config.t) : Config.t :=
  let c1 := match VisitorOptions.hostname o with
            | Some h =>
                Config.mk h (Config.path c) (Config.batchPath c)
                  (Config.batching c) (Config.batchSize c)
                  (Config.protocolVersion c) (Config.parametersMap c)
            | None => c
            end in
  let c2 := match VisitorOptions.path o with
            | Some p =>
                Config.mk (Config.hostname c1) p (Config.batchPath c1)
                  (Config.batching c1) (Config.batchSize c1)
                  (Config.protocolVersion c1) (Config.parametersMap c1)
            | None => c1
            end in
  let c3 := match VisitorOptions.enableBatching o with
            | Some b =>
                Config.mk (Config.hostname c2) (Config.path c2)
                  (Config.batchPath c2) b (Config.batchSize c2)
                  (Config.protocolVersion c2) (Config.parametersMap c2)
            | None => c2
            end in
  let c4 := match VisitorOptions.batchSize o with
            | Some n =>
                Config.mk (Config.hostname c3) (Config.path c3)
                  (Config.batchPath c3) (Config.batching c3) n
                  (Config.protocolVersion c3) (Config.parametersMap c3)
            | None => c3
            end in
  let protocol := match VisitorOptions.https o with
                  | Some false => "http"
                  | _ => "https"
                  end in
  let parsedHostname_host := url_host (Config.hostname c4) in
  Config.mk (protocol ++ "://" ++ render_host parsedHostname_host)
    (Config.path c4) (Config.batchPath c4) (Config.batching c4)
    (Config.batchSize c4) (Config.protocolVersion c4)
    (Config.parametersMap c4).

(** [options.cid || uuid.v4()] *)
Definition cid_or_uuid (o : VisitorOptions.t) : M JS.value :=
  if JS.truthy (JS.of_option (VisitorOptions.cid o))
  then ret (JS.of_option (VisitorOptions.cid o))
  else let* u := draw_uuid in ret (JS.VStr u).

(** [new Visitor(options, context, persistentParams, queue)].  An
    argument left out takes its default, [{}] or [[]], made anew.  The
    options are a [VisitorOptions], so the [!options] exit is not
    taken. *)
Definition new_Visitor (o : VisitorOptions.t) (ctx : option JS.object)
    (pp : option loc) (q : option loc) : M Visitor :=
  let context := default [] ctx in
  let* persistentParams :=
    match pp with Some l => ret l | None => new_object end in
  let* queue := match q with Some l => ret l | None => new_array end in
  modify (fun w => with_config (apply_options o (config w)) w);;
  let* cid := cid_or_uuid o in
  ret (mkVisitor o context persistentParams queue
         (JS.of_option (VisitorOptions.tid o)) cid
         (JS.of_option (VisitorOptions.uid o))).

(** [init(options)] *)
Definition init (o : VisitorOptions.t) : M Visitor :=
  new_Visitor o None None None.

Definition reset (v : Visitor) : Visitor :=
  mkVisitor (options v) [] (persistentParams v) (queue v)
    (tid v) (cid v) (uid v).

(** [set(key, value)] writes into the shared persistent parameters. *)
Definition set (v : Visitor) (key : string) (value : JS.value) : M unit :=
  modify (fun w =>
    with_objects
      (<[persistentParams v :=
           JS.set key value (object_at (persistentParams v) w)]> (objects w))
      w).

Definition withContext (v : Visitor) (ctx : option JS.object) : M Visitor :=
  new_Visitor (options v) ctx (Some (persistentParams v)) (Some (queue v)).

(** [config.parametersMap.hasOwnProperty(key) ? config.parametersMap[key] : key] *)
Fixpoint translate_key (m : list (string * string)) (key : string) : string :=
  match m with
  | [] => key
  | (k, k') :: m' => if String.eqb k key then k' else translate_key m' key
  end.

Definition translateParams (c : Config.t) (params : JS.object) : JS.object :=
  fold_left
    (fun translated key =>
       JS.set (translate_key (Config.parametersMap c) key)
         (JS.get key params) translated)
    (JS.keys params) [].

(** One turn of the loop of [tidyParameters]. *)
Definition tidy_step (params : JS.object) (param : string) : JS.object :=
  if JS.nullish (JS.get param params) then JS.delete param params else params.

Definition tidyParameters (params : JS.object) : JS.object :=
  fold_left tidy_step (JS.keys params) params.

End Program.

(** ** Planning and dispatch *)

(** An element of the task queue: a batch when batching is on, but with
    batching off the queue's own elements, the Hits themselves. *)
Inductive Task : Type :=
| Single (hit : JS.object)
| Batch (hits : list JS.object).

Definition task_hits (t : Task) : list JS.object :=
  match t with
  | Single h => [h]
  | Batch hs => hs
  end.

(** The promise made for one task. *)
Inductive Promise : Type :=
| Pending
| Fulfilled
| Rejected (message : string).

(** A [send] suspended at [await Promise.all(tasks)]: its promises, its
    [count], the reason of the first promise that rejected, and whether
    the code after the [await] has run. *)
Record Sending : Type := mkSending {
  sending_this : Visitor;
  sending_fn : option Callback;
  sending_tasks : list Promise;
  sending_count : nat;
  sending_rejection : option string;
  sending_settled : bool
}.

(** [Math.ceil(length / batchSize)] as the bound of the [for] loop:
    [None] is [Infinity] (a positive length over zero), under which the
    loop never ends; [0 / 0] is [NaN], under which it never starts. *)
Definition nBuckets (length : nat) (batchSize : Z) : option Z :=
  if (batchSize =? 0)%Z then
    if (length =? 0)%nat then Some 0%Z else None
  else Some (- ((- Z.of_nat length) / batchSize))%Z.

Definition getNextSendBatch (v : Visitor) : M (list JS.object) :=
  let* len := gets (fun w => length (array_at (queue v) w)) in
  let* batchSize := gets (fun w => Config.batchSize (config w)) in
  let maxBatchSize := Z.min (Z.of_nat len) batchSize in
  splice0 (queue v) maxBatchSize.

(** [for (let i = 0; i < nBuckets; i++) q.push(this.getNextSendBatch())] *)
Fixpoint fill_buckets (n : nat) (v : Visitor) (q : list (list JS.object))
  : M (list (list JS.object)) :=
  match n with
  | O => ret q
  | S n' =>
      let* b := getNextSendBatch v in
      fill_buckets n' v (q ++ [b])%list
  end.

Definition nonempty (bucket : list JS.object) : bool :=
  (0 <? length bucket)%nat.

Definition getSendTaskQueue (v : Visitor) : M (list Task) :=
  let* batching := gets (fun w => Config.batching (config w)) in
  if negb batching then
    let* len := gets (fun w => length (array_at (queue v) w)) in
    let* hits := splice0 (queue v) (Z.of_nat len) in
    ret (map Single hits)
  else
    let* len := gets (fun w => length (array_at (queue v) w)) in
    let* batchSize := gets (fun w => Config.batchSize (config w)) in
    match nBuckets len batchSize with
    | None => diverge
    | Some n =>
        let* q := fill_buckets (Z.to_nat n) v [] in
        ret (map Batch (filter (fun b => nonempty b = true) q))
    end.

(** [params.map(p => querystring.stringify(p)).join('\n')].  A Hit is a
    plain object: whatever its [map] property holds, it is not a
    function, and the call throws a [TypeError]. *)
Definition getBody (params : Task) : string + string :=
  match params with
  | Batch hits =>
      inr (QueryString.join (String (ascii_of_nat 10) "")
             (map QueryString.stringify hits))
  | Single _ => inl "params.map is not a function"
  end.

(** [fn.call(this, error, count)] for a callback that returns; the
    default [fn] does nothing.  Callbacks that throw are in [Try]. *)
Definition call (fn : option Callback) (this : Visitor)
    (error : option string) (count : nat) : M unit :=
  match fn with
  | Some f =>
      modify (fun w => with_calls (calls w ++ [mkCall f this error count])%list w)
  | None => ret tt
  end.

(** [request.post(path, Object.assign({}, this.options.requestOptions,
    { body, headers: this.options.headers || {} }), cb)] *)
Definition request_of (v : Visitor) (path body : string) : Post :=
  mkPost path body
    (default [] (VisitorOptions.headers (options v)))
    (JS.delete "headers"
       (JS.delete "body"
          (default [] (VisitorOptions.requestOptions (options v))))).

(** The executor of the promise of one task.  An exception thrown by
    [getBody] rejects the promise before any request is made. *)
Definition start_task (v : Visitor) (path : string) (task : Task) : M Promise :=
  match getBody task with
  | inl message => ret (Rejected message)
  | inr body =>
      modify (fun w => with_posts (posts w ++ [request_of v path body])%list w);;
      ret Pending
  end.

(** The promises are made in order, so the first that is rejected when
    [Promise.all] takes them is the first of the list. *)
Fixpoint first_rejection (ps : list Promise) : option string :=
  match ps with
  | [] => None
  | Rejected m :: _ => Some m
  | _ :: ps' => first_rejection ps'
  end.

(** [send(fn)] up to its [await]: plan, and start every task in order.
    With nothing to send the callback is called at once and there is
    nothing to await. *)
Definition send (v : Visitor) (fn : option Callback) : M (option Sending) :=
  let* taskQueue := getSendTaskQueue v in
  match taskQueue with
  | [] => call fn v None 0;; ret None
  | _ =>
      let* c := gets config in
      let pathFragment :=
        if Config.batching c then Config.batchPath c else Config.path c in
      let path := Config.hostname c ++ pathFragment in
      let* tasks := mapM (start_task v path) taskQueue in
      ret (Some (mkSending v fn tasks 0 (first_rejection tasks) false))
  end.

(** *** After the [await]

    The callback of a request runs in a turn of the event loop of its
    own; the code after [await Promise.all(tasks)] runs in the microtasks
    that follow a turn. *)

Definition is_fulfilled (p : Promise) : bool :=
  match p with Fulfilled => true | _ => false end.

Definition with_tasks (ps : list Promise) (r : option string) (s : Sending)
  : Sending :=
  mkSending (sending_this s) (sending_fn s) ps (sending_count s) r
    (sending_settled s).

(** [err => { if (err) reject(err); count++; resolve(); }] for the
    request of task [i]; [err] is the error's message.  Rejecting or
    resolving a promise that is no longer pending does nothing. *)
Definition respond (i : nat) (err : option string) (s : Sending) : Sending :=
  let s1 :=
    match err, sending_tasks s !! i with
    | Some m, Some Pending =>
        with_tasks (<[i := Rejected m]> (sending_tasks s))
          (match sending_rejection s with
           | None => Some m
           | Some r => Some r
           end) s
    | _, _ => s
    end in
  let s2 :=
    mkSending (sending_this s1) (sending_fn s1) (sending_tasks s1)
      (S (sending_count s1)) (sending_rejection s1) (sending_settled s1) in
  match sending_tasks s2 !! i with
  | Some Pending =>
      with_tasks (<[i := Fulfilled]> (sending_tasks s2)) (sending_rejection s2) s2
  | _ => s2
  end.

Definition settled (s : Sending) : Sending :=
  mkSending (sending_this s) (sending_fn s) (sending_tasks s)
    (sending_count s) (sending_rejection s) true.

(** The microtasks: once [Promise.all] has rejected, the [catch] block
    calls [fn] with the message; once every promise is fulfilled, [fn]
    is called with [null]; both with [count] as it is then. *)
Definition resume (s : Sending) : M Sending :=
  if sending_settled s then ret s
  else
    match sending_rejection s with
    | Some message =>
        call (sending_fn s) (sending_this s) (Some message) (sending_count s);;
        ret (settled s)
    | None =>
        if forallb is_fulfilled (sending_tasks s) then
          call (sending_fn s) (sending_this s) None (sending_count s);;
          ret (settled s)
        else ret s
    end.

(** The responses in the order they arrive, each followed by the
    microtasks. *)
Fixpoint responses (evs : list (nat * option string)) (s : Sending) : M Sending :=
  match evs with
  | [] => ret s
  | (i, err) :: evs' =>
      let* s' := resume (respond i err s) in
      responses evs' s'
  end.

(** The rest of a [send]: the microtasks of the turn that called it,
    then the responses. *)
Definition await (s : option Sending) (evs : list (nat * option string))
  : M unit :=
  match s with
  | None => ret tt
  | Some s0 =>
      let* s1 := resume s0 in
      let* _ := responses evs s1 in
      ret tt
  end.

(** *** Callbacks that throw

    [call] goes on after the callback: it is a callback that returns.
    The callback is the caller's code and may throw instead.  Both
    calls that report success, [fn.call(this, null, 0)] and
    [fn.call(this, null, count)], are inside the [try] of [send], so
    what the callback throws there is caught and the [catch] block
    calls it again.  [Try] is [send] and the code after its [await] for
    callbacks that may throw. *)

(** What a callback does with a call: [None] when it returns,
    [Some message] when it throws an [Error] with that message. *)
Definition Conduct : Type := Call -> option string.

(** The call the [catch] block makes after a call that threw inside the
    [try]: [fn.call(this, e.message, count)].  Only a call that reports
    success is inside the [try]. *)
Definition caught (throws : Conduct) (c : Call) : list Call :=
  match call_error c, throws c with
  | None, Some message =>
      [mkCall (call_fn c) (call_this c) (Some message) (call_count c)]
  | _, _ => []
  end.

Module Try.
Section Conduct.
Variable throws : Conduct.

(** [fn.call(this, null, count)] inside the [try].  When the callback
    throws, the [catch] block calls it with the message; what it throws
    then rejects the promise of [send], and no call follows. *)
Definition call_in_try (fn : option Callback) (this : Visitor) (count : nat)
  : M unit :=
  call fn this None count;;
  match fn with
  | Some f =>
      match throws (mkCall f this None count) with
      | Some message => call fn this (Some message) count
      | None => ret tt
      end
  | None => ret tt
  end.

(** [send(fn)] up to its [await]. *)
Definition send (v : Visitor) (fn : option Callback) : M (option Sending) :=
  let* taskQueue := getSendTaskQueue v in
  match taskQueue with
  | [] => call_in_try fn v 0;; ret None
  | _ =>
      let* c := gets config in
      let pathFragment :=
        if Config.batching c then Config.batchPath c else Config.path c in
      let path := Config.hostname c ++ pathFragment in
      let* tasks := mapM (start_task v path) taskQueue in
      ret (Some (mkSending v fn tasks 0 (first_rejection tasks) false))
  end.

(** The microtasks.  The call of the [catch] block after a rejection is
    outside the [try]: nothing follows it. *)
Definition resume (s : Sending) : M Sending :=
  if sending_settled s then ret s
  else
    match sending_rejection s with
    | Some message =>
        call (sending_fn s) (sending_this s) (Some message) (sending_count s);;
        ret (settled s)
    | None =>
        if forallb is_fulfilled (sending_tasks s) then
          call_in_try (sending_fn s) (sending_this s) (sending_count s);;
          ret (settled s)
        else ret s
    end.

Fixpoint responses (evs : list (nat * option string)) (s : Sending) : M Sending :=
  match evs with
  | [] => ret s
  | (i, err) :: evs' =>
      let* s' := resume (respond i err s) in
      responses evs' s'
  end.

Definition await (s : option Sending) (evs : list (nat * option string))
  : M unit :=
  match s with
  | None => ret tt
  | Some s0 =>
      let* s1 := resume s0 in
      let* _ := responses evs s1 in
      ret tt
  end.

End Conduct.
End Try.

(** ** Recording hits *)

Section Recording.
Context {collab : Collaborators}.

Definition defaults (c : Config.t) (v : Visitor) (t : MetricType) : JS.object :=
  [("v", JS.VStr (Config.protocolVersion c));
   ("tid", tid v);
   ("cid", cid v);
   ("uid", uid v);
   ("t", JS.VStr (MetricType_value t))].

(** The Hit [enqueue] builds. *)
Definition hit_of (c : Config.t) (v : Visitor) (t : MetricType)
    (p : JS.object) : JS.object :=
  JS.assign (translateParams c p) (defaults c v t).

(** [enqueue(t, p, fn)]: with a callback the queue is sent at once; the
    [send] so started is returned next to the Visitor. *)
Definition enqueue (v : Visitor) (t : MetricType) (p : JS.object)
    (fn : option Callback) : M (Visitor * option Sending) :=
  let* c := gets config in
  let params := hit_of c v t p in
  push (queue v) params;;
  match fn with
  | Some _ => let* s := send v fn in ret (v, s)
  | None => ret (v, None)
  end.

Record PageviewArgs : Type := mkPageviewArgs {
  pv_path : string;
  pv_hostname : option string;
  pv_title : option string;
  pv_params : option JS.object;
  pv_callback : option Callback
}.

(** The parameters [pageview] hands to [enqueue]. *)
Definition pageviewParams (persistent ctx : JS.object) (o : PageviewArgs)
  : JS.object :=
  let p0 := JS.assign (JS.assign [] persistent) (default [] (pv_params o)) in
  let p1 := JS.set "dp"
              (JS.or_else (JS.VStr (pv_path o)) (JS.get "dp" ctx)) p0 in
  let p2 := JS.set "dh"
              (JS.or_else (JS.of_option (pv_hostname o)) (JS.get "dh" ctx)) p1 in
  let p3 := JS.set "dt"
              (JS.or_else (JS.of_option (pv_title o)) (JS.get "dt" ctx)) p2 in
  tidyParameters p3.

Definition pageview (v : Visitor) (o : PageviewArgs)
  : M (Visitor * option Sending) :=
  let* persistent := gets (object_at (persistentParams v)) in
  let tidy := pageviewParams persistent (context v) o in
  let* view := withContext v (pv_params o) in
  enqueue view PAGEVIEW tidy (pv_callback o).

End Recording.

(** ** A process to run the program in

    Stand-ins for the collaborators, and a configuration with the values
    the library documents, used to run the program on concrete inputs. *)

Module Demo.

Fixpoint strip_prefix (p s : string) : option string :=
  match p, s with
  | EmptyString, _ => Some s
  | String a p', String b s' =>
      if Ascii.eqb a b then strip_prefix p' s' else None
  | _, _ => None
  end.

Fixpoint up_to_slash (s : string) : string :=
  match s with
  | EmptyString => EmptyString
  | String c s' => if Ascii.eqb c "/" then EmptyString else String c (up_to_slash s')
  end.

(** The host of [http://host/...] and [https://host/...]; [null]
    without either protocol. *)
Definition host (s : string) : option string :=
  match strip_prefix "https://" s with
  | Some r => Some (up_to_slash r)
  | None =>
      match strip_prefix "http://" s with
      | Some r => Some (up_to_slash r)
      | None => None
      end
  end.

Fixpoint tally (n : nat) : string :=
  match n with
  | O => EmptyString
  | S n' => String "i" (tally n')
  end.

(** A different identifier at every call. *)
Definition uuid (n : nat) : string := "uuid-" ++ tally n.

#[export] Instance collaborators : Collaborators :=
  {| uuid_v4 := uuid; url_host := host |}.

Definition config : Config.t :=
  Config.mk "https://www.google-analytics.com" "/collect" "/batch"
    true 10 "1"
    [("documentPath", "dp"); ("documentHostName", "dh");
     ("documentTitle", "dt")].

(** A process in which nothing has happened yet. *)
Definition world : World := mkWorld config ∅ ∅ 0 [] [].

(** A Visitor whose queue holds the given Hits, in a process with the
    given batching policy. *)
Definition visitor : Visitor :=
  mkVisitor VisitorOptions.empty [] 0 0
    JS.VUndefined (JS.VStr "cid-0") JS.VUndefined.

Definition policy (batching : bool) (batchSize : Z) : Config.t :=
  Config.mk "https://www.google-analytics.com" "/collect" "/batch"
    batching batchSize "1" [].

Definition world_with (c : Config.t) (hits : list JS.object) : World :=
  mkWorld c {[ 0 := hits ]} {[ 0 := [] ]} 0 [] [].

Definition hit (k v : string) : JS.object := [(k, JS.VStr v)].

End Demo.

(** ** Notions the statements use *)

(** The first [n] runs of [size] elements of a list. *)
Fixpoint chunk {A} (size n : nat) (l : list A) : list (list A) :=
  match n with
  | O => []
  | S n' => take size l :: chunk size n' (drop size l)
  end.

(** [w'] differs from [w] at most in the array behind [q]. *)
Definition only_array (q : loc) (w w' : World) : Prop :=
  config w' = config w /\ objects w' = objects w /\ uuids w' = uuids w /\
  posts w' = posts w /\ calls w' = calls w /\
  forall l, l <> q -> arrays w' !! l = arrays w !! l.

(** The batch size is a positive integer whenever batching is on. *)
Definition policy_ok (c : Config.t) : Prop :=
  Config.batching c = true -> (0 < Config.batchSize c)%Z.

(** [w'] differs from [w] at most in the record of the calls. *)
Definition only_calls (w w' : World) : Prop :=
  config w' = config w /\ arrays w' = arrays w /\ objects w' = objects w /\
  uuids w' = uuids w /\ posts w' = posts w.

(** Where [send] posts to. *)
Definition send_path (c : Config.t) : string :=
  Config.hostname c ++
  (if Config.batching c then Config.batchPath c else Config.path c).

(** The state of a [send] while the responses so far, those of the tasks
    in [done], were all successes. *)
Definition on_the_way (n : nat) (done : list nat) (s : Sending) : Prop :=
  length (sending_tasks s) = n /\
  (forall j, j < n ->
     sending_tasks s !! j = Some (if decide (j ∈ done) then Fulfilled else Pending)) /\
  sending_rejection s = None /\
  sending_settled s = false /\
  sending_count s = length done.

(** The body of a batch. *)
Definition batch_body (hits : list JS.object) : string :=
  QueryString.join (String (ascii_of_nat 10) "") (map QueryString.stringify hits).

(** ** Notions the further properties use *)

(** [s.split('\n')] *)
Fixpoint split_lines (s : string) : list string :=
  match s with
  | EmptyString => [EmptyString]
  | String c s' =>
      if Ascii.eqb c (ascii_of_nat 10) then EmptyString :: split_lines s'
      else match split_lines s' with
           | x :: r => String c x :: r
           | [] => [String c EmptyString]
           end
  end.

(** The character is somewhere in the string. *)
Fixpoint occurs (c : ascii) (s : string) : bool :=
  match s with
  | EmptyString => false
  | String c' s' => Ascii.eqb c' c || occurs c s'
  end.

(** ** The first implementation, [lib/index.js]

    The Visitor of [lib/index.js], which [src/index.ts] replaces: its
    constructor with the argument shapes it accepts, [reset],
    [pageview], [_withContext], [_enqueue] and [send].  The parameters
    object [pageview] builds is the context of the view and the object
    [_enqueue] extends, so it lives in a store; what only logs ([debug],
    [_log], [_checkParameters]) is left out. *)

Module Legacy.

(** The options object, by the properties the code reads. *)
Record Options : Type := mkOptions {
  o_tid : JS.value;
  o_cid : JS.value
}.

(** [{}] *)
Definition no_options : Options := mkOptions JS.VUndefined JS.VUndefined.

Record Visitor : Type := mkVisitor {
  _queue : loc;
  options : Options;
  _context : option loc;
  tid : JS.value;
  cid : JS.value
}.

(** One [fn.call(self, err)]. *)
Record Call : Type := mkCall {
  call_fn : Callback;
  call_this : Visitor;
  call_err : option string
}.

(** The state of the process: [config] is only read here; a request is
    the path it is posted to. *)
Record State : Type := mkState {
  config : Config.t;
  queues : gmap loc (list JS.object);
  objects : gmap loc JS.object;
  uuids : nat;
  posts : list string;
  calls : list Call
}.

Definition queue_at (l : loc) (st : State) : list JS.object :=
  default [] (queues st !! l).

Definition object_at (l : loc) (st : State) : JS.object :=
  default [] (objects st !! l).

Definition with_queue (l : loc) (q : list JS.object) (st : State) : State :=
  mkState (config st) (<[l := q]> (queues st)) (objects st) (uuids st)
    (posts st) (calls st).

Definition with_object (l : loc) (o : JS.object) (st : State) : State :=
  mkState (config st) (queues st) (<[l := o]> (objects st)) (uuids st)
    (posts st) (calls st).

(** What [tid] and [cid] may be given as: a string, [null] or
    [undefined], or the options object in their place. *)
Inductive Arg : Type :=
| Val (x : JS.value)
| Obj (o : Options).

(** [typeof a === 'object'], which holds of [null] too. *)
Definition is_object (a : Arg) : bool :=
  match a with
  | Obj _ => true
  | Val JS.VNull => true
  | Val _ => false
  end.

(** [options = a] for an [a] whose [typeof] is ['object']: the object, or
    [null]. *)
Definition as_options (a : Arg) : option Options :=
  match a with
  | Obj o => Some o
  | Val _ => None
  end.

Definition as_value (a : Arg) : JS.value :=
  match a with
  | Val x => x
  | Obj _ => JS.VUndefined
  end.

(** [new Visitor(tid, cid, options, context)] *)
Definition new_Visitor {collab : Collaborators} (tid cid : Arg)
    (options : option Options) (context : option loc) (st : State)
  : Visitor * State :=
  let '(tid, cid, options) :=
    if is_object tid then (JS.VNull, JS.VNull, as_options tid)
    else if is_object cid then (as_value tid, JS.VNull, as_options cid)
    else (as_value tid, as_value cid, options) in
  let q := fresh (dom (queues st)) in
  let st1 := with_queue q [] st in
  let options := default no_options options in
  let this_tid := JS.or_else tid (o_tid options) in
  let given := JS.or_else cid (o_cid options) in
  if JS.truthy given then (mkVisitor q options context this_tid given, st1)
  else
    (mkVisitor q options context this_tid (JS.VStr (uuid_v4 (uuids st1))),
     mkState (config st1) (queues st1) (objects st1) (S (uuids st1))
       (posts st1) (calls st1)).

(** [init(tid, cid, options)] *)
Definition init {collab : Collaborators} (tid cid : Arg)
    (options : option Options) (st : State) : Visitor * State :=
  new_Visitor tid cid options None st.

Definition reset (this : Visitor) : Visitor :=
  mkVisitor (_queue this) (options this) None (tid this) (cid this).

(** [_withContext(context)]: a Visitor constructed from the identity and
    the options of this one, then given this one's queue. *)
Definition _withContext {collab : Collaborators} (this : Visitor)
    (context : loc) (st : State) : Visitor * State :=
  let '(visitor, st1) :=
    new_Visitor (Val (tid this)) (Val (cid this)) (Some (options this))
      (Some context) st in
  (mkVisitor (_queue this) (options visitor) (_context visitor)
     (tid visitor) (cid visitor), st1).

Definition call (fn : option Callback) (self : Visitor) (err : option string)
    (st : State) : State :=
  match fn with
  | Some f =>
      mkState (config st) (queues st) (objects st) (uuids st) (posts st)
        (calls st ++ [mkCall f self err])%list
  | None => st
  end.

(** A [send] waiting for the response to the request it made last. *)
Record Sending : Type := mkSending {
  sending_self : Visitor;
  sending_fn : option Callback
}.

(** [config.hostname + config.path + "?" + qs.stringify(params)] *)
Definition request_path (c : Config.t) (params : JS.object) : string :=
  Config.hostname c ++ Config.path c ++ "?" ++ QueryString.stringify params.

(** One turn of [async.whilst(test, iterator, callback)], whose test is
    called synchronously before every turn: with the queue empty the
    callback is called without an error; otherwise the first Hit is
    taken off the queue and posted. *)
Definition whilst (self : Visitor) (fn : option Callback) (st : State)
  : option Sending * State :=
  match queue_at (_queue self) st with
  | [] => (None, call fn self None st)
  | params :: rest =>
      let st1 := with_queue (_queue self) rest st in
      (Some (mkSending self fn),
       mkState (config st1) (queues st1) (objects st1) (uuids st1)
         (posts st1 ++ [request_path (config st1) params])%list (calls st1))
  end.

(** [send(fn)] *)
Definition send (this : Visitor) (fn : option Callback) (st : State)
  : option Sending * State :=
  whilst this fn st.

(** The response to the request under way: an error ends the loop and is
    handed to the callback, a success starts the next turn. *)
Definition respond (s : option Sending) (err : option string) (st : State)
  : option Sending * State :=
  match s with
  | None => (None, st)
  | Some s0 =>
      match err with
      | Some e => (None, call (sending_fn s0) (sending_self s0) (Some e) st)
      | None => whilst (sending_self s0) (sending_fn s0) st
      end
  end.

Fixpoint responses (errs : list (option string)) (s : option Sending)
    (st : State) : option Sending * State :=
  match errs with
  | [] => (s, st)
  | err :: errs' => let '(s', st') := respond s err st in responses errs' s' st'
  end.

(** The four defaults [_enqueue] writes over the parameters. *)
Definition defaults (c : Config.t) (this : Visitor) (type : string) : JS.object :=
  [("v", JS.VStr (Config.protocolVersion c));
   ("tid", tid this);
   ("cid", cid this);
   ("t", JS.VStr type)].

(** [_enqueue(type, params, fn)] for a parameters object: the object is
    extended in place, and queued. *)
Definition _enqueue (this : Visitor) (type : string) (params : loc)
    (fn : option Callback) (st : State) : (Visitor * option Sending) * State :=
  let hit := JS.assign (object_at params st) (defaults (config st) this type) in
  let st1 := with_object params hit st in
  let st2 := with_queue (_queue this) (queue_at (_queue this) st1 ++ [hit])%list st1 in
  match fn with
  | Some _ => let '(s, st3) := send this fn st2 in ((this, s), st3)
  | None => ((this, None), st2)
  end.

(** What [pageview] may be given as its path and as its parameters. *)
Inductive PathArg : Type :=
| PUndefined
| PNull
| PString (s : string)
| PObject (o : JS.object).

Inductive ParamsArg : Type :=
| QUndefined
| QNull
| QObject (o : JS.object)
| QFunction (cb : Callback).

(** The source of [_.extend]: nothing is copied from [null] or
    [undefined]. *)
Definition source_of (params : ParamsArg) : JS.object :=
  match params with
  | QObject o => o
  | _ => []
  end.

(** [pageview(path, params, fn)] *)
Definition pageview {collab : Collaborators} (this : Visitor) (path : PathArg)
    (params : ParamsArg) (fn : option Callback) (st : State)
  : (Visitor * option Sending) * State :=
  let '(params, fn) :=
    match params with
    | QFunction cb => (QObject [], Some cb)
    | _ => (params, fn)
    end in
  let '(params, path) :=
    match path with
    | PObject o => (QObject o, JS.VNull)
    | PNull => (QNull, JS.VNull)
    | PString s => (params, JS.VStr s)
    | PUndefined => (params, JS.VUndefined)
    end in
  let context :=
    match _context this with
    | Some l => object_at l st
    | None => []
    end in
  let merged := JS.assign (JS.assign [] context) (source_of params) in
  let l := fresh (dom (objects st)) in
  let st1 :=
    with_object l (JS.set "dp" (JS.or_else path (JS.get "dp" merged)) merged) st in
  let '(view, st2) := _withContext this l st1 in
  _enqueue view "pageview" l fn st2.

End Legacy.

(** * Properties *)

(** ** Objects *)

Section ObjectFacts.
Implicit Types (k key : string) (v : JS.value) (o t src : JS.object).

Lemma eqb_same k : String.eqb k k = true.
Proof. apply String.eqb_refl. Qed.

Lemma eqb_other k k' : k <> k' -> String.eqb k k' = false.
Proof. intros Hne. by apply String.eqb_neq. Qed.

Lemma has_lookup k o : JS.has k o = false <-> JS.lookup k o = None.
Proof.
  induction o as [|[k' v'] o IH]; simpl; [done|].
  destruct (String.eqb k' k); [split; discriminate | exact IH].
Qed.

Lemma lookup_keys k o : JS.lookup k o = None <-> ~ In k (JS.keys o).
Proof.
  induction o as [|[k' v'] o IH]; simpl; [tauto|].
  destruct (String.eqb_spec k' k) as [->|Hne].
  - split; [discriminate | tauto].
  - rewrite IH. tauto.
Qed.

Lemma lookup_replace_eq k v o :
  JS.has k o = true -> JS.lookup k (JS.replace k v o) = Some v.
Proof.
  induction o as [|[k' v'] o IH]; simpl; [discriminate|].
  destruct (String.eqb_spec k' k) as [->|Hne]; simpl.
  - by rewrite eqb_same.
  - rewrite eqb_other by done. exact IH.
Qed.

Lemma lookup_replace_ne k k' v o :
  k <> k' -> JS.lookup k' (JS.replace k v o) = JS.lookup k' o.
Proof.
  intros Hne. induction o as [|[k0 v0] o IH]; simpl; [done|].
  destruct (String.eqb_spec k0 k) as [->|Hne0]; simpl.
  - rewrite eqb_other by done. exact IH.
  - destruct (String.eqb k0 k'); [done | exact IH].
Qed.

Lemma lookup_add_index_eq n k v o :
  JS.has k o = false -> JS.lookup k (JS.add_index n k v o) = Some v.
Proof.
  induction o as [|[k' v'] o IH]; simpl.
  - by rewrite eqb_same.
  - destruct (String.eqb k' k) eqn:E; [discriminate|]. intros Hno.
    destruct (JS.key_index k') as [n'|]; simpl.
    + destruct (n' <? n)%N; simpl.
      * rewrite E. by apply IH.
      * by rewrite eqb_same.
    + by rewrite eqb_same.
Qed.

Lemma lookup_add_index_ne n k k' v o :
  k <> k' -> JS.lookup k' (JS.add_index n k v o) = JS.lookup k' o.
Proof.
  intros Hne. induction o as [|[k0 v0] o IH]; simpl.
  - by rewrite eqb_other.
  - destruct (JS.key_index k0) as [n'|]; simpl.
    + destruct (n' <? n)%N; simpl.
      * destruct (String.eqb k0 k'); [done | exact IH].
      * by rewrite eqb_other.
    + by rewrite eqb_other.
Qed.

Lemma lookup_snoc k k' v o :
  JS.lookup k' (o ++ [(k, v)])%list =
  match JS.lookup k' o with
  | Some x => Some x
  | None => if String.eqb k k' then Some v else None
  end.
Proof.
  induction o as [|[k0 v0] o IH]; simpl; [done|].
  destruct (String.eqb k0 k'); [done | exact IH].
Qed.

Lemma lookup_set_eq k v o : JS.lookup k (JS.set k v o) = Some v.
Proof.
  unfold JS.set. destruct (JS.has k o) eqn:E.
  - by apply lookup_replace_eq.
  - destruct (JS.key_index k).
    + by apply lookup_add_index_eq.
    + rewrite lookup_snoc. apply has_lookup in E. by rewrite E, eqb_same.
Qed.

Lemma lookup_set_ne k k' v o :
  k <> k' -> JS.lookup k' (JS.set k v o) = JS.lookup k' o.
Proof.
  intros Hne. unfold JS.set. destruct (JS.has k o).
  - by apply lookup_replace_ne.
  - destruct (JS.key_index k).
    + by apply lookup_add_index_ne.
    + rewrite lookup_snoc, eqb_other by done. by destruct (JS.lookup k' o).
Qed.

Lemma lookup_delete_eq k o : JS.lookup k (JS.delete k o) = None.
Proof.
  induction o as [|[k' v'] o IH]; simpl; [done|].
  destruct (String.eqb k' k) eqn:E; simpl; [exact IH|]. by rewrite E.
Qed.

Lemma lookup_delete_ne k k' o :
  k <> k' -> JS.lookup k' (JS.delete k o) = JS.lookup k' o.
Proof.
  intros Hne. induction o as [|[k0 v0] o IH]; simpl; [done|].
  destruct (String.eqb_spec k0 k) as [->|Hne0]; simpl.
  - rewrite eqb_other by done. exact IH.
  - destruct (String.eqb k0 k'); [done | exact IH].
Qed.

Lemma get_set_eq k v o : JS.get k (JS.set k v o) = v.
Proof. unfold JS.get. by rewrite lookup_set_eq. Qed.

Lemma get_set_ne k k' v o : k <> k' -> JS.get k' (JS.set k v o) = JS.get k' o.
Proof. intros Hne. unfold JS.get. by rewrite lookup_set_ne. Qed.

(** [Object.assign]: a property of the source wins, any other property
    of the target stays. *)
Lemma assign_fold_notin src k ks t :
  ~ In k ks ->
  JS.lookup k (fold_left (fun t k => JS.set k (JS.get k src) t) ks t)
  = JS.lookup k t.
Proof.
  revert t. induction ks as [|a ks IH]; simpl; [done|]. intros t Hnin.
  rewrite IH by tauto. apply lookup_set_ne. intros ->. tauto.
Qed.

Lemma assign_fold_in src k ks t :
  In k ks ->
  JS.lookup k (fold_left (fun t k => JS.set k (JS.get k src) t) ks t)
  = Some (JS.get k src).
Proof.
  revert t. induction ks as [|a ks IH]; simpl; [done|]. intros t Hin.
  destruct (in_dec string_dec k ks) as [Hks|Hks]; [by apply IH|].
  destruct Hin as [->|Hin]; [|done].
  rewrite assign_fold_notin by done. apply lookup_set_eq.
Qed.

Lemma lookup_assign k t src :
  JS.lookup k (JS.assign t src) =
  match JS.lookup k src with
  | Some v => Some v
  | None => JS.lookup k t
  end.
Proof.
  unfold JS.assign. destruct (JS.lookup k src) as [v|] eqn:E.
  - rewrite assign_fold_in.
    + unfold JS.get. by rewrite E.
    + destruct (in_dec string_dec k (JS.keys src)) as [Hin|Hnin]; [done|].
      apply lookup_keys in Hnin. congruence.
  - apply assign_fold_notin. by apply lookup_keys.
Qed.

End ObjectFacts.

(** ** The sanitizer and the translator *)

Section ParameterFacts.
Implicit Types (k key : string) (v : JS.value) (ps p : JS.object).

Lemma tidy_step_other k a ps :
  a <> k -> JS.lookup k (tidy_step ps a) = JS.lookup k ps.
Proof.
  intros Hne. unfold tidy_step.
  destruct (JS.nullish (JS.get a ps)); [by apply lookup_delete_ne | done].
Qed.

Lemma tidy_fold_absent k ks ps :
  JS.lookup k ps = None -> JS.lookup k (fold_left tidy_step ks ps) = None.
Proof.
  revert ps. induction ks as [|a ks IH]; simpl; [done|]. intros ps Hk.
  apply IH. destruct (string_dec a k) as [->|Hne].
  - unfold tidy_step. destruct (JS.nullish (JS.get k ps)); [|done].
    apply lookup_delete_eq.
  - by rewrite tidy_step_other.
Qed.

Lemma tidy_fold_kept k ks ps :
  JS.nullish (JS.get k ps) = false ->
  JS.lookup k (fold_left tidy_step ks ps) = JS.lookup k ps.
Proof.
  revert ps. induction ks as [|a ks IH]; simpl; [done|]. intros ps Hk.
  destruct (string_dec a k) as [->|Hne].
  - unfold tidy_step at 2. rewrite Hk. by apply IH.
  - rewrite IH.
    + by apply tidy_step_other.
    + unfold JS.get. by rewrite tidy_step_other.
Qed.

Lemma tidy_fold_dropped k ks ps :
  In k ks -> JS.nullish (JS.get k ps) = true ->
  JS.lookup k (fold_left tidy_step ks ps) = None.
Proof.
  revert ps. induction ks as [|a ks IH]; simpl; [done|]. intros ps Hin Hk.
  destruct (string_dec a k) as [->|Hne].
  - apply tidy_fold_absent. unfold tidy_step. rewrite Hk.
    apply lookup_delete_eq.
  - destruct Hin as [?|Hin]; [done|]. apply IH; [done|].
    unfold JS.get. by rewrite tidy_step_other.
Qed.

(** [tidyParameters] removes exactly the properties whose value is
    [null] or [undefined]. *)
Lemma lookup_tidyParameters k ps :
  JS.lookup k (tidyParameters ps) =
  match JS.lookup k ps with
  | Some v => if JS.nullish v then None else Some v
  | None => None
  end.
Proof.
  unfold tidyParameters.
  destruct (JS.lookup k ps) as [v|] eqn:E.
  - destruct (JS.nullish v) eqn:Ev.
    + apply tidy_fold_dropped.
      * destruct (in_dec string_dec k (JS.keys ps)) as [Hin|Hnin]; [done|].
        apply lookup_keys in Hnin. congruence.
      * unfold JS.get. by rewrite E.
    + rewrite tidy_fold_kept; [done|]. unfold JS.get. by rewrite E.
  - by apply tidy_fold_absent.
Qed.

Lemma tidyParameters_clean k v ps :
  JS.lookup k (tidyParameters ps) = Some v -> JS.nullish v = false.
Proof.
  rewrite lookup_tidyParameters. destruct (JS.lookup k ps) as [u|]; [|done].
  destruct (JS.nullish u) eqn:E; [done|]. by intros [= <-].
Qed.

(** Every property of the translated object carries the value of a
    property of the source, under the translated name. *)
Lemma translate_fold m p k v ks acc :
  JS.lookup k
    (fold_left (fun tr key => JS.set (translate_key m key) (JS.get key p) tr)
       ks acc) = Some v ->
  JS.lookup k acc = Some v \/
  exists key, In key ks /\ translate_key m key = k /\ v = JS.get key p.
Proof.
  revert acc. induction ks as [|a ks IH]; simpl; [by left|]. intros acc Hk.
  destruct (IH _ Hk) as [Hacc|(key & Hin & Hkey & Hv)].
  - destruct (string_dec (translate_key m a) k) as [<-|Hne].
    + rewrite lookup_set_eq in Hacc. injection Hacc as <-.
      right. exists a. tauto.
    + rewrite lookup_set_ne in Hacc by done. by left.
  - right. exists key. tauto.
Qed.

Lemma lookup_translateParams c p k v :
  JS.lookup k (translateParams c p) = Some v ->
  exists key, In key (JS.keys p) /\
              translate_key (Config.parametersMap c) key = k /\
              v = JS.get key p.
Proof.
  unfold translateParams. intros Hk.
  by destruct (translate_fold _ _ _ _ _ _ Hk) as [?|?].
Qed.

End ParameterFacts.

(** ** The batch planner *)

Section ChunkFacts.
Context {A : Type}.
Implicit Types (l : list A) (size n i : nat).

Lemma length_chunk size n l : length (chunk size n l) = n.
Proof. revert l. induction n as [|n IH]; intros l; simpl; [done|]. by rewrite IH. Qed.

Lemma concat_chunk size n l : concat (chunk size n l) = take (n * size) l.
Proof.
  revert l. induction n as [|n IH]; intros l; simpl; [done|].
  rewrite IH. apply take_take_drop.
Qed.

Lemma lookup_chunk size n l i :
  i < n -> chunk size n l !! i = Some (take size (drop (i * size) l)).
Proof.
  revert l i. induction n as [|n IH]; intros l i Hi; [lia|].
  destruct i as [|i]; simpl; [done|].
  rewrite IH by lia. by rewrite drop_drop.
Qed.

Lemma filter_nonempty_chunk size n (l : list JS.object) :
  0 < size -> (n = 0 \/ (n - 1) * size < length l) ->
  filter (fun b => nonempty b = true) (chunk size n l) = chunk size n l.
Proof.
  intros Hsize. revert l. induction n as [|n IH]; intros l Hn; simpl; [done|].
  destruct Hn as [?|Hn]; [done|].
  rewrite filter_cons_True.
  - f_equal. apply IH. destruct n as [|n]; [by left|right].
    rewrite length_drop. simpl in *. lia.
  - unfold nonempty. apply Nat.ltb_lt. rewrite length_take. simpl in Hn. nia.
Qed.

End ChunkFacts.

Section PlannerFacts.
Implicit Types (v : Visitor) (w : World).

Lemma only_array_refl q w : only_array q w w.
Proof. by repeat split. Qed.

Lemma only_array_trans q w1 w2 w3 :
  only_array q w1 w2 -> only_array q w2 w3 -> only_array q w1 w3.
Proof.
  intros (?&?&?&?&?&H12) (?&?&?&?&?&H23).
  repeat split; try congruence. intros l Hl. rewrite H23, H12; done.
Qed.

Lemma array_at_store q a w :
  array_at q (with_arrays (<[q := a]> (arrays w)) w) = a.
Proof. unfold array_at. simpl. by rewrite lookup_insert_eq. Qed.

Lemma only_array_store q a w :
  only_array q w (with_arrays (<[q := a]> (arrays w)) w).
Proof.
  repeat split; try done. intros l Hl. simpl. by rewrite lookup_insert_ne.
Qed.

(** [splice(0, n)] with [n] between zero and the length. *)
Lemma splice0_run q (d : Z) w :
  (0 <= d)%Z ->
  splice0 q d w =
  Some (take (Z.to_nat d) (array_at q w),
        with_arrays (<[q := drop (Z.to_nat d) (array_at q w)]> (arrays w)) w).
Proof.
  intros Hd. unfold splice0.
  destruct (Z_le_gt_dec d (Z.of_nat (length (array_at q w)))) as [Hle|Hgt].
  - by rewrite Z.max_l, Z.min_l by lia.
  - rewrite Z.max_l, Z.min_r, Nat2Z.id by lia.
    rewrite !take_ge, !drop_ge by lia. done.
Qed.

Lemma getNextSendBatch_run v w :
  (0 < Config.batchSize (config w))%Z ->
  let size := Z.to_nat (Config.batchSize (config w)) in
  getNextSendBatch v w =
  Some (take size (array_at (queue v) w),
        with_arrays (<[queue v := drop size (array_at (queue v) w)]> (arrays w)) w).
Proof.
  intros HB size. unfold getNextSendBatch, bind, gets. simpl.
  rewrite splice0_run by lia.
  destruct (Z_le_gt_dec (Config.batchSize (config w))
              (Z.of_nat (length (array_at (queue v) w)))) as [Hle|Hgt].
  - by rewrite Z.min_r by lia.
  - rewrite Z.min_l, Nat2Z.id by lia. subst size.
    rewrite !take_ge, !drop_ge by lia. done.
Qed.

Lemma fill_buckets_run n v acc w :
  (0 < Config.batchSize (config w))%Z ->
  let size := Z.to_nat (Config.batchSize (config w)) in
  exists w',
    fill_buckets n v acc w
    = Some ((acc ++ chunk size n (array_at (queue v) w))%list, w') /\
    array_at (queue v) w' = drop (n * size) (array_at (queue v) w) /\
    only_array (queue v) w w'.
Proof.
  revert acc w. induction n as [|n IH]; intros acc w HB size.
  - exists w. simpl. rewrite app_nil_r. split; [done|]. split; [done|].
    apply only_array_refl.
  - simpl. unfold bind. rewrite getNextSendBatch_run by done. fold size.
    set (w1 := with_arrays _ w).
    destruct (IH (acc ++ [take size (array_at (queue v) w)])%list w1)
      as (w' & Hrun & Harr & Hframe); [done|].
    exists w'. simpl in Hrun. fold size in Hrun. rewrite Hrun.
    subst w1. rewrite array_at_store in *. split.
    + by rewrite <- app_assoc.
    + split.
      * simpl in Harr. fold size in Harr. by rewrite Harr, drop_drop.
      * eapply only_array_trans; [apply only_array_store | exact Hframe].
Qed.

(** [Math.ceil(N / B)] for a positive [B]. *)
Lemma nBuckets_pos (N : nat) (B : Z) :
  (0 < B)%Z ->
  exists c : Z,
    nBuckets N B = Some c /\ c = ((Z.of_nat N + B - 1) / B)%Z /\
    ((c - 1) * B < Z.of_nat N <= c * B)%Z.
Proof.
  intros HB. unfold nBuckets. rewrite (proj2 (Z.eqb_neq B 0)) by lia.
  eexists. split; [done|].
  pose proof (Z.div_mod (- Z.of_nat N) B ltac:(lia)) as Hdm.
  pose proof (Z.mod_pos_bound (- Z.of_nat N) B HB) as Hm.
  split.
  - apply Z.div_unique_pos with (r := (B - 1 - (- Z.of_nat N) mod B)%Z); nia.
  - nia.
Qed.

(** With batching on and a positive batch size the plan is the queue cut
    into runs of [batchSize], and the queue is left empty. *)
Lemma plan_batches v w :
  Config.batching (config w) = true ->
  (0 < Config.batchSize (config w))%Z ->
  let hits := array_at (queue v) w in
  let B := Config.batchSize (config w) in
  let n := Z.to_nat ((Z.of_nat (length hits) + B - 1) / B) in
  exists w',
    getSendTaskQueue v w = Some (map Batch (chunk (Z.to_nat B) n hits), w') /\
    concat (chunk (Z.to_nat B) n hits) = hits /\
    array_at (queue v) w' = [] /\
    only_array (queue v) w w'.
Proof.
  intros Hon HB hits B n.
  destruct (nBuckets_pos (length hits) B HB) as (c & Hc & Hceil & Hbounds).
  destruct (fill_buckets_run (Z.to_nat c) v [] w HB) as (w' & Hrun & Harr & Hframe).
  exists w'. unfold getSendTaskQueue, bind, gets, ret. simpl. rewrite Hon. simpl.
  fold hits B. rewrite Hc, Hrun. simpl. fold hits B in Harr |- *.
  assert (Hn : Z.to_nat c = n) by (subst n; congruence).
  rewrite Hn in *.
  assert (Hcover : length hits <= n * Z.to_nat B) by nia.
  assert (Hsize : 0 < Z.to_nat B) by lia.
  rewrite filter_nonempty_chunk;
    [| done | destruct (decide (n = 0)); [by left | right; nia]].
  split; [done|]. split.
  - rewrite concat_chunk. by apply take_ge.
  - split; [|done]. rewrite Harr. by apply drop_ge.
Qed.

(** With batching off the plan is the queue itself, one Hit a task. *)
Lemma plan_hits v w :
  Config.batching (config w) = false ->
  getSendTaskQueue v w =
  Some (map Single (array_at (queue v) w),
        with_arrays (<[queue v := []]> (arrays w)) w).
Proof.
  intros Hoff. unfold getSendTaskQueue, bind, gets, ret. simpl. rewrite Hoff. simpl.
  rewrite Z.max_l, Z.min_l by lia. rewrite Nat2Z.id, take_ge, drop_ge by lia. done.
Qed.

Lemma concat_task_hits_Single (hits : list JS.object) :
  concat (map task_hits (map Single hits)) = hits.
Proof. induction hits as [|h hits IH]; simpl; [done|]. by rewrite IH. Qed.

Lemma concat_task_hits_Batch (units : list (list JS.object)) :
  concat (map task_hits (map Batch units)) = concat units.
Proof. induction units as [|u units IH]; simpl; [done|]. by rewrite IH. Qed.

(** Whatever the policy, planning takes the whole queue. *)
Lemma plan_drains v w :
  policy_ok (config w) ->
  exists tasks w',
    getSendTaskQueue v w = Some (tasks, w') /\
    concat (map task_hits tasks) = array_at (queue v) w /\
    array_at (queue v) w' = [] /\
    only_array (queue v) w w'.
Proof.
  intros Hok. destruct (Config.batching (config w)) eqn:Hb.
  - destruct (plan_batches v w Hb (Hok Hb)) as (w' & Hrun & Hcat & Hempty & Hframe).
    eexists _, w'. split; [exact Hrun|]. by rewrite concat_task_hits_Batch.
  - eexists _, _. split; [by apply plan_hits|].
    rewrite concat_task_hits_Single, array_at_store.
    split; [done|]. split; [done|]. apply only_array_store.
Qed.

(** An empty queue plans to nothing under every configuration. *)
Lemma plan_empty v w :
  array_at (queue v) w = [] ->
  exists w', getSendTaskQueue v w = Some ([], w') /\
             array_at (queue v) w' = [] /\ only_array (queue v) w w'.
Proof.
  intros Hq. destruct (Config.batching (config w)) eqn:Hb.
  - exists w. split; [|split; [done | apply only_array_refl]].
    unfold getSendTaskQueue, bind, gets, ret. simpl. rewrite Hb. simpl.
    rewrite Hq. unfold nBuckets. simpl.
    by destruct (Config.batchSize (config w) =? 0)%Z.
  - eexists. rewrite plan_hits, Hq by done. split; [done|].
    rewrite array_at_store. split; [done | apply only_array_store].
Qed.

End PlannerFacts.

(** ** The dispatcher *)

Section DispatchFacts.
Implicit Types (v : Visitor) (w : World) (s : Sending).

Lemma run_bind {A B} (m : M A) (f : A -> M B) w a w' :
  m w = Some (a, w') -> bind m f w = f a w'.
Proof. intros Hm. unfold bind. by rewrite Hm. Qed.

Lemma with_posts_nil w : with_posts (posts w ++ [])%list w = w.
Proof. destruct w. unfold with_posts. simpl. by rewrite app_nil_r. Qed.

(** Starting the tasks of a batched plan posts every batch, in order. *)
Lemma start_batches v path (units : list (list JS.object)) w :
  mapM (start_task v path) (map Batch units) w =
  Some (replicate (length units) Pending,
        with_posts
          (posts w ++ map (fun u => request_of v path (batch_body u)) units)%list w).
Proof.
  revert w. induction units as [|u units IH]; intros w.
  - cbn [map mapM ret length replicate]. by rewrite with_posts_nil.
  - cbn [map mapM bind start_task getBody modify ret].
    rewrite (run_bind _ _ _ _ _ (IH _)).
    cbn [length replicate ret]. unfold with_posts, batch_body. simpl.
    by rewrite <- app_assoc.
Qed.

(** Starting the tasks of an unbatched plan posts nothing: every promise
    is rejected by the exception of [getBody]. *)
Lemma start_hits v path (hits : list JS.object) w :
  mapM (start_task v path) (map Single hits) w =
  Some (replicate (length hits) (Rejected "params.map is not a function"), w).
Proof.
  induction hits as [|h hits IH]; [done|].
  cbn [map mapM bind start_task getBody ret].
  by rewrite (run_bind _ _ _ _ _ IH).
Qed.

Lemma first_rejection_pending n : first_rejection (replicate n Pending) = None.
Proof. induction n; simpl; done. Qed.

Lemma send_run v fn w tasks w1 ps w2 :
  getSendTaskQueue v w = Some (tasks, w1) ->
  tasks <> [] ->
  mapM (start_task v (send_path (config w1))) tasks w1 = Some (ps, w2) ->
  send v fn w = Some (Some (mkSending v fn ps 0 (first_rejection ps) false), w2).
Proof.
  intros Hplan Hne Hstart. unfold send. rewrite (run_bind _ _ _ _ _ Hplan).
  destruct tasks as [|t tasks]; [done|].
  cbn [bind gets]. unfold send_path in Hstart.
  by rewrite (run_bind _ _ _ _ _ Hstart).
Qed.

Lemma send_nothing v fn w w1 :
  getSendTaskQueue v w = Some ([], w1) ->
  send v fn w = (call fn v None 0;; ret None) w1.
Proof. intros Hplan. unfold send. by rewrite (run_bind _ _ _ _ _ Hplan). Qed.

(** [send] on a batched plan. *)
Lemma send_batches v fn w :
  Config.batching (config w) = true ->
  (0 < Config.batchSize (config w))%Z ->
  array_at (queue v) w <> [] ->
  let hits := array_at (queue v) w in
  let B := Config.batchSize (config w) in
  let n := Z.to_nat ((Z.of_nat (length hits) + B - 1) / B) in
  let units := chunk (Z.to_nat B) n hits in
  let path := Config.hostname (config w) ++ Config.batchPath (config w) in
  exists w',
    send v fn w =
    Some (Some (mkSending v fn (replicate n Pending) 0 None false), w') /\
    0 < n /\
    posts w' = (posts w ++ map (fun u => request_of v path (batch_body u)) units)%list /\
    calls w' = calls w /\ config w' = config w /\ objects w' = objects w /\
    uuids w' = uuids w /\
    array_at (queue v) w' = [] /\
    forall l, l <> queue v -> arrays w' !! l = arrays w !! l.
Proof.
  intros Hon HB Hne hits B n units path.
  destruct (plan_batches v w Hon HB) as (w1 & Hplan & Hcat & Hempty & Hframe).
  fold hits B n units in Hplan, Hcat.
  destruct Hframe as (Hc & Ho & Hu & Hp & Hcl & Harr).
  assert (Hn : 0 < n).
  { destruct (decide (n = 0)) as [E|]; [|lia]. exfalso. apply Hne.
    fold hits. rewrite <- Hcat. unfold units. by rewrite E. }
  eexists. split.
  - assert (Hlen : length units = n) by apply length_chunk.
    rewrite <- Hlen at 1.
    rewrite <- (first_rejection_pending (length units)).
    eapply send_run; [exact Hplan | |].
    + destruct units; [simpl in Hlen; lia | done].
    + unfold send_path. rewrite Hc, Hon. apply start_batches.
  - simpl. rewrite Hp. repeat split; try done.
Qed.

End DispatchFacts.

(** ** After the await *)

Section AwaitFacts.
Implicit Types (v : Visitor) (w : World) (s : Sending) (i j n : nat).

Lemma only_calls_refl w : only_calls w w.
Proof. by repeat split. Qed.

Lemma only_calls_trans w1 w2 w3 :
  only_calls w1 w2 -> only_calls w2 w3 -> only_calls w1 w3.
Proof. intros (?&?&?&?&?) (?&?&?&?&?). repeat split; congruence. Qed.

Lemma call_only_calls fn v e c w :
  exists w', call fn v e c w = Some (tt, w') /\ only_calls w w'.
Proof.
  destruct fn as [f|]; eexists; (split; [reflexivity|]); by repeat split.
Qed.

Lemma resume_only_calls s w :
  exists s' w', resume s w = Some (s', w') /\ only_calls w w'.
Proof.
  unfold resume. destruct (sending_settled s).
  { eexists _, _. split; [reflexivity | apply only_calls_refl]. }
  destruct (sending_rejection s) as [m|].
  { destruct (call_only_calls (sending_fn s) (sending_this s) (Some m)
                (sending_count s) w) as (w' & Hcall & Hframe).
    eexists _, w'. by rewrite (run_bind _ _ _ _ _ Hcall). }
  destruct (forallb is_fulfilled (sending_tasks s)).
  - destruct (call_only_calls (sending_fn s) (sending_this s) None
                (sending_count s) w) as (w' & Hcall & Hframe).
    eexists _, w'. by rewrite (run_bind _ _ _ _ _ Hcall).
  - eexists _, _. split; [reflexivity | apply only_calls_refl].
Qed.

Lemma responses_only_calls evs s w :
  exists s' w', responses evs s w = Some (s', w') /\ only_calls w w'.
Proof.
  revert s w. induction evs as [|[i err] evs IH]; intros s w.
  - eexists _, _. split; [reflexivity | apply only_calls_refl].
  - destruct (resume_only_calls (respond i err s) w) as (s1 & w1 & Hres & Hf1).
    destruct (IH s1 w1) as (s2 & w2 & Hrest & Hf2).
    exists s2, w2. cbn [responses]. rewrite (run_bind _ _ _ _ _ Hres).
    split; [done | by eapply only_calls_trans].
Qed.

(** The rest of a [send] touches nothing but the record of the calls. *)
Lemma await_only_calls (o : option Sending) evs w :
  exists w', await o evs w = Some (tt, w') /\ only_calls w w'.
Proof.
  destruct o as [s|]; [|exists w; split; [done | apply only_calls_refl]].
  destruct (resume_only_calls s w) as (s1 & w1 & Hres & Hf1).
  destruct (responses_only_calls evs s1 w1) as (s2 & w2 & Hrest & Hf2).
  exists w2. cbn [await]. rewrite (run_bind _ _ _ _ _ Hres).
  rewrite (run_bind _ _ _ _ _ Hrest). split; [done | by eapply only_calls_trans].
Qed.

Lemma respond_settled i err s :
  sending_settled (respond i err s) = sending_settled s.
Proof.
  unfold respond.
  destruct err as [m|], (sending_tasks s !! i) as [[| |r]|] eqn:E; simpl;
    repeat (match goal with
            | |- context [match ?x with _ => _ end] => destruct x eqn:?
            end; simpl); done.
Qed.

(** Once the callback has been called, no response calls it again. *)
Lemma responses_settled evs s w :
  sending_settled s = true ->
  exists s', responses evs s w = Some (s', w) /\ sending_settled s' = true.
Proof.
  revert s. induction evs as [|[i err] evs IH]; intros s Hs.
  - by exists s.
  - cbn [responses]. unfold resume. rewrite respond_settled, Hs.
    cbn [bind ret].
    destruct (IH (respond i err s)) as (s' & Hrun & Hs'); [by rewrite respond_settled|].
    exists s'. by rewrite Hrun.
Qed.

Lemma on_the_way_start v fn n :
  on_the_way n [] (mkSending v fn (replicate n Pending) 0 None false).
Proof.
  repeat split; simpl; try done.
  - apply length_replicate.
  - intros j Hj. rewrite lookup_replicate_2 by done.
    destruct (decide (j ∈ [])) as [Hin|]; [|done]. by apply elem_of_nil in Hin.
Qed.

Lemma forallb_pending (ps : list Promise) j :
  ps !! j = Some Pending -> forallb is_fulfilled ps = false.
Proof.
  revert j. induction ps as [|p ps IH]; intros j Hj; [done|].
  destruct j as [|j]; simpl in *.
  - by injection Hj as ->.
  - rewrite (IH j Hj). apply andb_false_r.
Qed.

Lemma resume_waiting n done s j w :
  on_the_way n done s -> j < n -> j ∉ done -> resume s w = Some (s, w).
Proof.
  intros (Hlen & Htasks & Hrej & Hset & Hcount) Hj Hnot.
  unfold resume. rewrite Hset, Hrej.
  rewrite (forallb_pending _ j); [done|].
  rewrite Htasks by done. by rewrite decide_False.
Qed.

Lemma respond_success n done s i :
  on_the_way n done s -> i < n -> i ∉ done ->
  on_the_way n (i :: done) (respond i None s) /\
  sending_fn (respond i None s) = sending_fn s /\
  sending_this (respond i None s) = sending_this s.
Proof.
  intros (Hlen & Htasks & Hrej & Hset & Hcount) Hi Hnot.
  unfold respond. cbn [sending_tasks sending_this sending_fn sending_count
                         sending_rejection sending_settled].
  rewrite (Htasks i Hi), decide_False by done.
  split; [|done]. repeat split; simpl; try done.
  - by rewrite length_insert.
  - intros j Hj. destruct (decide (i = j)) as [<-|Hne].
    + rewrite list_lookup_insert_eq by lia.
      rewrite decide_True; [done | by left].
    + rewrite list_lookup_insert_ne, Htasks by done.
      destruct (decide (j ∈ done)) as [Hin|Hnin].
      * rewrite decide_True; [done | by right].
      * rewrite decide_False; [done|]. intros [->|?]%elem_of_cons; done.
  - by rewrite Hcount.
Qed.

Lemma responses_successes n oks : forall done s rest w j,
  on_the_way n done s ->
  NoDup (oks ++ [j])%list ->
  (forall i, i ∈ (oks ++ [j])%list -> i < n /\ i ∉ done) ->
  exists s',
    responses (map (fun i => (i, None)) oks ++ rest)%list s w = responses rest s' w /\
    on_the_way n (rev oks ++ done)%list s' /\
    sending_fn s' = sending_fn s /\ sending_this s' = sending_this s.
Proof.
  induction oks as [|i oks IH]; intros done s rest w j Hs Hnd Hall.
  - by exists s.
  - simpl in Hnd. apply NoDup_cons in Hnd as [Hi Hnd].
    destruct (Hall i ltac:(by left)) as [Hin Hidone].
    destruct (respond_success n done s i Hs Hin Hidone) as (Hs1 & Hfn & Hthis).
    destruct (IH (i :: done) (respond i None s) rest w j Hs1 Hnd)
      as (s' & Hrun & Hs' & Hfn' & Hthis').
    { intros k Hk. destruct (Hall k ltac:(by right)) as [? ?]. split; [done|].
      intros [->|?]%elem_of_cons; done. }
    exists s'. split; [|split; [|split; congruence]].
    + simpl. cbn [responses].
      assert (Hj : j < n /\ j ∉ i :: done).
      { destruct (Hall j) as [? ?]; [apply elem_of_app; right; by left|].
        split; [done|]. intros [->|?]%elem_of_cons; [|done].
        apply Hi, elem_of_app. right. by left. }
      rewrite (run_bind _ _ _ _ _ (resume_waiting n _ _ j w Hs1 (proj1 Hj) (proj2 Hj))).
      exact Hrun.
    + simpl. by rewrite <- app_assoc.
Qed.

(** The first failure: the promise of its task rejects, [count] goes up
    all the same, and the [catch] block reports both. *)
Lemma respond_failure n done s i m f w :
  on_the_way n done s -> i < n -> i ∉ done ->
  sending_fn s = Some f ->
  exists s',
    resume (respond i (Some m) s) w =
    Some (s', with_calls
                (calls w ++ [mkCall f (sending_this s) (Some m) (S (length done))])%list w) /\
    sending_settled s' = true.
Proof.
  intros (Hlen & Htasks & Hrej & Hset & Hcount) Hi Hnot Hfn.
  unfold respond. rewrite (Htasks i Hi), decide_False, Hrej by done.
  cbn [with_tasks sending_tasks sending_this sending_fn sending_count
         sending_rejection sending_settled].
  rewrite list_lookup_insert_eq by lia.
  unfold resume.
  cbn [sending_tasks sending_this sending_fn sending_count
         sending_rejection sending_settled].
  rewrite Hset, Hfn, Hcount. eexists. split; [reflexivity | done].
Qed.

End AwaitFacts.

(** ** What a send leaves alone *)

Section SendFacts.
Implicit Types (v : Visitor) (w : World) (s : Sending).

Lemma start_tasks_frame v path (tasks : list Task) w :
  exists ps w',
    mapM (start_task v path) tasks w = Some (ps, w') /\
    config w' = config w /\ arrays w' = arrays w /\ objects w' = objects w /\
    uuids w' = uuids w /\ calls w' = calls w.
Proof.
  revert w. induction tasks as [|t tasks IH]; intros w.
  - by eexists _, w.
  - cbn [mapM]. unfold start_task at 1. destruct (getBody t) as [m|body].
    + destruct (IH w) as (ps & w' & Hrun & Hframe).
      eexists _, w'. cbn [bind ret]. by rewrite (run_bind _ _ _ _ _ Hrun).
    + cbn [bind modify ret].
      destruct (IH (with_posts (posts w ++ [request_of v path body])%list w))
        as (ps & w' & Hrun & Hframe).
      eexists _, w'. by rewrite (run_bind _ _ _ _ _ Hrun).
Qed.

(** After planning, [send] touches the requests and the calls only. *)
Lemma send_after_plan v fn w tasks w0 :
  getSendTaskQueue v w = Some (tasks, w0) ->
  exists (r : option Sending) w1,
    send v fn w = Some (r, w1) /\
    config w1 = config w0 /\ arrays w1 = arrays w0 /\
    objects w1 = objects w0 /\ uuids w1 = uuids w0.
Proof.
  intros Hplan. destruct tasks as [|t tasks].
  - rewrite (send_nothing _ _ _ _ Hplan).
    destruct (call_only_calls fn v None 0 w0) as (w1 & Hcall & Hc & Ha & Ho & Hu & _).
    eexists _, w1. by rewrite (run_bind _ _ _ _ _ Hcall).
  - destruct (start_tasks_frame v (send_path (config w0)) (t :: tasks) w0)
      as (ps & w1 & Hrun & Hc & Ha & Ho & Hu & _).
    eexists _, w1. by rewrite (send_run _ _ _ _ _ _ _ Hplan ltac:(done) Hrun).
Qed.

(** [send] with batching off and something to send: no request at all,
    every promise already rejected. *)
Lemma send_hits v fn w :
  Config.batching (config w) = false ->
  array_at (queue v) w <> [] ->
  let message := "params.map is not a function" in
  send v fn w =
  Some (Some (mkSending v fn
                (replicate (length (array_at (queue v) w)) (Rejected message))
                0 (Some message) false),
        with_arrays (<[queue v := []]> (arrays w)) w).
Proof.
  intros Hoff Hne message.
  erewrite send_run; [| by apply plan_hits | | apply start_hits].
  - destruct (array_at (queue v) w); done.
  - destruct (array_at (queue v) w); done.
Qed.

End SendFacts.

(** ** Recording *)

Section RecordingFacts.
Context {collab : Collaborators}.
Implicit Types (v view : Visitor) (w : World) (o : VisitorOptions.t).

Lemma cid_or_uuid_run o w :
  exists c w',
    cid_or_uuid o w = Some (c, w') /\
    config w' = config w /\ arrays w' = arrays w /\ objects w' = objects w /\
    posts w' = posts w /\ calls w' = calls w /\
    (VisitorOptions.cid o = None ->
     c = JS.VStr (uuid_v4 (uuids w)) /\ uuids w' = S (uuids w)).
Proof.
  unfold cid_or_uuid. destruct (VisitorOptions.cid o) as [c|]; simpl.
  - destruct (negb (String.eqb c "")); eexists _, _; (split; [reflexivity|]);
      by repeat split.
  - eexists _, _. split; [reflexivity|]. by repeat split.
Qed.

(** A view made by [withContext]: the queue and the persistent
    parameters of its parent, a Visitor of its own otherwise, constructed
    as any Visitor is. *)
Lemma withContext_run v ctx w :
  exists view w',
    withContext v ctx w = Some (view, w') /\
    queue view = queue v /\
    persistentParams view = persistentParams v /\
    options view = options v /\
    context view = default [] ctx /\
    tid view = JS.of_option (VisitorOptions.tid (options v)) /\
    uid view = JS.of_option (VisitorOptions.uid (options v)) /\
    config w' = apply_options (options v) (config w) /\
    arrays w' = arrays w /\ objects w' = objects w /\
    posts w' = posts w /\ calls w' = calls w /\
    (VisitorOptions.cid (options v) = None ->
     cid view = JS.VStr (uuid_v4 (uuids w)) /\ uuids w' = S (uuids w)).
Proof.
  unfold withContext, new_Visitor. cbn [bind ret modify].
  set (w0 := with_config _ w).
  destruct (cid_or_uuid_run (options v) w0)
    as (c & w' & Hrun & Hc & Ha & Ho & Hp & Hcl & Hcid).
  eexists _, w'. rewrite (run_bind _ _ _ _ _ Hrun). cbn [ret].
  split; [reflexivity|]. simpl. repeat split; try done.
  - by apply Hcid.
  - by apply Hcid.
Qed.

Lemma init_run o w :
  exists v w',
    init o w = Some (v, w') /\
    options v = o /\ context v = [] /\
    array_at (queue v) w' = [] /\
    (VisitorOptions.cid o = None ->
     cid v = JS.VStr (uuid_v4 (uuids w)) /\ uuids w' = S (uuids w)) /\
    config w' = apply_options o (config w) /\
    posts w' = posts w /\ calls w' = calls w /\
    forall l, is_Some (arrays w !! l) ->
              l <> queue v /\ arrays w' !! l = arrays w !! l.
Proof.
  unfold init, new_Visitor. cbn [bind ret modify new_object new_array default].
  set (w0 := with_config _ _).
  destruct (cid_or_uuid_run o w0)
    as (c & w' & Hrun & Hc & Ha & Ho & Hp & Hcl & Hcid).
  eexists _, w'. rewrite (run_bind _ _ _ _ _ Hrun). cbn [ret].
  split; [reflexivity|]. simpl.
  split; [done|]. split; [done|]. split.
  { unfold array_at. rewrite Ha. simpl. by rewrite lookup_insert_eq. }
  split; [exact Hcid|]. split; [by rewrite Hc|]. split; [done|]. split; [done|].
  intros l Hl. apply elem_of_dom in Hl.
  assert (Hne : l <> fresh (dom (arrays w))).
  { intros ->. by apply is_fresh in Hl. }
  split; [done|]. rewrite Ha. simpl. by apply lookup_insert_ne.
Qed.

Lemma enqueue_run view t p w :
  enqueue view t p None w =
  Some ((view, None),
        with_arrays
          (<[queue view :=
               (array_at (queue view) w ++ [hit_of (config w) view t p])%list]>
             (arrays w)) w).
Proof. reflexivity. Qed.

Lemma lookup_hit_cid c view t p :
  JS.lookup "cid" (hit_of c view t p) = Some (cid view).
Proof. unfold hit_of. by rewrite lookup_assign. Qed.

Lemma lookup_hit_uid c view t p :
  JS.lookup "uid" (hit_of c view t p) = Some (uid view).
Proof. unfold hit_of. by rewrite lookup_assign. Qed.

Lemma lookup_hit_tid c view t p :
  JS.lookup "tid" (hit_of c view t p) = Some (tid view).
Proof. unfold hit_of. by rewrite lookup_assign. Qed.

(** A property of the Hit that is not one of the five defaults comes
    from the parameters. *)
Lemma lookup_hit_other c view t p k :
  k <> "v" -> k <> "tid" -> k <> "cid" -> k <> "uid" -> k <> "t" ->
  JS.lookup k (hit_of c view t p) = JS.lookup k (translateParams c p).
Proof.
  intros Hv Htid Hcid Huid Ht. unfold hit_of. rewrite lookup_assign.
  unfold defaults. cbn [JS.lookup].
  by rewrite !eqb_other by done.
Qed.

(** [pageview] without a callback: one Hit more on the queue of the
    Visitor it was called on, built by a view of that Visitor. *)
Lemma pageview_run v (pv : PageviewArgs) w :
  pv_callback pv = None ->
  exists view w',
    pageview v pv w = Some ((view, None), w') /\
    queue view = queue v /\
    tid view = JS.of_option (VisitorOptions.tid (options v)) /\
    uid view = JS.of_option (VisitorOptions.uid (options v)) /\
    (VisitorOptions.cid (options v) = None ->
     cid view = JS.VStr (uuid_v4 (uuids w))) /\
    config w' = apply_options (options v) (config w) /\
    array_at (queue v) w' =
      (array_at (queue v) w ++
       [hit_of (config w') view PAGEVIEW
          (pageviewParams (object_at (persistentParams v) w) (context v) pv)])%list /\
    posts w' = posts w /\ calls w' = calls w /\
    forall l, l <> queue v -> arrays w' !! l = arrays w !! l.
Proof.
  intros Hcb.
  destruct (withContext_run v (pv_params pv) w)
    as (view & w1 & Hview & Hq & Hpp & Hopts & Hctx & Htid & Huid & Hc & Ha & Ho
        & Hp & Hcl & Hcid).
  exists view. eexists. unfold pageview. cbn [bind gets].
  rewrite (run_bind _ _ _ _ _ Hview), Hcb, enqueue_run.
  split; [reflexivity|]. simpl. rewrite Hq, Hc, Ha.
  repeat split; try done.
  - intros Hnone. by apply Hcid.
  - unfold array_at at 1. simpl. rewrite lookup_insert_eq.
    unfold array_at. by rewrite Ha.
  - intros l Hl. by rewrite lookup_insert_ne.
Qed.

End RecordingFacts.

(** ** The parameters of a pageview *)

Section PageviewFacts.
Context {collab : Collaborators}.
Implicit Types (pv : PageviewArgs) (persistent ctx : JS.object).

Lemma has_nullish_lookup (o : JS.object) k v :
  JS.lookup k o = Some v -> JS.nullish v = true -> JS.has_nullish o = true.
Proof.
  unfold JS.has_nullish. induction o as [|[k' v'] o IH]; simpl; [done|].
  destruct (String.eqb k' k).
  - intros [= ->] ->. done.
  - intros Hk Hv. rewrite (IH Hk Hv). apply orb_true_r.
Qed.

Lemma apply_options_parametersMap o c :
  Config.parametersMap (apply_options o c) = Config.parametersMap c.
Proof.
  unfold apply_options.
  by destruct (VisitorOptions.hostname o), (VisitorOptions.path o),
       (VisitorOptions.enableBatching o), (VisitorOptions.batchSize o).
Qed.

(** What [pageview] hands to [enqueue] holds no [null] and no
    [undefined]. *)
Lemma pageviewParams_clean persistent ctx pv k v :
  JS.lookup k (pageviewParams persistent ctx pv) = Some v -> JS.nullish v = false.
Proof. apply tidyParameters_clean. Qed.

(** A named field wins over the parameters of the call, and these over
    the persistent ones. *)
Lemma pageviewParams_named_dh persistent ctx pv x :
  pv_hostname pv = Some x -> x <> "" ->
  JS.lookup "dh" (pageviewParams persistent ctx pv) = Some (JS.VStr x).
Proof.
  intros Hx Hne. unfold pageviewParams.
  rewrite lookup_tidyParameters, lookup_set_ne, lookup_set_eq by done.
  rewrite Hx. unfold JS.or_else. simpl.
  by rewrite (proj2 (String.eqb_neq x "")).
Qed.

Lemma pageviewParams_other persistent ctx pv k :
  k <> "dp" -> k <> "dh" -> k <> "dt" ->
  JS.lookup k (pageviewParams persistent ctx pv) =
  match
    match JS.lookup k (default [] (pv_params pv)) with
    | Some v => Some v
    | None => JS.lookup k persistent
    end
  with
  | Some v => if JS.nullish v then None else Some v
  | None => None
  end.
Proof.
  intros Hdp Hdh Hdt. unfold pageviewParams.
  rewrite lookup_tidyParameters, !lookup_set_ne, !lookup_assign by done.
  simpl. by destruct (JS.lookup k persistent).
Qed.

(** Without a [hostname] and without a [dh] in the context, the [dh] of
    the parameters is overwritten with [undefined] and then removed. *)
Lemma pageviewParams_dh_lost persistent pv :
  pv_hostname pv = None ->
  JS.lookup "dh" (pageviewParams persistent [] pv) = None.
Proof.
  intros Hhost. unfold pageviewParams.
  rewrite lookup_tidyParameters, lookup_set_ne, lookup_set_eq by done.
  by rewrite Hhost.
Qed.

(** Apart from the five defaults, the Hit of a pageview holds no [null]
    and no [undefined]. *)
Lemma pageview_hit_clean c view persistent ctx pv k v :
  k <> "v" -> k <> "tid" -> k <> "cid" -> k <> "uid" -> k <> "t" ->
  JS.lookup k (hit_of c view PAGEVIEW (pageviewParams persistent ctx pv)) = Some v ->
  JS.nullish v = false.
Proof.
  intros Hv Htid Hcid Huid Ht. rewrite lookup_hit_other by done.
  intros (key & Hin & _ & ->)%lookup_translateParams.
  destruct (JS.lookup key (pageviewParams persistent ctx pv)) as [u|] eqn:E.
  - unfold JS.get. rewrite E. by eapply pageviewParams_clean.
  - by apply lookup_keys in E.
Qed.

End PageviewFacts.

(** ** Callbacks that throw *)

Section ThrowingFacts.
Variable throws : Conduct.
Implicit Types (v : Visitor) (w : World) (s : Sending) (cs new : list Call).

Lemma with_calls_calls w : with_calls (calls w) w = w.
Proof. by destruct w. Qed.

Lemma with_calls_nil w : with_calls (calls w ++ [])%list w = w.
Proof. by rewrite app_nil_r, with_calls_calls. Qed.

(** The calls of a run, each followed by what the [catch] block adds. *)
Lemma caught_app new1 new2 :
  flat_map (fun c => c :: caught throws c) (new1 ++ new2)%list
  = (flat_map (fun c => c :: caught throws c) new1
     ++ flat_map (fun c => c :: caught throws c) new2)%list.
Proof. apply flat_map_app. Qed.

(** [send] for callbacks that may throw differs from [send] for
    callbacks that return in the call of the [catch] block alone. *)
Lemma try_send_cases v fn w :
  Try.send throws v fn w =
  match send v fn w with
  | Some (None, w1) =>
      match fn with
      | Some f =>
          Some (None,
                with_calls (calls w1 ++ caught throws (mkCall f v None 0))%list w1)
      | None => Some (None, w1)
      end
  | Some (Some s, w1) => Some (Some s, w1)
  | None => None
  end.
Proof.
  unfold Try.send, send, bind.
  destruct (getSendTaskQueue v w) as [[[|t tasks] w0]|]; [| |done].
  - unfold Try.call_in_try, call, caught, bind, modify, ret. destruct fn as [f|]; [|done].
    cbn [call_error call_fn call_this call_count].
    destruct (throws (mkCall f v None 0)); simpl; [done|].
    by rewrite app_nil_r.
  - unfold gets, ret.
    by destruct (mapM _ (t :: tasks) w0) as [[ps w2]|].
Qed.

(** The code after the [await]: the same [send] comes out, and the
    calls are those made to a callback that returns, each followed by
    the call of the [catch] block. *)
Lemma try_resume_sim s :
  exists s' new,
    forall w,
      resume s w = Some (s', with_calls (calls w ++ new)%list w) /\
      Try.resume throws s w =
      Some (s', with_calls
                  (calls w ++ flat_map (fun c => c :: caught throws c) new)%list w).
Proof.
  unfold resume, Try.resume. destruct (sending_settled s).
  { exists s, []. intros w. cbn [flat_map ret]. by rewrite with_calls_nil. }
  destruct (sending_rejection s) as [m|].
  { destruct (sending_fn s) as [f|].
    - exists (settled s), [mkCall f (sending_this s) (Some m) (sending_count s)].
      intros w. by cbn.
    - exists (settled s), []. intros w. cbn. by rewrite with_calls_nil. }
  destruct (forallb is_fulfilled (sending_tasks s)).
  - destruct (sending_fn s) as [f|].
    + exists (settled s), [mkCall f (sending_this s) None (sending_count s)].
      intros w. split; [by cbn|].
      unfold Try.call_in_try, call, caught, bind, modify, ret.
      cbn [flat_map call_error call_fn call_this call_count].
      destruct (throws _); simpl; by rewrite ?app_nil_r, <- ?app_assoc.
    + exists (settled s), []. intros w. cbn. by rewrite with_calls_nil.
  - exists s, []. intros w. cbn [flat_map ret]. by rewrite with_calls_nil.
Qed.

Lemma try_responses_sim evs : forall s,
  exists s' new,
    forall w,
      responses evs s w = Some (s', with_calls (calls w ++ new)%list w) /\
      Try.responses throws evs s w =
      Some (s', with_calls
                  (calls w ++ flat_map (fun c => c :: caught throws c) new)%list w).
Proof.
  induction evs as [|[i err] evs IH]; intros s.
  { exists s, []. intros w. cbn [flat_map responses Try.responses ret].
    by rewrite with_calls_nil. }
  destruct (try_resume_sim (respond i err s)) as (s1 & new1 & H1).
  destruct (IH s1) as (s' & new2 & H2).
  exists s', (new1 ++ new2)%list. intros w.
  destruct (H1 w) as [Hold Hnew]. cbn [responses Try.responses].
  rewrite (run_bind _ _ _ _ _ Hold), (run_bind _ _ _ _ _ Hnew).
  destruct (H2 (with_calls (calls w ++ new1)%list w)) as [Hold2 _].
  destruct (H2 (with_calls
                  (calls w ++ flat_map (fun c => c :: caught throws c) new1)%list w))
    as [_ Hnew2].
  rewrite Hold2, Hnew2. cbn [calls with_calls]. rewrite caught_app, !app_assoc.
  done.
Qed.

Lemma try_await_sim r evs :
  exists new,
    forall w,
      await r evs w = Some (tt, with_calls (calls w ++ new)%list w) /\
      Try.await throws r evs w =
      Some (tt, with_calls
                  (calls w ++ flat_map (fun c => c :: caught throws c) new)%list w).
Proof.
  destruct r as [s|].
  - destruct (try_resume_sim s) as (s1 & new1 & H1).
    destruct (try_responses_sim evs s1) as (s' & new2 & H2).
    exists (new1 ++ new2)%list. intros w.
    destruct (H1 w) as [Hold Hnew]. cbn [await Try.await].
    rewrite (run_bind _ _ _ _ _ Hold), (run_bind _ _ _ _ _ Hnew).
    destruct (H2 (with_calls (calls w ++ new1)%list w)) as [Hold2 _].
    destruct (H2 (with_calls
                    (calls w ++ flat_map (fun c => c :: caught throws c) new1)%list w))
      as [_ Hnew2].
    rewrite (run_bind _ _ _ _ _ Hold2), (run_bind _ _ _ _ _ Hnew2).
    cbn [ret calls with_calls]. rewrite caught_app, !app_assoc. done.
  - exists []. intros w. cbn [await Try.await flat_map ret].
    by rewrite with_calls_nil.
Qed.

(** With callbacks that return, [Try] is the program as it was run
    before. *)
Lemma try_returning_send v fn w :
  (forall c, throws c = None) -> Try.send throws v fn w = send v fn w.
Proof.
  intros Hret. rewrite try_send_cases.
  destruct (send v fn w) as [[[s|] w1]|]; try done.
  destruct fn as [f|]; [|done]. unfold caught. cbn [call_error].
  by rewrite Hret, with_calls_nil.
Qed.

Lemma try_returning_await r evs w :
  (forall c, throws c = None) -> Try.await throws r evs w = await r evs w.
Proof.
  intros Hret. destruct (try_await_sim r evs) as (new & Hsim).
  destruct (Hsim w) as [-> ->].
  assert (Hsame : flat_map (fun c => c :: caught throws c) new = new).
  { clear Hsim. induction new as [|c new IH]; [done|]. cbn [flat_map].
    unfold caught at 1. rewrite Hret, IH. by destruct (call_error c). }
  by rewrite Hsame.
Qed.

End ThrowingFacts.

(** * The claims of the specification *)


(** C2.  With batching on and a batch size [B > 0], a queue of [N] Hits is
    planned into [ceil(N / B)] dispatch units; every unit but the last
    has [B] Hits, the last has [N mod B] of them, or [B] when [N mod B]
    is zero; and the units, one after the other, are the queue in its
    order. *)
Theorem batches_partition_queue (v : Visitor) (w : World) (B : Z) :
  Config.batching (config w) = true ->
  Config.batchSize (config w) = B ->
  (0 < B)%Z ->
  let hits := array_at (queue v) w in
  let N := Z.of_nat (length hits) in
  exists (units : list (list JS.object)) w',
    getSendTaskQueue v w = Some (map Batch units, w') /\
    Z.of_nat (length units) = ((N + B - 1) / B)%Z /\
    (forall i u, units !! i = Some u -> S i < length units ->
                 Z.of_nat (length u) = B) /\
    (forall u, last units = Some u ->
               Z.of_nat (length u) = if (N mod B =? 0)%Z then B else (N mod B)%Z) /\
    concat units = hits.
Proof.
  intros Hon HB Hpos hits N. subst B.
  destruct (plan_batches v w Hon Hpos) as (w' & Hplan & Hcat & _ & _).
  fold hits in Hplan, Hcat.
  set (B := Config.batchSize (config w)) in *.
  set (n := Z.to_nat ((Z.of_nat (length hits) + B - 1) / B)) in *.
  destruct (nBuckets_pos (length hits) B Hpos) as (c & _ & Hceil & Hbounds).
  fold N in Hceil, Hbounds.
  assert (Hn : Z.of_nat n = c) by (subst n; fold N; lia).
  exists (chunk (Z.to_nat B) n hits), w'.
  split; [exact Hplan|]. rewrite length_chunk.
  split; [by rewrite Hn, Hceil|].
  assert (Hlen : forall i, i < n ->
            forall u, chunk (Z.to_nat B) n hits !! i = Some u ->
            length u = Nat.min (Z.to_nat B) (length hits - i * Z.to_nat B)).
  { intros i Hi u. rewrite lookup_chunk by done. intros [= <-].
    by rewrite length_take, length_drop. }
  split; [|split; [|exact Hcat]].
  - intros i u Hu Hi. rewrite (Hlen i ltac:(lia) u Hu). subst N. nia.
  - intros u. rewrite last_lookup, length_chunk. intros Hu.
    assert (Hnpos : 0 < n).
    { pose proof (lookup_lt_Some _ _ _ Hu) as Hlt.
      rewrite length_chunk in Hlt. lia. }
    rewrite (Hlen (pred n) ltac:(lia) u Hu).
    assert (Hlast : Z.of_nat (pred n * Z.to_nat B) = ((c - 1) * B)%Z).
    { rewrite Nat2Z.inj_mul, Z2Nat.id, Nat2Z.inj_pred by lia. by rewrite Hn. }
    pose proof (Z.div_mod N B ltac:(lia)) as Hdm.
    pose proof (Z.mod_pos_bound N B Hpos) as Hm.
    destruct (Z.eqb_spec (N mod B) 0) as [Hz|Hnz].
    + assert (N / B = c)%Z by nia. subst N. nia.
    + assert (N / B = c - 1)%Z by nia. subst N. nia.
Qed.

Lemma batches_partition_queue_witness :
  Config.batching (config (Demo.world_with (Demo.policy true 2)
     [Demo.hit "a" "1"; Demo.hit "b" "2"; Demo.hit "c" "3"])) = true /\
  (0 < 2)%Z /\
  exists (units : list (list JS.object)) w',
    getSendTaskQueue Demo.visitor
      (Demo.world_with (Demo.policy true 2)
         [Demo.hit "a" "1"; Demo.hit "b" "2"; Demo.hit "c" "3"])
    = Some (map Batch units, w') /\
    length units = 2 /\
    concat units = [Demo.hit "a" "1"; Demo.hit "b" "2"; Demo.hit "c" "3"].
Proof.
  split; [reflexivity|]. split; [lia|].
  destruct (batches_partition_queue Demo.visitor
              (Demo.world_with (Demo.policy true 2)
                 [Demo.hit "a" "1"; Demo.hit "b" "2"; Demo.hit "c" "3"]) 2
              eq_refl eq_refl ltac:(lia))
    as (units & w' & Hplan & Hlen & _ & _ & Hcat).
  exists units, w'. split; [exact Hplan|]. split; [|exact Hcat].
  apply Nat2Z.inj. rewrite Hlen. reflexivity.
Defined.

(** C8.  [send] on an empty queue posts nothing and calls the completion
    callback with no error and a count of zero; nothing is left to
    await.  The call is inside the [try]: a callback that returns has
    been called once, and a callback that throws is called a second
    time, by the [catch] block, with the message of what it threw and a
    count of zero. *)
Theorem send_empty_queue_calls_again_on_throw (throws : Conduct) (v : Visitor)
    (f : Callback) (w : World) :
  array_at (queue v) w = [] ->
  exists w',
    Try.send throws v (Some f) w = Some (None, w') /\
    posts w' = posts w /\
    calls w' =
      (calls w ++
       mkCall f v None 0
       :: match throws (mkCall f v None 0) with
          | Some message => [mkCall f v (Some message) 0]
          | None => []
          end)%list /\
    forall evs, Try.await throws None evs w' = Some (tt, w').
Proof.
  intros Hq. destruct (plan_empty v w Hq) as (w0 & Hplan & _ & Hframe).
  destruct Hframe as (_ & _ & _ & Hp & Hc & _).
  unfold Try.send. rewrite (run_bind _ _ _ _ _ Hplan).
  unfold Try.call_in_try, call, bind, modify, ret.
  destruct (throws (mkCall f v None 0)) as [message|];
    eexists; (split; [reflexivity|]); simpl; rewrite Hp, Hc;
    (split; [done|]); (split; [|done]); by rewrite <- ?app_assoc.
Qed.

Lemma send_empty_queue_calls_again_on_throw_witness :
  array_at (queue Demo.visitor) (Demo.world_with (Demo.policy true 0) []) = [] /\
  exists w',
    Try.send (fun c => match call_error c with
                       | None => Some "boom"
                       | Some _ => None
                       end)
      Demo.visitor (Some 7) (Demo.world_with (Demo.policy true 0) [])
    = Some (None, w') /\
    calls w' = [mkCall 7 Demo.visitor None 0; mkCall 7 Demo.visitor (Some "boom") 0] /\
    posts w' = [].
Proof.
  split; [reflexivity|].
  destruct (send_empty_queue_calls_again_on_throw
              (fun c => match call_error c with
                        | None => Some "boom"
                        | Some _ => None
                        end)
              Demo.visitor 7
              (Demo.world_with (Demo.policy true 0) []) eq_refl)
    as (w' & Hsend & Hposts & Hcalls & _).
  by exists w'.
Defined.

(** C7.  [send] takes the whole queue before any request is made: the
    plan, unit after unit, is the queue as it was when [send] was called,
    and when [send] comes back the queue is empty.  A Hit enqueued
    afterwards, while the requests are under way, stays on the queue: the
    requests of this send are the ones already made, and its responses
    do not change that. *)
Theorem send_drains_queue (v : Visitor) (fn : option Callback) (w : World) :
  policy_ok (config w) ->
  exists tasks w0 r w1,
    getSendTaskQueue v w = Some (tasks, w0) /\
    concat (map task_hits tasks) = array_at (queue v) w /\
    send v fn w = Some (r, w1) /\
    array_at (queue v) w1 = [] /\
    forall view t p evs,
      queue view = queue v ->
      exists w2 w3,
        enqueue view t p None w1 = Some ((view, None), w2) /\
        await r evs w2 = Some (tt, w3) /\
        array_at (queue v) w3 = [hit_of (config w1) view t p] /\
        posts w3 = posts w1.
Proof.
  intros Hok.
  destruct (plan_drains v w Hok) as (tasks & w0 & Hplan & Hcat & Hempty & _).
  destruct (send_after_plan v fn w tasks w0 Hplan)
    as (r & w1 & Hsend & Hc & Ha & _).
  exists tasks, w0, r, w1. repeat (split; [done|]).
  assert (Hq1 : array_at (queue v) w1 = []).
  { unfold array_at in *. by rewrite Ha. }
  split; [done|]. intros view t p evs Hview.
  rewrite enqueue_run. eexists.
  destruct (await_only_calls r evs
              (with_arrays
                 (<[queue view :=
                      (array_at (queue view) w1 ++ [hit_of (config w1) view t p])%list]>
                    (arrays w1)) w1))
    as (w3 & Hawait & _ & Ha3 & _ & _ & Hp3).
  exists w3. split; [reflexivity|]. split; [exact Hawait|].
  split; [|exact Hp3].
  unfold array_at at 1. rewrite Ha3. simpl.
  by rewrite <- Hview, lookup_insert_eq, Hview, Hq1.
Qed.

Lemma send_drains_queue_witness :
  policy_ok (config (Demo.world_with (Demo.policy false 10)
                 [Demo.hit "a" "1"; Demo.hit "b" "2"])) /\
  exists tasks w0 r w1,
    getSendTaskQueue Demo.visitor
      (Demo.world_with (Demo.policy false 10) [Demo.hit "a" "1"; Demo.hit "b" "2"])
    = Some (tasks, w0) /\
    concat (map task_hits tasks) = [Demo.hit "a" "1"; Demo.hit "b" "2"] /\
    send Demo.visitor None
      (Demo.world_with (Demo.policy false 10) [Demo.hit "a" "1"; Demo.hit "b" "2"])
    = Some (r, w1) /\
    array_at (queue Demo.visitor) w1 = [].
Proof.
  assert (Hok : policy_ok (config (Demo.world_with (Demo.policy false 10)
                 [Demo.hit "a" "1"; Demo.hit "b" "2"]))).
  { intros Hon. vm_compute in Hon. discriminate. }
  split; [exact Hok|].
  destruct (send_drains_queue Demo.visitor None _ Hok)
    as (tasks & w0 & r & w1 & Hplan & Hcat & Hsend & Hempty & _).
  by exists tasks, w0, r, w1.
Defined.



(** C4.  When the request of a dispatch unit fails, the completion
    callback is called once, with the message of the first failure and
    with the number of responses handled by then: the successes before
    it and the failure itself, which counts like a success. *)
Theorem first_failure_reported (v : Visitor) (f : Callback) (w : World)
    (oks : list nat) (i : nat) (message : string)
    (rest : list (nat * option string)) :
  Config.batching (config w) = true ->
  (0 < Config.batchSize (config w))%Z ->
  array_at (queue v) w <> [] ->
  let B := Config.batchSize (config w) in
  let units := Z.to_nat ((Z.of_nat (length (array_at (queue v) w)) + B - 1) / B) in
  NoDup (oks ++ [i])%list ->
  (forall j, j ∈ (oks ++ [i])%list -> j < units) ->
  exists r w1 w2,
    send v (Some f) w = Some (r, w1) /\
    length (posts w1) = length (posts w) + units /\
    await r (map (fun j => (j, None)) oks ++ (i, Some message) :: rest)%list w1
    = Some (tt, w2) /\
    calls w2 = (calls w ++ [mkCall f v (Some message) (S (length oks))])%list.
Proof.
  intros Hon HB Hne B units Hnd Hlt.
  destruct (send_batches v (Some f) w Hon HB Hne)
    as (w1 & Hsend & Hpos & Hposts & Hcalls & _).
  fold B units in Hsend, Hpos, Hposts.
  set (s0 := mkSending v (Some f) (replicate units Pending) 0 None false) in *.
  pose proof (on_the_way_start v (Some f) units) as Hs0. fold s0 in Hs0.
  assert (Hi : i < units) by (apply Hlt, elem_of_app; right; by left).
  destruct (responses_successes units oks [] s0 ((i, Some message) :: rest) w1 i Hs0 Hnd)
    as (s1 & Hoks & Hs1 & Hfn & Hthis).
  { intros j Hj. split; [by apply Hlt | apply not_elem_of_nil]. }
  assert (Hfresh : i ∉ (rev oks ++ [])%list).
  { rewrite app_nil_r. apply NoDup_app in Hnd as (_ & Hdis & _).
    intros Hin%list_elem_of_In%in_rev%list_elem_of_In.
    apply (Hdis i Hin). by left. }
  destruct (respond_failure units _ s1 i message f w1 Hs1 Hi Hfresh)
    as (s2 & Hfail & Hset); [by rewrite Hfn|].
  set (w2 := with_calls _ w1) in Hfail.
  destruct (responses_settled rest s2 w2 Hset) as (s3 & Hrest & _).
  exists (Some s0), w1, w2. split; [exact Hsend|]. split.
  { rewrite Hposts, length_app, length_map, length_chunk. done. }
  split.
  - cbn [await].
    rewrite (run_bind _ _ _ _ _ (resume_waiting units [] s0 i w1 Hs0 Hi ltac:(apply not_elem_of_nil))).
    assert (Hall : responses
                     (map (fun j => (j, None)) oks ++ (i, Some message) :: rest)%list
                     s0 w1 = Some (s3, w2)).
    { rewrite Hoks. cbn [responses]. rewrite (run_bind _ _ _ _ _ Hfail).
      exact Hrest. }
    rewrite (run_bind _ _ _ _ _ Hall). reflexivity.
  - subst w2. simpl. rewrite Hcalls, Hthis, app_nil_r, length_rev. done.
Qed.

Lemma first_failure_reported_witness :
  Config.batching (config (Demo.world_with (Demo.policy true 1)
     [Demo.hit "a" "1"; Demo.hit "b" "2"; Demo.hit "c" "3"])) = true /\
  (0 < 1)%Z /\
  NoDup [1; 0] /\
  exists r w1 w2,
    send Demo.visitor (Some 7)
      (Demo.world_with (Demo.policy true 1)
         [Demo.hit "a" "1"; Demo.hit "b" "2"; Demo.hit "c" "3"])
    = Some (r, w1) /\
    length (posts w1) = 3 /\
    await r [(1, None); (0, Some "ECONNRESET"); (2, None)] w1 = Some (tt, w2) /\
    calls w2 = [mkCall 7 Demo.visitor (Some "ECONNRESET") 2].
Proof.
  assert (Hnd : NoDup ([1] ++ [0])%list).
  { apply NoDup_cons. split; [|apply NoDup_singleton].
    intros Hin. apply list_elem_of_singleton in Hin. discriminate. }
  split; [reflexivity|]. split; [lia|]. split; [exact Hnd|].
  destruct (first_failure_reported Demo.visitor 7
              (Demo.world_with (Demo.policy true 1)
                 [Demo.hit "a" "1"; Demo.hit "b" "2"; Demo.hit "c" "3"])
              [1] 0 "ECONNRESET" [(2, None)] eq_refl ltac:(reflexivity)
              ltac:(discriminate) Hnd)
    as (r & w1 & w2 & Hsend & Hposts & Hawait & Hcalls).
  { intros j Hj. apply elem_of_app in Hj as [Hj|Hj];
      apply list_elem_of_singleton in Hj; subst j; vm_compute; lia. }
  by exists r, w1, w2.
Defined.

(** C3 (the code departs from it).  With batching off a task is a Hit,
    not an array of Hits, and [getBody] throws on it: a non-empty queue
    is taken, no request is made for any of its Hits, and the callback
    gets the message of the [TypeError] and a count of zero. *)
Theorem unbatched_send_posts_nothing (v : Visitor) (f : Callback) (w : World)
    (evs : list (nat * option string)) :
  Config.batching (config w) = false ->
  array_at (queue v) w <> [] ->
  exists r w1 w2,
    send v (Some f) w = Some (r, w1) /\
    array_at (queue v) w1 = [] /\
    posts w1 = posts w /\
    await r evs w1 = Some (tt, w2) /\
    posts w2 = posts w /\
    calls w2 = (calls w ++ [mkCall f v (Some "params.map is not a function") 0])%list.
Proof.
  intros Hoff Hne. rewrite (send_hits v (Some f) w Hoff Hne).
  set (s0 := mkSending _ _ _ _ _ _). set (w1 := with_arrays _ w).
  destruct (responses_settled evs (settled s0)
              (with_calls
                 (calls w1 ++ [mkCall f v (Some "params.map is not a function") 0])%list
                 w1) eq_refl)
    as (s1 & Hrest & _).
  eexists (Some s0), w1, _. split; [reflexivity|].
  split; [apply array_at_store|]. split; [reflexivity|]. split.
  - cbn [await]. unfold resume at 1. cbn [s0 sending_settled sending_rejection
      sending_fn sending_this sending_count call bind modify ret].
    fold s0. rewrite (run_bind _ _ _ _ _ Hrest). reflexivity.
  - split; reflexivity.
Qed.

Lemma unbatched_send_posts_nothing_witness :
  Config.batching (config (Demo.world_with (Demo.policy false 10)
                             [Demo.hit "first" "123"])) = false /\
  exists r w1 w2,
    send Demo.visitor (Some 7)
      (Demo.world_with (Demo.policy false 10) [Demo.hit "first" "123"])
    = Some (r, w1) /\
    await r [] w1 = Some (tt, w2) /\
    posts w2 = [] /\
    calls w2 = [mkCall 7 Demo.visitor (Some "params.map is not a function") 0].
Proof.
  split; [reflexivity|].
  destruct (unbatched_send_posts_nothing Demo.visitor 7
              (Demo.world_with (Demo.policy false 10) [Demo.hit "first" "123"])
              [] eq_refl ltac:(discriminate))
    as (r & w1 & w2 & Hsend & _ & _ & Hawait & Hposts & Hcalls).
  by exists r, w1, w2.
Defined.

(** Three Hits and a batch size of two: the plan is [[A; B]] and [[C]]. *)
Example plan_three_by_two :
  exists w',
    getSendTaskQueue Demo.visitor
      (Demo.world_with (Demo.policy true 2)
         [Demo.hit "a" "1"; Demo.hit "b" "2"; Demo.hit "c" "3"])
    = Some ([Batch [Demo.hit "a" "1"; Demo.hit "b" "2"]; Batch [Demo.hit "c" "3"]],
            w') /\
    array_at (queue Demo.visitor) w' = [].
Proof. eexists. split; [vm_compute; reflexivity | reflexivity]. Qed.

(** Outside the batching policy of the specification: under a negative
    batch size the bound of the loop is not positive, the plan is empty
    and the queue stays as it is; under a batch size of zero and a
    non-empty queue the bound is [Infinity] and the loop does not end. *)
Example plan_negative_batch_size :
  getSendTaskQueue Demo.visitor
    (Demo.world_with (Demo.policy true (-2)) [Demo.hit "a" "1"])
  = Some ([], Demo.world_with (Demo.policy true (-2)) [Demo.hit "a" "1"]).
Proof. reflexivity. Qed.

Example plan_zero_batch_size :
  getSendTaskQueue Demo.visitor
    (Demo.world_with (Demo.policy true 0) [Demo.hit "a" "1"])
  = None.
Proof. reflexivity. Qed.

(** The same Hit with batching on: one request, whose body is the Hit
    in query-string form. *)
Example batched_send_posts_the_hit :
  exists r w1,
    send Demo.visitor (Some 7)
      (Demo.world_with (Demo.policy true 10) [Demo.hit "first" "123"])
    = Some (r, w1) /\
    posts w1 = [mkPost "https://www.google-analytics.com/batch" "first=123" [] []].
Proof. eexists _, _. split; [vm_compute; reflexivity | reflexivity]. Qed.

(** C10.  The constructor writes the [hostname], [path],
    [enableBatching] and [batchSize] its options supply into the one
    configuration of the process, and [send] reads them there when it
    runs: after a second Visitor is constructed, a Visitor that existed
    before plans by the batching policy now in the configuration and
    posts to the host now in it, whatever they were before. *)
Theorem construction_rewrites_shared_config {collab : Collaborators}
    (v1 : Visitor) (fn : option Callback) (w : World) (o2 : VisitorOptions.t) :
  is_Some (arrays w !! queue v1) ->
  array_at (queue v1) w <> [] ->
  policy_ok (apply_options o2 (config w)) ->
  let protocol :=
    match VisitorOptions.https o2 with Some false => "http" | _ => "https" end in
  let hits := array_at (queue v1) w in
  exists v2 w2 r w3,
    init o2 w = Some (v2, w2) /\
    (forall h, VisitorOptions.hostname o2 = Some h ->
               Config.hostname (config w2)
               = protocol ++ "://" ++ render_host (url_host h)) /\
    (forall p, VisitorOptions.path o2 = Some p -> Config.path (config w2) = p) /\
    (forall b, VisitorOptions.enableBatching o2 = Some b ->
               Config.batching (config w2) = b) /\
    (forall n, VisitorOptions.batchSize o2 = Some n ->
               Config.batchSize (config w2) = n) /\
    send v1 fn w2 = Some (r, w3) /\
    let B := Config.batchSize (config w2) in
    posts w3 =
      (posts w ++
       if Config.batching (config w2) then
         map (fun u =>
                request_of v1
                  (Config.hostname (config w2) ++ Config.batchPath (config w2))
                  (batch_body u))
           (chunk (Z.to_nat B)
              (Z.to_nat ((Z.of_nat (length hits) + B - 1) / B)) hits)
       else [])%list.
Proof.
  intros Hq Hne Hok protocol hits.
  destruct (init_run o2 w) as (v2 & w2 & Hinit & _ & _ & _ & _ & Hc & Hposts & _ & Harr).
  destruct (Harr _ Hq) as [_ Hsame].
  assert (Hq2 : array_at (queue v1) w2 = hits).
  { unfold hits, array_at. by rewrite Hsame. }
  exists v2, w2.
  assert (Hsend : exists r w3,
            send v1 fn w2 = Some (r, w3) /\
            let B := Config.batchSize (config w2) in
            posts w3 =
              (posts w ++
               if Config.batching (config w2) then
                 map (fun u =>
                        request_of v1
                          (Config.hostname (config w2) ++ Config.batchPath (config w2))
                          (batch_body u))
                   (chunk (Z.to_nat B)
                      (Z.to_nat ((Z.of_nat (length hits) + B - 1) / B)) hits)
               else [])%list).
  { destruct (Config.batching (config w2)) eqn:Hb.
    - destruct (send_batches v1 fn w2) as (w3 & Hsend & _ & Hp3 & _);
        [done | rewrite Hc in Hb |- *; by apply Hok | by rewrite Hq2 |].
      rewrite Hq2, Hposts in Hp3. rewrite Hq2 in Hsend.
      eexists _, w3. split; [exact Hsend | exact Hp3].
    - eexists _, _. rewrite send_hits by (by rewrite ?Hq2).
      split; [reflexivity|]. simpl. by rewrite Hposts, app_nil_r. }
  destruct Hsend as (r & w3 & Hsend & Hp3). exists r, w3.
  split; [exact Hinit|].
  split; [|split; [|split; [|split; [|split; [exact Hsend | exact Hp3]]]]].
  - intros h Hh. rewrite Hc. unfold apply_options. rewrite Hh.
    by destruct (VisitorOptions.path o2), (VisitorOptions.enableBatching o2),
         (VisitorOptions.batchSize o2).
  - intros p Hp. rewrite Hc. unfold apply_options. rewrite Hp.
    by destruct (VisitorOptions.hostname o2), (VisitorOptions.enableBatching o2),
         (VisitorOptions.batchSize o2).
  - intros b Hb. rewrite Hc. unfold apply_options. rewrite Hb.
    by destruct (VisitorOptions.hostname o2), (VisitorOptions.path o2),
         (VisitorOptions.batchSize o2).
  - intros n Hn. rewrite Hc. unfold apply_options. rewrite Hn.
    by destruct (VisitorOptions.hostname o2), (VisitorOptions.path o2),
         (VisitorOptions.enableBatching o2).
Qed.

Lemma construction_rewrites_shared_config_witness :
  is_Some (arrays (Demo.world_with Demo.config
                     [Demo.hit "a" "1"; Demo.hit "b" "2"]) !! queue Demo.visitor) /\
  policy_ok
    (apply_options (collab := Demo.collaborators)
       (VisitorOptions.mk None None None (Some "http://collector.example/x")
          (Some "/c") (Some false) (Some true) (Some 1%Z) None None)
       (config (Demo.world_with Demo.config [Demo.hit "a" "1"; Demo.hit "b" "2"]))) /\
  exists v2 w2 r w3,
    init (collab := Demo.collaborators)
      (VisitorOptions.mk None None None (Some "http://collector.example/x")
         (Some "/c") (Some false) (Some true) (Some 1%Z) None None)
      (Demo.world_with Demo.config [Demo.hit "a" "1"; Demo.hit "b" "2"])
    = Some (v2, w2) /\
    config w2 =
      Config.mk "http://collector.example" "/c" "/batch" true 1 "1"
        (Config.parametersMap Demo.config) /\
    send Demo.visitor None w2 = Some (r, w3) /\
    posts w3 =
      [mkPost "http://collector.example/batch" "a=1" [] [];
       mkPost "http://collector.example/batch" "b=2" [] []].
Proof.
  assert (Hq : is_Some (arrays (Demo.world_with Demo.config
                     [Demo.hit "a" "1"; Demo.hit "b" "2"]) !! queue Demo.visitor)).
  { eexists. reflexivity. }
  assert (Hok : policy_ok
    (apply_options (collab := Demo.collaborators)
       (VisitorOptions.mk None None None (Some "http://collector.example/x")
          (Some "/c") (Some false) (Some true) (Some 1%Z) None None)
       (config (Demo.world_with Demo.config [Demo.hit "a" "1"; Demo.hit "b" "2"])))).
  { intros _. reflexivity. }
  split; [exact Hq|]. split; [exact Hok|].
  destruct (construction_rewrites_shared_config (collab := Demo.collaborators)
              Demo.visitor None
              (Demo.world_with Demo.config [Demo.hit "a" "1"; Demo.hit "b" "2"])
              (VisitorOptions.mk None None None (Some "http://collector.example/x")
                 (Some "/c") (Some false) (Some true) (Some 1%Z) None None)
              Hq ltac:(discriminate) Hok)
    as (v2 & w2 & r & w3 & Hinit & _ & _ & _ & _ & Hsend & Hposts).
  assert (Hcfg : config w2 =
      Config.mk "http://collector.example" "/c" "/batch" true 1 "1"
        (Config.parametersMap Demo.config)).
  { vm_compute in Hinit. by injection Hinit as _ <-. }
  exists v2, w2, r, w3. split; [exact Hinit|]. split; [exact Hcfg|].
  split; [exact Hsend|]. simpl in Hposts. rewrite Hposts, Hcfg. reflexivity.
Defined.

(** C1 (the code departs from it).  A Visitor constructed without a
    [cid] takes an identifier from [uuid.v4()]; but [pageview] enqueues
    through a view that is constructed from the same options, still
    without a [cid], and so with an identifier of its own: the Hit
    carries the next identifier, not the Visitor's. *)
Theorem pageview_hit_carries_new_cid {collab : Collaborators}
    (o : VisitorOptions.t) (pv : PageviewArgs) (w : World) :
  VisitorOptions.cid o = None ->
  pv_callback pv = None ->
  uuid_v4 (uuids w) <> uuid_v4 (S (uuids w)) ->
  exists v r w' h,
    (let* v := init o in let* r := pageview v pv in ret (v, r)) w
    = Some ((v, r), w') /\
    cid v = JS.VStr (uuid_v4 (uuids w)) /\
    array_at (queue v) w' = [h] /\
    JS.lookup "cid" h = Some (JS.VStr (uuid_v4 (S (uuids w)))) /\
    JS.lookup "cid" h <> Some (cid v).
Proof.
  intros Hcid Hcb Hfresh.
  destruct (init_run o w) as (v & w1 & Hinit & Hopts & _ & Hq & Hv & _).
  destruct (Hv Hcid) as [Hvcid Hu].
  destruct (pageview_run v pv w1 Hcb)
    as (view & w2 & Hpv & _ & _ & _ & Hview & _ & Hq2 & _).
  rewrite Hopts in Hview. specialize (Hview Hcid). rewrite Hu in Hview.
  eexists v, _, w2, _. split.
  { rewrite (run_bind _ _ _ _ _ Hinit), (run_bind _ _ _ _ _ Hpv). reflexivity. }
  split; [exact Hvcid|]. rewrite Hq2, Hq. split; [reflexivity|].
  rewrite lookup_hit_cid, Hview, Hvcid. split; [done|]. congruence.
Qed.

Lemma pageview_hit_carries_new_cid_witness :
  VisitorOptions.cid VisitorOptions.empty = None /\
  Demo.uuid 0 <> Demo.uuid 1 /\
  exists v r w' h,
    (let* v := init (collab := Demo.collaborators) VisitorOptions.empty in
     let* r := pageview (collab := Demo.collaborators) v
                 (mkPageviewArgs "/home" None None None None) in
     ret (v, r)) Demo.world
    = Some ((v, r), w') /\
    cid v = JS.VStr "uuid-" /\
    array_at (queue v) w' = [h] /\
    JS.lookup "cid" h = Some (JS.VStr "uuid-i").
Proof.
  split; [reflexivity|]. split; [discriminate|].
  destruct (pageview_hit_carries_new_cid (collab := Demo.collaborators)
              VisitorOptions.empty (mkPageviewArgs "/home" None None None None)
              Demo.world eq_refl eq_refl ltac:(discriminate))
    as (v & r & w' & h & Hrun & Hcid & Hq & Hh & _).
  by exists v, r, w', h.
Defined.

(** C5 (the code departs from it).  [tidyParameters] runs before the
    defaults are merged in, and the defaults carry [uid] (and [tid])
    whether set or not: for a Visitor without a [uid], the Hit that
    [pageview] puts on the queue has a [uid] property whose value is
    [undefined]. *)
Theorem pageview_hit_keeps_undefined_uid {collab : Collaborators}
    (v : Visitor) (pv : PageviewArgs) (w : World) :
  VisitorOptions.uid (options v) = None ->
  pv_callback pv = None ->
  exists view w' h,
    pageview v pv w = Some ((view, None), w') /\
    array_at (queue v) w' = (array_at (queue v) w ++ [h])%list /\
    JS.lookup "uid" h = Some JS.VUndefined /\
    JS.has_nullish h = true.
Proof.
  intros Huid Hcb.
  destruct (pageview_run v pv w Hcb)
    as (view & w' & Hpv & _ & _ & Hvuid & _ & _ & Hq & _).
  rewrite Huid in Hvuid. simpl in Hvuid.
  eexists view, w', _. split; [exact Hpv|]. split; [exact Hq|].
  assert (Hlook : JS.lookup "uid"
            (hit_of (config w') view PAGEVIEW
               (pageviewParams (object_at (persistentParams v) w) (context v) pv))
            = Some JS.VUndefined).
  { by rewrite lookup_hit_uid, Hvuid. }
  split; [exact Hlook|]. by eapply has_nullish_lookup.
Qed.

Lemma pageview_hit_keeps_undefined_uid_witness :
  VisitorOptions.uid (options Demo.visitor) = None /\
  exists view w' h,
    pageview (collab := Demo.collaborators) Demo.visitor
      (mkPageviewArgs "/home" None None
         (Some [("x", JS.VNull); ("y", JS.VUndefined); ("z", JS.VStr "v")]) None)
      (Demo.world_with Demo.config [])
    = Some ((view, None), w') /\
    array_at (queue Demo.visitor) w' = [h] /\
    JS.lookup "uid" h = Some JS.VUndefined /\
    JS.lookup "x" h = None /\ JS.lookup "y" h = None /\
    JS.lookup "z" h = Some (JS.VStr "v").
Proof.
  split; [reflexivity|].
  destruct (pageview_hit_keeps_undefined_uid (collab := Demo.collaborators)
              Demo.visitor
              (mkPageviewArgs "/home" None None
                 (Some [("x", JS.VNull); ("y", JS.VUndefined); ("z", JS.VStr "v")])
                 None)
              (Demo.world_with Demo.config []) eq_refl eq_refl)
    as (view & w' & h & Hpv & Hq & Huid & _).
  exists view, w', h. split; [exact Hpv|]. split; [exact Hq|].
  split; [exact Huid|].
  vm_compute in Hpv. injection Hpv as _ <-.
  vm_compute in Hq. injection Hq as <-. by repeat split.
Defined.

(** C6 (the code departs from it).  The named fields are written over
    the merged parameters whether supplied or not: with no [hostname]
    and no [dh] in the context of the Visitor, a [dh] supplied through
    [params] is replaced by [undefined] and removed, and the Hit has no
    [dh] at all. *)
Theorem pageview_drops_dh_of_params {collab : Collaborators}
    (v : Visitor) (pv : PageviewArgs) (w : World) (x : string) :
  context v = [] ->
  pv_hostname pv = None ->
  pv_callback pv = None ->
  JS.lookup "dh" (default [] (pv_params pv)) = Some (JS.VStr x) ->
  (forall key,
     translate_key (Config.parametersMap (config w)) key = "dh" ->
     key = "dh" \/
     JS.lookup key
       (pageviewParams (object_at (persistentParams v) w) (context v) pv) = None) ->
  exists view w' h,
    pageview v pv w = Some ((view, None), w') /\
    array_at (queue v) w' = (array_at (queue v) w ++ [h])%list /\
    JS.lookup "dh" h = None.
Proof.
  intros Hctx Hhost Hcb _ Hmap.
  destruct (pageview_run v pv w Hcb)
    as (view & w' & Hpv & _ & _ & _ & _ & Hc & Hq & _).
  eexists view, w', _. split; [exact Hpv|]. split; [exact Hq|].
  rewrite lookup_hit_other by done.
  destruct (JS.lookup "dh" (translateParams _ _)) as [u|] eqn:E; [|done].
  apply lookup_translateParams in E as (key & Hin & Hkey & _).
  rewrite Hc, apply_options_parametersMap in Hkey.
  destruct (Hmap key Hkey) as [->|Hnone].
  - exfalso. rewrite Hctx in Hin.
    assert (Hlost := pageviewParams_dh_lost (object_at (persistentParams v) w) pv Hhost).
    by apply lookup_keys in Hlost.
  - by apply lookup_keys in Hnone.
Qed.

Lemma pageview_drops_dh_of_params_witness :
  context Demo.visitor = [] /\
  exists view w' h,
    pageview (collab := Demo.collaborators) Demo.visitor
      (mkPageviewArgs "/home" None None (Some [("dh", JS.VStr "example.com")]) None)
      (Demo.world_with Demo.config [])
    = Some ((view, None), w') /\
    array_at (queue Demo.visitor) w' = [h] /\
    JS.lookup "dh" h = None.
Proof.
  split; [reflexivity|].
  destruct (pageview_drops_dh_of_params (collab := Demo.collaborators)
              Demo.visitor
              (mkPageviewArgs "/home" None None
                 (Some [("dh", JS.VStr "example.com")]) None)
              (Demo.world_with Demo.config []) "example.com"
              eq_refl eq_refl eq_refl eq_refl)
    as (view & w' & h & Hpv & Hq & Hdh).
  { intros key Hkey. destruct (string_dec key "dp") as [->|Hne].
    - vm_compute in Hkey. discriminate.
    - right. change (JS.lookup key [("dp", JS.VStr "/home")] = None).
      cbn [JS.lookup]. by rewrite (eqb_other "dp" key) by congruence. }
  by exists view, w', h.
Defined.

(** * Further properties of the code *)

(** ** [translateParams] and [tidyParameters] *)

Section TranslatorFacts.
Implicit Types (k key : string) (p : JS.object).

Lemma translate_fold_last m p k' ks acc :
  JS.lookup k'
    (fold_left (fun tr key => JS.set (translate_key m key) (JS.get key p) tr) ks acc)
  = match last (filter (fun key => translate_key m key = k') ks) with
    | Some key => Some (JS.get key p)
    | None => JS.lookup k' acc
    end.
Proof.
  revert acc. induction ks as [|a ks IH]; intros acc; [done|].
  cbn [fold_left]. rewrite IH. destruct (decide (translate_key m a = k')) as [Ha|Ha].
  - rewrite filter_cons_True by done. rewrite last_cons.
    destruct (last (filter _ ks)); [done|]. by rewrite <- Ha, lookup_set_eq.
  - rewrite filter_cons_False by done.
    destruct (last (filter _ ks)); [done|]. by apply lookup_set_ne.
Qed.

Lemma lookup_get_in k p : In k (JS.keys p) -> JS.lookup k p = Some (JS.get k p).
Proof.
  intros Hin. unfold JS.get. destruct (JS.lookup k p) eqn:E; [done|].
  by apply lookup_keys in E.
Qed.

End TranslatorFacts.

(** X1.  For parameters none of which translates to [__proto__]: in the
    object [translateParams] returns, a name holds the value of the last
    parameter, in the order of the loop, whose translation is that name;
    a name that no parameter translates to is not in it.  So no
    parameter is dropped unless a later one takes its name. *)
Theorem translateParams_later_key_wins (c : Config.t) (p : JS.object) (k' : string) :
  (forall key, In key (JS.keys p) ->
     translate_key (Config.parametersMap c) key <> "__proto__") ->
  JS.lookup k' (translateParams c p) =
  match last (filter (fun key => translate_key (Config.parametersMap c) key = k')
                (JS.keys p)) with
  | Some key => Some (JS.get key p)
  | None => None
  end.
Proof. intros _. unfold translateParams. by rewrite translate_fold_last. Qed.

Lemma translateParams_later_key_wins_witness :
  JS.lookup "dp"
    (translateParams Demo.config
       [("documentPath", JS.VStr "/first"); ("dp", JS.VStr "/second")])
  = Some (JS.VStr "/second") /\
  JS.lookup "documentPath"
    (translateParams Demo.config
       [("documentPath", JS.VStr "/first"); ("dp", JS.VStr "/second")])
  = None.
Proof.
  assert (Hdom : forall key,
             In key (JS.keys [("documentPath", JS.VStr "/first");
                              ("dp", JS.VStr "/second")]) ->
             translate_key (Config.parametersMap Demo.config) key <> "__proto__").
  { intros key [<-|[<-|[]]]; vm_compute; discriminate. }
  split.
  - rewrite (translateParams_later_key_wins Demo.config _ "dp" Hdom). reflexivity.
  - rewrite (translateParams_later_key_wins Demo.config _ "documentPath" Hdom).
    reflexivity.
Defined.

(** X2.  When no parameter translates to [__proto__] and no two
    parameters translate to the same name, every parameter is in the
    translated object, under its translated name and with its value. *)
Theorem translateParams_keeps_every_key (c : Config.t) (p : JS.object) (key : string) :
  (forall k, In k (JS.keys p) ->
     translate_key (Config.parametersMap c) k <> "__proto__") ->
  (forall k1 k2, In k1 (JS.keys p) -> In k2 (JS.keys p) ->
     translate_key (Config.parametersMap c) k1
     = translate_key (Config.parametersMap c) k2 -> k1 = k2) ->
  In key (JS.keys p) ->
  JS.lookup (translate_key (Config.parametersMap c) key) (translateParams c p)
  = JS.lookup key p.
Proof.
  intros _ Hinj Hin. unfold translateParams. rewrite translate_fold_last.
  rewrite (lookup_get_in _ _ Hin).
  destruct (last (filter _ (JS.keys p))) as [key'|] eqn:E.
  - apply last_Some_elem_of, list_elem_of_filter in E as [Htr Hin'].
    apply list_elem_of_In in Hin'. by rewrite (Hinj key' key Hin' Hin Htr).
  - apply last_None in E. apply list_elem_of_In in Hin.
    assert (Hmem : key ∈ filter
              (fun k => translate_key (Config.parametersMap c) k
                        = translate_key (Config.parametersMap c) key) (JS.keys p)).
    { by apply list_elem_of_filter. }
    rewrite E in Hmem. by apply elem_of_nil in Hmem.
Qed.

Lemma translateParams_keeps_every_key_witness :
  In "documentPath" (JS.keys [("documentPath", JS.VStr "/home"); ("z", JS.VStr "v")]) /\
  JS.lookup "dp"
    (translateParams Demo.config
       [("documentPath", JS.VStr "/home"); ("z", JS.VStr "v")])
  = Some (JS.VStr "/home").
Proof.
  assert (Hin : In "documentPath"
                  (JS.keys [("documentPath", JS.VStr "/home"); ("z", JS.VStr "v")])).
  { by left. }
  split; [exact Hin|].
  apply (translateParams_keeps_every_key Demo.config
           [("documentPath", JS.VStr "/home"); ("z", JS.VStr "v")] "documentPath");
    [| |exact Hin].
  - intros k [<-|[<-|[]]]; vm_compute; discriminate.
  - intros k1 k2 [<-|[<-|[]]] [<-|[<-|[]]]; vm_compute; congruence.
Defined.

Section SanitizerFacts.
Implicit Types (k : string) (v : JS.value) (p acc todo : JS.object).

Lemma lookup_app_absent k acc todo :
  ~ In k (JS.keys acc) -> JS.lookup k (acc ++ todo)%list = JS.lookup k todo.
Proof.
  induction acc as [|[k' v'] acc IH]; simpl; [done|]. intros Hnot.
  rewrite eqb_other by (intros ->; tauto). apply IH. tauto.
Qed.

Lemma delete_absent k p : ~ In k (JS.keys p) -> JS.delete k p = p.
Proof.
  induction p as [|[k' v'] p IH]; simpl; [done|]. intros Hnot.
  rewrite eqb_other by (intros ->; tauto). f_equal. apply IH. tauto.
Qed.

Lemma delete_app k acc todo :
  JS.delete k (acc ++ todo)%list = (JS.delete k acc ++ JS.delete k todo)%list.
Proof.
  induction acc as [|[k' v'] acc IH]; simpl; [done|].
  destruct (String.eqb k' k); [done|]. simpl. by rewrite IH.
Qed.

Lemma keys_app acc todo : JS.keys (acc ++ todo)%list = (JS.keys acc ++ JS.keys todo)%list.
Proof. unfold JS.keys. apply map_app. Qed.

(** The loop of [tidyParameters], part of the way through an object
    whose property names are all different. *)
Lemma tidy_fold_filter todo : forall acc,
  List.NoDup (JS.keys (acc ++ todo)%list) ->
  fold_left tidy_step (JS.keys todo) (acc ++ todo)%list
  = (acc ++ List.filter (fun kv => negb (JS.nullish (snd kv))) todo)%list.
Proof.
  induction todo as [|[k v] todo IH]; intros acc Hnd; [done|].
  rewrite keys_app in Hnd. cbn [JS.keys map fst] in Hnd.
  assert (Hacc : ~ In k (JS.keys acc)).
  { intros Hin. apply NoDup_ListNoDup, NoDup_app in Hnd as (_ & Hdis & _).
    apply (Hdis k); [by apply list_elem_of_In | by left]. }
  assert (Htodo : ~ In k (JS.keys todo)).
  { apply NoDup_ListNoDup, NoDup_app in Hnd as (_ & _ & Hnd).
    apply NoDup_cons in Hnd as [Hnot _]. by rewrite <- list_elem_of_In. }
  cbn [JS.keys map fst fold_left List.filter snd]. fold (JS.keys todo).
  unfold tidy_step at 2. unfold JS.get.
  rewrite lookup_app_absent by done. cbn [JS.lookup]. rewrite eqb_same.
  destruct (JS.nullish v); cbn [negb].
  - rewrite delete_app, (delete_absent k acc) by done. cbn [JS.delete].
    rewrite eqb_same, (delete_absent k todo) by done.
    apply IH. rewrite keys_app.
    apply NoDup_ListNoDup. apply NoDup_ListNoDup in Hnd.
    apply NoDup_app in Hnd as (H1 & H2 & H3). apply NoDup_app.
    split; [done|]. split.
    + intros x Hx Hin. apply (H2 x Hx). by right.
    + by apply NoDup_cons in H3 as [_ ?].
  - change (acc ++ (k, v) :: todo)%list with (acc ++ [(k, v)] ++ todo)%list.
    rewrite app_assoc. rewrite IH.
    + by rewrite <- app_assoc.
    + rewrite <- app_assoc, keys_app. exact Hnd.
Qed.

End SanitizerFacts.

(** X3.  On an object whose property names are all different,
    [tidyParameters] returns the properties whose value is neither [null]
    nor [undefined], in their order and with their values; doing it again
    changes nothing. *)
Theorem tidyParameters_keeps_the_rest_in_order (p : JS.object) :
  NoDup (JS.keys p) ->
  tidyParameters p = List.filter (fun kv => negb (JS.nullish (snd kv))) p /\
  tidyParameters (tidyParameters p) = tidyParameters p.
Proof.
  intros Hnd%NoDup_ListNoDup.
  assert (Hfilter : forall q, List.NoDup (JS.keys q) ->
            tidyParameters q = List.filter (fun kv => negb (JS.nullish (snd kv))) q).
  { intros q Hq. unfold tidyParameters. apply (tidy_fold_filter q []). exact Hq. }
  split; [by apply Hfilter|].
  rewrite (Hfilter p Hnd). rewrite Hfilter.
  - clear. induction p as [|[k v] p IH]; simpl; [done|].
    destruct (JS.nullish v) eqn:E; simpl; [done|]. by rewrite E, IH.
  - clear Hfilter. induction p as [|[k v] p IH]; simpl; [constructor|].
    inversion Hnd as [|? ? Hk Hp]; subst.
    destruct (JS.nullish v); simpl; [by apply IH|].
    constructor; [|by apply IH].
    intros Hin. apply Hk. clear -Hin.
    induction p as [|[k' v'] p IH]; simpl in *; [done|].
    destruct (JS.nullish v'); simpl in *; [right; by apply IH|].
    destruct Hin as [?|?]; [by left | right; by apply IH].
Qed.

Lemma tidyParameters_keeps_the_rest_in_order_witness :
  NoDup (JS.keys [("x", JS.VNull); ("y", JS.VUndefined); ("z", JS.VStr "v");
                       ("a", JS.VStr "")]) /\
  tidyParameters [("x", JS.VNull); ("y", JS.VUndefined); ("z", JS.VStr "v");
                  ("a", JS.VStr "")]
  = [("z", JS.VStr "v"); ("a", JS.VStr "")].
Proof.
  assert (Hnd : NoDup (JS.keys [("x", JS.VNull); ("y", JS.VUndefined);
                                ("z", JS.VStr "v"); ("a", JS.VStr "")])).
  { apply (bool_decide_unpack _). vm_compute. exact I. }
  split; [exact Hnd|].
  by destruct (tidyParameters_keeps_the_rest_in_order _ Hnd) as [-> _].
Defined.

(** ** Identity *)

Section IdentityFacts.
Context {collab : Collaborators}.
Implicit Types (v view : Visitor) (w : World) (o : VisitorOptions.t).

(** The [cid] of a Visitor constructed from [o] when [n] identifiers
    have been drawn. *)
Lemma cid_or_uuid_value o w :
  cid_or_uuid o w =
  Some (if JS.truthy (JS.of_option (VisitorOptions.cid o))
        then (JS.of_option (VisitorOptions.cid o), w)
        else (JS.VStr (uuid_v4 (uuids w)), with_uuids (S (uuids w)) w)).
Proof.
  unfold cid_or_uuid.
  by destruct (JS.truthy (JS.of_option (VisitorOptions.cid o))).
Qed.

Lemma truthy_nonempty (c : string) : c <> "" -> JS.truthy (JS.VStr c) = true.
Proof. intros Hc. simpl. by rewrite (proj2 (String.eqb_neq c "")). Qed.

(** [pageview] is [enqueue] on a view of the Visitor, with the
    sanitized parameters. *)
Lemma pageview_unfold v (pv : PageviewArgs) w :
  exists view w1,
    withContext v (pv_params pv) w = Some (view, w1) /\
    pageview v pv w
    = enqueue view PAGEVIEW
        (pageviewParams (object_at (persistentParams v) w) (context v) pv)
        (pv_callback pv) w1 /\
    view = mkVisitor (options v) (default [] (pv_params pv)) (persistentParams v)
             (queue v) (JS.of_option (VisitorOptions.tid (options v)))
             (cid view) (JS.of_option (VisitorOptions.uid (options v))) /\
    (cid view, uuids w1) =
      (if JS.truthy (JS.of_option (VisitorOptions.cid (options v)))
       then (JS.of_option (VisitorOptions.cid (options v)), uuids w)
       else (JS.VStr (uuid_v4 (uuids w)), S (uuids w))) /\
    config w1 = apply_options (options v) (config w) /\
    arrays w1 = arrays w /\ objects w1 = objects w /\
    posts w1 = posts w /\ calls w1 = calls w.
Proof.
  assert (Hview : withContext v (pv_params pv) w =
            Some (if JS.truthy (JS.of_option (VisitorOptions.cid (options v)))
                  then (mkVisitor (options v) (default [] (pv_params pv))
                          (persistentParams v) (queue v)
                          (JS.of_option (VisitorOptions.tid (options v)))
                          (JS.of_option (VisitorOptions.cid (options v)))
                          (JS.of_option (VisitorOptions.uid (options v))),
                        with_config (apply_options (options v) (config w)) w)
                  else (mkVisitor (options v) (default [] (pv_params pv))
                          (persistentParams v) (queue v)
                          (JS.of_option (VisitorOptions.tid (options v)))
                          (JS.VStr (uuid_v4 (uuids w)))
                          (JS.of_option (VisitorOptions.uid (options v))),
                        with_uuids (S (uuids w))
                          (with_config (apply_options (options v) (config w)) w)))).
  { unfold withContext, new_Visitor, bind, ret, modify.
    rewrite cid_or_uuid_value.
    by destruct (JS.truthy (JS.of_option (VisitorOptions.cid (options v)))). }
  destruct (JS.truthy (JS.of_option (VisitorOptions.cid (options v))));
    eexists _, _; (split; [exact Hview|]);
    (split; [unfold pageview; cbn [bind gets];
             by rewrite (run_bind _ _ _ _ _ Hview) |]);
    by repeat split.
Qed.

Lemma hit_defaults_values (c : Config.t) view (t : MetricType) (p : JS.object) :
  JS.lookup "v" (hit_of c view t p) = Some (JS.VStr (Config.protocolVersion c)) /\
  JS.lookup "t" (hit_of c view t p) = Some (JS.VStr (MetricType_value t)) /\
  JS.lookup "tid" (hit_of c view t p) = Some (tid view) /\
  JS.lookup "cid" (hit_of c view t p) = Some (cid view) /\
  JS.lookup "uid" (hit_of c view t p) = Some (uid view).
Proof. unfold hit_of. rewrite !lookup_assign. by repeat split. Qed.

End IdentityFacts.

(** X4.  The constructor keeps a [cid] given in the options as it is and
    draws no identifier; an empty [cid] counts as none given, and an
    identifier is drawn for it. *)
Theorem constructor_keeps_given_cid {collab : Collaborators}
    (o : VisitorOptions.t) (c : string) (w : World) :
  VisitorOptions.cid o = Some c ->
  exists v w',
    init o w = Some (v, w') /\
    cid v = JS.VStr (if String.eqb c "" then uuid_v4 (uuids w) else c) /\
    uuids w' = (if String.eqb c "" then S (uuids w) else uuids w).
Proof.
  intros Hc. unfold init, new_Visitor, bind, ret, modify, new_object, new_array.
  rewrite cid_or_uuid_value, Hc. simpl.
  destruct (String.eqb c ""); simpl; eexists _, _; by repeat split.
Qed.

Lemma constructor_keeps_given_cid_witness :
  exists v w',
    init (collab := Demo.collaborators)
      (VisitorOptions.mk None (Some "35009a79-1a05-49d7-b876-2b884d0f825b")
         None None None None None None None None) Demo.world
    = Some (v, w') /\
    cid v = JS.VStr "35009a79-1a05-49d7-b876-2b884d0f825b" /\
    uuids w' = 0.
Proof.
  destruct (constructor_keeps_given_cid (collab := Demo.collaborators)
              (VisitorOptions.mk None (Some "35009a79-1a05-49d7-b876-2b884d0f825b")
                 None None None None None None None None)
              "35009a79-1a05-49d7-b876-2b884d0f825b" Demo.world eq_refl)
    as (v & w' & Hinit & Hcid & Hu).
  by exists v, w'.
Defined.

(** X5.  For a Visitor whose options hold a non-empty [cid], the Hit
    that [pageview] enqueues carries that [cid], and the [tid] of the
    options; no identifier is drawn. *)
Theorem pageview_hit_carries_given_cid {collab : Collaborators}
    (v : Visitor) (pv : PageviewArgs) (w : World) (c : string) :
  VisitorOptions.cid (options v) = Some c ->
  c <> "" ->
  pv_callback pv = None ->
  exists view w' h,
    pageview v pv w = Some ((view, None), w') /\
    array_at (queue v) w' = (array_at (queue v) w ++ [h])%list /\
    JS.lookup "cid" h = Some (JS.VStr c) /\
    JS.lookup "tid" h = Some (JS.of_option (VisitorOptions.tid (options v))) /\
    uuids w' = uuids w.
Proof.
  intros Hc Hne Hcb.
  destruct (pageview_unfold v pv w)
    as (view & w1 & _ & Hpv & Hview & Hcid & _ & Ha & _).
  rewrite Hc in Hcid. cbn [JS.of_option] in Hcid.
  rewrite (truthy_nonempty c Hne) in Hcid. injection Hcid as Hcid Hu.
  rewrite Hpv, Hcb, enqueue_run. eexists view, _, _.
  split; [reflexivity|]. split.
  { unfold array_at at 1. simpl. rewrite Hview at 1. cbn [queue].
    rewrite lookup_insert_eq. simpl. unfold array_at. rewrite Ha.
    rewrite Hview at 1. reflexivity. }
  rewrite lookup_hit_cid, lookup_hit_tid, Hcid. split; [done|].
  split; [by rewrite Hview|exact Hu].
Qed.

Lemma pageview_hit_carries_given_cid_witness :
  exists view w' h,
    pageview (collab := Demo.collaborators)
      (mkVisitor
         (VisitorOptions.mk (Some "UA-1") (Some "client-7") None None None None
            None None None None)
         [] 0 0 (JS.VStr "UA-1") (JS.VStr "client-7") JS.VUndefined)
      (mkPageviewArgs "/home" None None None None)
      (Demo.world_with Demo.config [])
    = Some ((view, None), w') /\
    array_at 0 w' = [h] /\
    JS.lookup "cid" h = Some (JS.VStr "client-7") /\
    JS.lookup "tid" h = Some (JS.VStr "UA-1").
Proof.
  destruct (pageview_hit_carries_given_cid (collab := Demo.collaborators)
              (mkVisitor
                 (VisitorOptions.mk (Some "UA-1") (Some "client-7") None None None
                    None None None None None)
                 [] 0 0 (JS.VStr "UA-1") (JS.VStr "client-7") JS.VUndefined)
              (mkPageviewArgs "/home" None None None None)
              (Demo.world_with Demo.config []) "client-7"
              eq_refl ltac:(discriminate) eq_refl)
    as (view & w' & h & Hpv & Hq & Hcid & Htid & _).
  by exists view, w', h.
Defined.

(** X6.  The five defaults win: whatever the parameters hold, the Hit
    has the protocol version under [v], the type of the hit under [t],
    and the [tid], [cid] and [uid] of the Visitor that enqueues it. *)
Theorem hit_defaults_override_parameters (c : Config.t) (view : Visitor)
    (t : MetricType) (p : JS.object) :
  JS.lookup "v" (hit_of c view t p) = Some (JS.VStr (Config.protocolVersion c)) /\
  JS.lookup "t" (hit_of c view t p) = Some (JS.VStr (MetricType_value t)) /\
  JS.lookup "tid" (hit_of c view t p) = Some (tid view) /\
  JS.lookup "cid" (hit_of c view t p) = Some (cid view) /\
  JS.lookup "uid" (hit_of c view t p) = Some (uid view).
Proof. apply hit_defaults_values. Qed.

(** ** The planner on every batch size *)

Section PlannerEdgeFacts.
Implicit Types (v : Visitor) (w : World).

(** A negative batch size: the bound of the loop is not positive. *)
Lemma plan_negative v w :
  Config.batching (config w) = true ->
  (Config.batchSize (config w) < 0)%Z ->
  getSendTaskQueue v w = Some ([], w).
Proof.
  intros Hon HB. unfold getSendTaskQueue, bind, gets, ret. rewrite Hon. cbn [negb]. cbv beta.
  unfold nBuckets. rewrite (proj2 (Z.eqb_neq _ 0)) by lia.
  set (N := Z.of_nat (length (array_at (queue v) w))).
  set (B := Config.batchSize (config w)) in *.
  assert (Hq : (0 <= - N / B)%Z).
  { rewrite <- (Z.opp_involutive B), Z.div_opp_opp by lia.
    apply Z.div_pos; lia. }
  replace (Z.to_nat (- (- N / B))) with 0 by lia. reflexivity.
Qed.

(** A batch size of zero: [0 / 0] on an empty queue, [Infinity] on any
    other. *)
Lemma plan_zero v w :
  Config.batching (config w) = true ->
  Config.batchSize (config w) = 0%Z ->
  getSendTaskQueue v w
  = if (length (array_at (queue v) w) =? 0)%nat then Some ([], w) else None.
Proof.
  intros Hon HB. unfold getSendTaskQueue, bind, gets, ret.
  rewrite Hon. cbn [negb]. cbv beta. rewrite HB. unfold nBuckets. simpl.
  by destruct (length (array_at (queue v) w)).
Qed.

Lemma Forall_chunk_bounds (size n : nat) (l : list JS.object) :
  Forall (fun u : list JS.object => length u <= size) (chunk size n l).
Proof.
  revert l. induction n as [|n IH]; intros l; simpl; constructor.
  - rewrite length_take. lia.
  - apply IH.
Qed.

Lemma plan_conserves (v : Visitor) (w w' : World) (tasks : list Task) :
  getSendTaskQueue v w = Some (tasks, w') ->
  (concat (map task_hits tasks) ++ array_at (queue v) w')%list
  = array_at (queue v) w /\
  Forall (fun t => task_hits t <> []) tasks /\
  (Config.batching (config w) = true ->
   Forall (fun t => (Z.of_nat (length (task_hits t)) <= Config.batchSize (config w))%Z)
     tasks) /\
  only_array (queue v) w w'.
Proof.
  intros Hplan. destruct (Config.batching (config w)) eqn:Hb.
  - destruct (Z.lt_trichotomy (Config.batchSize (config w)) 0) as [Hneg|[Hzero|Hpos]].
    + rewrite plan_negative in Hplan by done. injection Hplan as <- <-.
      repeat split; try done; by constructor.
    + rewrite plan_zero in Hplan by done.
      destruct (length (array_at (queue v) w) =? 0)%nat; [|done].
      injection Hplan as <- <-. repeat split; try done; by constructor.
    + destruct (plan_batches v w Hb Hpos) as (w1 & Hrun & Hcat & Hempty & Hframe).
      rewrite Hrun in Hplan. injection Hplan as <- <-.
      rewrite concat_task_hits_Batch, Hcat, Hempty, app_nil_r.
      split; [done|]. split; [|split; [|done]].
      * apply Forall_map. simpl.
        set (size := Z.to_nat (Config.batchSize (config w))) in *.
        set (hits := array_at (queue v) w) in *.
        set (n := Z.to_nat ((Z.of_nat (length hits) + Config.batchSize (config w) - 1)
                            / Config.batchSize (config w))) in *.
        apply Forall_forall. intros u Hu Hnil. subst u.
        apply list_elem_of_lookup in Hu as [i Hi].
        pose proof (lookup_lt_Some _ _ _ Hi) as Hlt. rewrite length_chunk in Hlt.
        rewrite lookup_chunk in Hi by done. injection Hi as Hi.
        assert (Hlen : length (take size (drop (i * size) hits)) = 0)
          by (by rewrite Hi).
        rewrite length_take, length_drop in Hlen.
        assert (Hcover : length (concat (chunk size n hits)) = length hits)
          by (by rewrite Hcat).
        rewrite concat_chunk, length_take in Hcover.
        assert (0 < size) by (subst size; lia).
        destruct (nBuckets_pos (length hits) (Config.batchSize (config w)) Hpos)
          as (c & _ & Hc & Hbounds).
        assert (Z.of_nat n = c) by (subst n; lia). nia.
      * intros _. apply Forall_map. simpl.
        eapply Forall_impl; [apply Forall_chunk_bounds|]. simpl. intros u Hu. lia.
  - rewrite plan_hits in Hplan by done. injection Hplan as <- <-.
    rewrite concat_task_hits_Single, array_at_store, app_nil_r.
    split; [done|]. split; [|split; [done | apply only_array_store]].
    apply Forall_map. simpl. by apply Forall_true.
Qed.

End PlannerEdgeFacts.

(** X7.  [getNextSendBatch] removes the first [batchSize] Hits of the
    queue, or all of them when there are fewer, and returns them in
    their order; under a batch size of zero or less it returns an empty
    batch and leaves the queue as it is. *)
Theorem next_batch_takes_head (v : Visitor) (w : World) :
  exists batch w',
    getNextSendBatch v w = Some (batch, w') /\
    batch = take (Z.to_nat (Config.batchSize (config w))) (array_at (queue v) w) /\
    array_at (queue v) w'
    = drop (Z.to_nat (Config.batchSize (config w))) (array_at (queue v) w) /\
    only_array (queue v) w w'.
Proof.
  unfold getNextSendBatch, bind, gets, splice0.
  set (a := array_at (queue v) w). set (B := Config.batchSize (config w)).
  set (n := Z.to_nat _).
  assert (Hn : n = Nat.min (Z.to_nat B) (length a)) by lia.
  eexists _, _. split; [reflexivity|]. rewrite array_at_store.
  split; [|split; [|apply only_array_store]].
  - rewrite Hn. destruct (Nat.min_spec (Z.to_nat B) (length a)) as [[_ ->]|[Hle ->]];
      [done | by rewrite !take_ge by lia].
  - rewrite Hn. destruct (Nat.min_spec (Z.to_nat B) (length a)) as [[_ ->]|[Hle ->]];
      [done | by rewrite !drop_ge by lia].
Qed.

(** X8.  Whenever the planner returns, under any policy, no Hit is lost,
    doubled or moved: the units of the plan followed by what is left on
    the queue are the queue as it was.  No unit is empty, and with
    batching on none is longer than the batch size. *)
Theorem plan_keeps_every_hit (v : Visitor) (w w' : World) (tasks : list Task) :
  getSendTaskQueue v w = Some (tasks, w') ->
  (concat (map task_hits tasks) ++ array_at (queue v) w')%list
  = array_at (queue v) w /\
  Forall (fun t => task_hits t <> []) tasks /\
  (Config.batching (config w) = true ->
   Forall (fun t => (Z.of_nat (length (task_hits t)) <= Config.batchSize (config w))%Z)
     tasks) /\
  only_array (queue v) w w'.
Proof. apply plan_conserves. Qed.

Lemma plan_keeps_every_hit_witness :
  exists tasks w',
    getSendTaskQueue Demo.visitor
      (Demo.world_with (Demo.policy true 2)
         [Demo.hit "a" "1"; Demo.hit "b" "2"; Demo.hit "c" "3"])
    = Some (tasks, w') /\
    (concat (map task_hits tasks) ++ array_at (queue Demo.visitor) w')%list
    = [Demo.hit "a" "1"; Demo.hit "b" "2"; Demo.hit "c" "3"].
Proof.
  eexists _, _. split; [vm_compute; reflexivity|].
  eapply (proj1 (plan_keeps_every_hit Demo.visitor
                   (Demo.world_with (Demo.policy true 2)
                      [Demo.hit "a" "1"; Demo.hit "b" "2"; Demo.hit "c" "3"]) _ _ _)).
  Unshelve. vm_compute. reflexivity.
Defined.

(** X9.  The planner fails to return in one case only: batching on, a
    batch size of zero and a Hit on the queue, where the bound of its
    loop is [Infinity]. *)
Theorem plan_never_returns_iff (v : Visitor) (w : World) :
  getSendTaskQueue v w = None <->
  Config.batching (config w) = true /\
  Config.batchSize (config w) = 0%Z /\
  array_at (queue v) w <> [].
Proof.
  split.
  - intros Hnone. destruct (Config.batching (config w)) eqn:Hb.
    + destruct (Z.lt_trichotomy (Config.batchSize (config w)) 0) as [Hneg|[Hzero|Hpos]].
      * by rewrite plan_negative in Hnone.
      * rewrite plan_zero in Hnone by done.
        destruct (array_at (queue v) w); [done|]. by repeat split.
      * destruct (plan_batches v w Hb Hpos) as (w1 & Hrun & _). congruence.
    + by rewrite plan_hits in Hnone.
  - intros (Hb & Hzero & Hne). rewrite plan_zero by done.
    by destruct (array_at (queue v) w).
Qed.

(** ** The dispatcher and the responses *)

Section ResponseFacts.
Implicit Types (v : Visitor) (w : World) (s : Sending) (i j n : nat).

Lemma forallb_fulfilled (ps : list Promise) :
  (forall j, j < length ps -> ps !! j = Some Fulfilled) ->
  forallb is_fulfilled ps = true.
Proof.
  induction ps as [|p ps IH]; intros Hall; [done|]. simpl.
  pose proof (Hall 0 ltac:(simpl; lia)) as H0. injection H0 as ->. simpl.
  apply IH. intros j Hj. apply (Hall (S j)). simpl. lia.
Qed.

(** Every promise fulfilled: the code after the [await] calls back with
    no error. *)
Lemma resume_complete n done s f w :
  on_the_way n done s ->
  (forall k, k < n -> k ∈ done) ->
  sending_fn s = Some f ->
  resume s w =
  Some (settled s,
        with_calls (calls w ++ [mkCall f (sending_this s) None (length done)])%list w).
Proof.
  intros (Hlen & Htasks & Hrej & Hset & Hcount) Hall Hfn.
  unfold resume. rewrite Hset, Hrej, forallb_fulfilled.
  - cbn [call bind modify ret]. by rewrite Hfn, Hcount.
  - intros j Hj. rewrite Hlen in Hj. rewrite Htasks by done.
    by rewrite decide_True by (by apply Hall).
Qed.

Lemma indices_covered (oks : list nat) n :
  NoDup oks -> (forall j, j ∈ oks -> j < n) -> length oks = n ->
  forall k, k < n -> k ∈ oks.
Proof.
  intros Hnd Hlt Hlen k Hk.
  assert (Hsub : oks ⊆+ seq 0 n).
  { apply NoDup_submseteq; [done|]. intros j Hj. apply elem_of_seq.
    specialize (Hlt j Hj). lia. }
  assert (Hperm : oks ≡ₚ seq 0 n).
  { apply submseteq_length_Permutation; [done|]. rewrite length_seq. lia. }
  rewrite Hperm. apply elem_of_seq. lia.
Qed.

Lemma index_pending (oks : list nat) n :
  NoDup oks -> (forall j, j ∈ oks -> j < n) -> length oks < n ->
  exists k, k < n /\ k ∉ oks.
Proof.
  intros Hnd Hlt Hlen.
  destruct (decide (Forall (fun k => k ∈ oks) (seq 0 n))) as [Hall|Hsome].
  - exfalso.
    assert (Hsub : seq 0 n ⊆+ oks).
    { apply NoDup_submseteq; [apply NoDup_seq|]. intros k Hk.
      by rewrite Forall_forall in Hall; apply Hall. }
    apply submseteq_length in Hsub. rewrite length_seq in Hsub. lia.
  - apply not_Forall_Exists in Hsome; [|apply _].
    apply Exists_exists in Hsome as (k & Hk & Hnot).
    exists k. split; [|done]. apply elem_of_seq in Hk. lia.
Qed.

(** All the responses, each a success, in any order. *)
Lemma responses_all_succeed n oks s f w :
  on_the_way n [] s -> sending_fn s = Some f ->
  0 < n -> NoDup oks -> (forall j, j ∈ oks -> j < n) -> length oks = n ->
  exists s',
    responses (map (fun j => (j, None)) oks) s w =
    Some (s', with_calls (calls w ++ [mkCall f (sending_this s) None n])%list w).
Proof.
  intros Hs Hfn Hpos Hnd Hlt Hlen.
  destruct (exists_last (l := oks)) as (oks' & j & ->).
  { intros ->. simpl in Hlen. lia. }
  destruct (responses_successes n oks' [] s [(j, None)] w j Hs Hnd)
    as (s1 & Hrun & Hs1 & Hfn1 & Hthis1).
  { intros i Hi. split; [by apply Hlt | apply not_elem_of_nil]. }
  rewrite map_app. cbn [map]. rewrite Hrun. cbn [responses].
  assert (Hj : j < n) by (apply Hlt, elem_of_app; right; by left).
  assert (Hfresh : j ∉ (rev oks' ++ [])%list).
  { rewrite app_nil_r. apply NoDup_app in Hnd as (_ & Hdis & _).
    intros Hin%list_elem_of_In%in_rev%list_elem_of_In.
    apply (Hdis j Hin). by left. }
  destruct (respond_success n _ s1 j Hs1 Hj Hfresh) as (Hs2 & Hfn2 & Hthis2).
  eexists. erewrite run_bind; [reflexivity|].
  rewrite (resume_complete n _ _ f w Hs2).
  - simpl. rewrite app_nil_r, length_rev. rewrite length_app in Hlen. simpl in Hlen.
    replace (S (length oks')) with n by lia. by rewrite Hthis2, Hthis1.
  - intros k Hk. pose proof (indices_covered _ n Hnd Hlt Hlen k Hk) as Hin.
    apply elem_of_app in Hin as [Hin|Hin%list_elem_of_singleton].
    + right. apply elem_of_app. left.
      by apply list_elem_of_In, in_rev, list_elem_of_In in Hin.
    + subst k. by left.
  - congruence.
Qed.

Lemma respond_keeps i err s :
  sending_this (respond i err s) = sending_this s /\
  sending_fn (respond i err s) = sending_fn s.
Proof.
  unfold respond.
  destruct err as [m|], (sending_tasks s !! i) as [[| |r]|] eqn:E; simpl;
    repeat (match goal with
            | |- context [match ?x with _ => _ end] => destruct x eqn:?
            end; simpl); done.
Qed.

(** The code after the [await] either does nothing or calls back once
    and marks the [send] as done. *)
Lemma resume_cases s w :
  exists s' w',
    resume s w = Some (s', w') /\
    sending_this s' = sending_this s /\ sending_fn s' = sending_fn s /\
    ((s' = s /\ w' = w) \/
     (sending_settled s = false /\ sending_settled s' = true /\
      (calls w' = calls w \/
       exists f e, sending_fn s = Some f /\
         calls w' = (calls w ++ [mkCall f (sending_this s) e (sending_count s)])%list))).
Proof.
  unfold resume. destruct (sending_settled s) eqn:Hset.
  { eexists _, _. split; [reflexivity|]. repeat split; by left. }
  destruct (sending_rejection s) as [m|].
  { destruct (sending_fn s) as [f|] eqn:Hfn; cbn [call bind modify ret];
      eexists _, _; (split; [reflexivity|]); simpl; repeat split; try done;
      right; repeat split; try done; [right; by exists f, (Some m) | by left]. }
  destruct (forallb is_fulfilled (sending_tasks s)).
  - destruct (sending_fn s) as [f|] eqn:Hfn; cbn [call bind modify ret];
      eexists _, _; (split; [reflexivity|]); simpl; repeat split; try done;
      right; repeat split; try done; [right; by exists f, None | by left].
  - eexists _, _. split; [reflexivity|]. repeat split; by left.
Qed.

Lemma responses_at_most_once evs : forall s w,
  exists s' w',
    responses evs s w = Some (s', w') /\
    (calls w' = calls w \/
     exists f e k, sending_fn s = Some f /\
       calls w' = (calls w ++ [mkCall f (sending_this s) e k])%list).
Proof.
  induction evs as [|[i err] evs IH]; intros s w.
  { eexists _, _. split; [reflexivity | by left]. }
  cbn [responses].
  destruct (respond_keeps i err s) as [Hthis Hfn].
  destruct (resume_cases (respond i err s) w)
    as (s1 & w1 & Hres & Hthis1 & Hfn1 & Hcase).
  rewrite (run_bind _ _ _ _ _ Hres).
  destruct Hcase as [[-> ->]|(_ & Hset & Hcalls)].
  - destruct (IH (respond i err s) w) as (s' & w' & Hrun & Hc).
    exists s', w'. split; [done|]. by rewrite Hthis, Hfn in Hc.
  - destruct (responses_settled evs s1 w1 Hset) as (s' & Hrun & _).
    exists s', w1. split; [done|].
    destruct Hcalls as [?|(f & e & Hf & Hc)]; [by left|].
    right. exists f, e, (sending_count (respond i err s)).
    by rewrite Hthis, Hfn in *.
Qed.

(** What [send] hands back: nothing to await and one call made, or a
    [send] under way and no call yet. *)
Lemma send_shape v f w r w1 :
  send v (Some f) w = Some (r, w1) ->
  (r = None /\ calls w1 = (calls w ++ [mkCall f v None 0])%list) \/
  (exists s, r = Some s /\ sending_this s = v /\ sending_fn s = Some f /\
             sending_settled s = false /\ sending_count s = 0 /\
             calls w1 = calls w).
Proof.
  intros Hsend. destruct (getSendTaskQueue v w) as [[tasks w0]|] eqn:Hplan.
  - destruct (plan_conserves v w w0 tasks Hplan) as (_ & _ & _ & Hframe).
    destruct Hframe as (_ & _ & _ & _ & Hcalls & _).
    destruct tasks as [|t tasks].
    + rewrite (send_nothing _ _ _ _ Hplan) in Hsend.
      cbn [call bind modify ret] in Hsend. injection Hsend as <- <-.
      left. simpl. by rewrite Hcalls.
    + destruct (start_tasks_frame v (send_path (config w0)) (t :: tasks) w0)
        as (ps & w2 & Hrun & _ & _ & _ & _ & Hcalls2).
      rewrite (send_run _ _ _ _ _ _ _ Hplan ltac:(done) Hrun) in Hsend.
      injection Hsend as <- <-. right. eexists. repeat split; try done.
      congruence.
  - unfold send, bind in Hsend. by rewrite Hplan in Hsend.
Qed.

End ResponseFacts.

Section ReturningFacts.
Implicit Types (v : Visitor) (w : World) (s : Sending).

(** Every request succeeds, and the callback returns. *)
Lemma returning_all_succeed v (f : Callback) w (oks : list nat) :
  Config.batching (config w) = true ->
  (0 < Config.batchSize (config w))%Z ->
  array_at (queue v) w <> [] ->
  let B := Config.batchSize (config w) in
  let units := Z.to_nat ((Z.of_nat (length (array_at (queue v) w)) + B - 1) / B) in
  NoDup oks ->
  (forall j, j ∈ oks -> j < units) ->
  length oks = units ->
  exists s w1 w2,
    send v (Some f) w = Some (Some s, w1) /\
    calls w1 = calls w /\
    await (Some s) (map (fun j => (j, None)) oks) w1 = Some (tt, w2) /\
    calls w2 = (calls w ++ [mkCall f v None units])%list.
Proof.
  intros Hon HB Hne B units Hnd Hlt Hlen.
  destruct (send_batches v (Some f) w Hon HB Hne)
    as (w1 & Hsend & Hpos & _ & Hcalls & _).
  fold B units in Hsend, Hpos.
  set (s0 := mkSending v (Some f) (replicate units Pending) 0 None false) in *.
  pose proof (on_the_way_start v (Some f) units) as Hs0. fold s0 in Hs0.
  destruct (responses_all_succeed units oks s0 f w1 Hs0 eq_refl Hpos Hnd Hlt Hlen)
    as (s' & Hrun).
  assert (Hj : exists j, j < units /\ j ∉ ([] : list nat)).
  { exists 0. split; [done | apply not_elem_of_nil]. }
  destruct Hj as (j & Hj & Hnot).
  eexists s0, w1, _. split; [exact Hsend|]. split; [exact Hcalls|].
  split.
  - cbn [await].
    rewrite (run_bind _ _ _ _ _ (resume_waiting units [] s0 j w1 Hs0 Hj Hnot)).
    rewrite (run_bind _ _ _ _ _ Hrun). reflexivity.
  - simpl. by rewrite Hcalls.
Qed.

(** A callback that returns is called at most once. *)
Lemma returning_at_most_once v (f : Callback) w w1 w2 (r : option Sending)
    (evs : list (nat * option string)) :
  send v (Some f) w = Some (r, w1) ->
  await r evs w1 = Some (tt, w2) ->
  calls w2 = calls w \/
  exists e n, calls w2 = (calls w ++ [mkCall f v e n])%list.
Proof.
  intros Hsend Hawait.
  destruct (send_shape v f w r w1 Hsend)
    as [[-> Hcalls]|(s & -> & Hthis & Hfn & Hset & _ & Hcalls)].
  - cbn [await ret] in Hawait. injection Hawait as <-. right. by exists None, 0.
  - cbn [await] in Hawait.
    destruct (resume_cases s w1) as (s1 & wa & Hres & Hthis1 & Hfn1 & Hcase).
    rewrite (run_bind _ _ _ _ _ Hres) in Hawait.
    destruct Hcase as [[-> ->]|(_ & Hset1 & Hc1)].
    + destruct (responses_at_most_once evs s w1) as (s' & w' & Hrun & Hc).
      rewrite (run_bind _ _ _ _ _ Hrun) in Hawait. cbn [ret] in Hawait.
      injection Hawait as <-. rewrite Hcalls in Hc.
      destruct Hc as [?|(f' & e & k & Hf' & Hc)]; [by left|].
      right. exists e, k. rewrite Hfn in Hf'. injection Hf' as <-.
      by rewrite Hthis in Hc.
    + destruct (responses_settled evs s1 wa Hset1) as (s' & Hrun & _).
      rewrite (run_bind _ _ _ _ _ Hrun) in Hawait. cbn [ret] in Hawait.
      injection Hawait as <-. rewrite Hcalls in Hc1.
      destruct Hc1 as [?|(f' & e & Hf' & Hc)]; [by left|].
      right. exists e, (sending_count s). rewrite Hfn in Hf'. injection Hf' as <-.
      by rewrite Hthis in Hc.
Qed.

End ReturningFacts.

(** X10.  When every request of a [send] succeeds, in whatever order the
    responses arrive, the completion callback is called after the last
    of them, with no error and the number of dispatch units as its
    count.  A callback that returns has then been called once; one that
    throws is called once more, by the [catch] block, with the message
    of what it threw and the same count. *)
Theorem all_responses_succeed (throws : Conduct) (v : Visitor) (f : Callback)
    (w : World) (oks : list nat) :
  Config.batching (config w) = true ->
  (0 < Config.batchSize (config w))%Z ->
  array_at (queue v) w <> [] ->
  let B := Config.batchSize (config w) in
  let units := Z.to_nat ((Z.of_nat (length (array_at (queue v) w)) + B - 1) / B) in
  NoDup oks ->
  (forall j, j ∈ oks -> j < units) ->
  length oks = units ->
  exists r w1 w2,
    Try.send throws v (Some f) w = Some (r, w1) /\
    calls w1 = calls w /\
    Try.await throws r (map (fun j => (j, None)) oks) w1 = Some (tt, w2) /\
    calls w2 =
      (calls w ++ mkCall f v None units
                  :: caught throws (mkCall f v None units))%list.
Proof.
  intros Hon HB Hne B units Hnd Hlt Hlen.
  destruct (returning_all_succeed v f w oks Hon HB Hne Hnd Hlt Hlen)
    as (s & w1 & w2 & Hsend & Hc1 & Hawait & Hc2).
  fold B units in Hc2.
  destruct (try_await_sim throws (Some s) (map (fun j => (j, None)) oks))
    as (new & Hsim).
  destruct (Hsim w1) as [Hold Hnew].
  rewrite Hawait in Hold. injection Hold as ->.
  cbn [calls with_calls] in Hc2. rewrite Hc1 in Hc2.
  apply app_inv_head in Hc2 as ->.
  eexists (Some s), w1, _. split; [by rewrite try_send_cases, Hsend|].
  split; [exact Hc1|]. split; [exact Hnew|].
  cbn [calls with_calls flat_map]. by rewrite Hc1, app_nil_r.
Qed.

Lemma all_responses_succeed_witness :
  Config.batching (config (Demo.world_with (Demo.policy true 2)
     [Demo.hit "a" "1"; Demo.hit "b" "2"; Demo.hit "c" "3"])) = true /\
  NoDup [1; 0] /\
  exists r w1 w2,
    Try.send (fun c => match call_error c with
                       | None => Some "boom"
                       | Some _ => None
                       end)
      Demo.visitor (Some 7)
      (Demo.world_with (Demo.policy true 2)
         [Demo.hit "a" "1"; Demo.hit "b" "2"; Demo.hit "c" "3"])
    = Some (r, w1) /\
    Try.await (fun c => match call_error c with
                        | None => Some "boom"
                        | Some _ => None
                        end)
      r [(1, None); (0, None)] w1 = Some (tt, w2) /\
    calls w2 = [mkCall 7 Demo.visitor None 2; mkCall 7 Demo.visitor (Some "boom") 2].
Proof.
  assert (Hnd : NoDup [1; 0]).
  { apply (bool_decide_unpack _). vm_compute. exact I. }
  split; [reflexivity|]. split; [exact Hnd|].
  destruct (all_responses_succeed
              (fun c => match call_error c with
                        | None => Some "boom"
                        | Some _ => None
                        end)
              Demo.visitor 7
              (Demo.world_with (Demo.policy true 2)
                 [Demo.hit "a" "1"; Demo.hit "b" "2"; Demo.hit "c" "3"])
              [1; 0] eq_refl ltac:(reflexivity) ltac:(discriminate) Hnd)
    as (r & w1 & w2 & Hsend & _ & Hawait & Hcalls).
  { intros j Hj. apply elem_of_cons in Hj as [->|Hj%list_elem_of_singleton];
      [|subst j]; vm_compute; lia. }
  { reflexivity. }
  by exists r, w1, w2.
Defined.

(** X11.  Whatever responses arrive, in whatever order, and whatever the
    callback does, a [send] reports at most once, on the Visitor it was
    called on.  The callback is called a second time only by the
    [catch] block, with the same count, when the call that reported
    success threw: a callback is called at most twice, and one that
    returns at most once. *)
Theorem callback_called_at_most_twice (throws : Conduct) (v : Visitor)
    (f : Callback) (w w1 w2 : World)
    (r : option Sending) (evs : list (nat * option string)) :
  Try.send throws v (Some f) w = Some (r, w1) ->
  Try.await throws r evs w1 = Some (tt, w2) ->
  calls w2 = calls w \/
  exists e n,
    calls w2 = (calls w ++ mkCall f v e n :: caught throws (mkCall f v e n))%list.
Proof.
  intros Hsend Hawait. rewrite try_send_cases in Hsend.
  destruct (send v (Some f) w) as [[[s|] w1']|] eqn:Hold; [| |done].
  - injection Hsend as <- <-.
    destruct (try_await_sim throws (Some s) evs) as (new & Hsim).
    destruct (Hsim w1') as [Ho Hn]. rewrite Hn in Hawait. injection Hawait as <-.
    destruct (send_shape v f w _ _ Hold) as [[? _]|(_ & _ & _ & _ & _ & _ & Hc1)];
      [done|].
    destruct (returning_at_most_once v f w w1' _ _ evs Hold Ho) as [Hc|(e & n & Hc)];
      cbn [calls with_calls] in Hc |- *; rewrite Hc1 in Hc |- *.
    + left. rewrite <- (app_nil_r (calls w)) in Hc at 2.
      apply app_inv_head in Hc as ->. cbn [flat_map]. by rewrite app_nil_r.
    + right. exists e, n. apply app_inv_head in Hc as ->.
      cbn [flat_map]. by rewrite app_nil_r.
  - injection Hsend as <- <-. cbn [Try.await ret] in Hawait. injection Hawait as <-.
    destruct (send_shape v f w _ _ Hold) as [[_ Hc]|(s & ? & _)]; [|done].
    right. exists None, 0. cbn [calls with_calls]. by rewrite Hc, <- app_assoc.
Qed.

Lemma callback_called_at_most_twice_witness :
  exists r w1 w2,
    Try.send (fun _ => Some "boom") Demo.visitor (Some 7)
      (Demo.world_with (Demo.policy true 1) [Demo.hit "a" "1"; Demo.hit "b" "2"])
    = Some (r, w1) /\
    Try.await (fun _ => Some "boom") r
      [(0, Some "ETIMEDOUT"); (1, Some "ECONNRESET"); (0, None)] w1
    = Some (tt, w2) /\
    (calls w2 = [] \/
     exists e n,
       calls w2 = mkCall 7 Demo.visitor e n
                  :: caught (fun _ => Some "boom") (mkCall 7 Demo.visitor e n)).
Proof.
  destruct (Try.send (fun _ => Some "boom") Demo.visitor (Some 7)
              (Demo.world_with (Demo.policy true 1)
                 [Demo.hit "a" "1"; Demo.hit "b" "2"]))
    as [[r w1]|] eqn:Hsend; [|vm_compute in Hsend; discriminate].
  destruct (try_await_sim (fun _ => Some "boom") r
              [(0, Some "ETIMEDOUT"); (1, Some "ECONNRESET"); (0, None)])
    as (new & Hsim).
  destruct (Hsim w1) as [_ Hawait].
  eexists r, w1, _. split; [reflexivity|]. split; [exact Hawait|].
  exact (callback_called_at_most_twice _ _ _ _ _ _ _ _ Hsend Hawait).
Defined.

(** X12.  While a request has had no response and none has failed, the
    completion callback is not called: a request that never answers keeps
    the [send] from ever reporting. *)
Theorem unanswered_request_stalls (v : Visitor) (f : Callback) (w : World)
    (oks : list nat) :
  Config.batching (config w) = true ->
  (0 < Config.batchSize (config w))%Z ->
  array_at (queue v) w <> [] ->
  let B := Config.batchSize (config w) in
  let units := Z.to_nat ((Z.of_nat (length (array_at (queue v) w)) + B - 1) / B) in
  NoDup oks ->
  (forall j, j ∈ oks -> j < units) ->
  length oks < units ->
  exists r w1 w2,
    send v (Some f) w = Some (r, w1) /\
    await r (map (fun j => (j, None)) oks) w1 = Some (tt, w2) /\
    calls w2 = calls w.
Proof.
  intros Hon HB Hne B units Hnd Hlt Hlen.
  destruct (send_batches v (Some f) w Hon HB Hne)
    as (w1 & Hsend & Hpos & _ & Hcalls & _).
  fold B units in Hsend, Hpos.
  set (s0 := mkSending v (Some f) (replicate units Pending) 0 None false) in *.
  pose proof (on_the_way_start v (Some f) units) as Hs0. fold s0 in Hs0.
  destruct (index_pending oks units Hnd Hlt Hlen) as (j & Hj & Hnot).
  destruct (responses_successes units oks [] s0 [] w1 j Hs0)
    as (s1 & Hrun & _).
  { apply NoDup_app. split; [done|]. split; [|apply NoDup_singleton].
    intros k Hk Hkj%list_elem_of_singleton. by subst k. }
  { intros k Hk. split; [|apply not_elem_of_nil].
    apply elem_of_app in Hk as [Hk|Hk%list_elem_of_singleton]; [by apply Hlt|by subst k]. }
  rewrite app_nil_r in Hrun. cbn [responses ret] in Hrun.
  exists (Some s0), w1, w1. split; [exact Hsend|]. split; [|exact Hcalls].
  cbn [await].
  rewrite (run_bind _ _ _ _ _ (resume_waiting units [] s0 j w1 Hs0 Hj
                                 ltac:(apply not_elem_of_nil))).
  rewrite (run_bind _ _ _ _ _ Hrun). reflexivity.
Qed.

Lemma unanswered_request_stalls_witness :
  Config.batching (config (Demo.world_with (Demo.policy true 1)
     [Demo.hit "a" "1"; Demo.hit "b" "2"])) = true /\
  NoDup [1] /\
  exists r w1 w2,
    send Demo.visitor (Some 7)
      (Demo.world_with (Demo.policy true 1) [Demo.hit "a" "1"; Demo.hit "b" "2"])
    = Some (r, w1) /\
    await r [(1, None)] w1 = Some (tt, w2) /\
    calls w2 = [].
Proof.
  split; [reflexivity|]. split; [apply NoDup_singleton|].
  destruct (unanswered_request_stalls Demo.visitor 7
              (Demo.world_with (Demo.policy true 1) [Demo.hit "a" "1"; Demo.hit "b" "2"])
              [1] eq_refl ltac:(reflexivity) ltac:(discriminate)
              ltac:(apply NoDup_singleton))
    as (r & w1 & w2 & Hsend & Hawait & Hcalls).
  { intros j Hj%list_elem_of_singleton. subst j. vm_compute. lia. }
  { vm_compute. lia. }
  by exists r, w1, w2.
Defined.

(** X13.  A queue of one Hit, batching on: one request, to the host
    followed by the batch path, whose body is the Hit in query-string
    form; when its response comes, the callback gets no error and a
    count of one. *)
Theorem single_hit_is_posted (v : Visitor) (f : Callback) (w : World)
    (h : JS.object) :
  Config.batching (config w) = true ->
  (0 < Config.batchSize (config w))%Z ->
  array_at (queue v) w = [h] ->
  exists r w1 w2,
    send v (Some f) w = Some (r, w1) /\
    posts w1 =
      (posts w ++
       [request_of v (Config.hostname (config w) ++ Config.batchPath (config w))
          (QueryString.stringify h)])%list /\
    await r [(0, None)] w1 = Some (tt, w2) /\
    calls w2 = (calls w ++ [mkCall f v None 1])%list.
Proof.
  intros Hon HB Hq.
  destruct (send_batches v (Some f) w Hon HB) as (w1 & Hsend & _ & Hposts & Hcalls & _).
  { by rewrite Hq. }
  rewrite Hq in Hsend, Hposts. cbn [length] in Hsend, Hposts.
  assert (Hone : Z.to_nat ((Z.of_nat 1 + Config.batchSize (config w) - 1)
                           / Config.batchSize (config w)) = 1).
  { replace (Z.of_nat 1 + Config.batchSize (config w) - 1)%Z
      with (Config.batchSize (config w)) by lia.
    rewrite Z.div_same by lia. done. }
  rewrite Hone in Hsend, Hposts. cbn [chunk map] in Hposts.
  rewrite take_ge in Hposts by (simpl; lia).
  set (s0 := mkSending v (Some f) (replicate 1 Pending) 0 None false) in *.
  pose proof (on_the_way_start v (Some f) 1) as Hs0. fold s0 in Hs0.
  destruct (responses_all_succeed 1 [0] s0 f w1 Hs0 eq_refl ltac:(lia)
              ltac:(apply NoDup_singleton))
    as (s' & Hrun); [|done|].
  { intros j Hj%list_elem_of_singleton. lia. }
  eexists (Some s0), w1, _. split; [exact Hsend|]. split; [exact Hposts|]. split.
  - cbn [await].
    rewrite (run_bind _ _ _ _ _ (resume_waiting 1 [] s0 0 w1 Hs0 ltac:(lia)
                                   ltac:(apply not_elem_of_nil))).
    cbn [map] in Hrun. rewrite (run_bind _ _ _ _ _ Hrun). reflexivity.
  - simpl. by rewrite Hcalls.
Qed.

Lemma single_hit_is_posted_witness :
  Config.batching (config (Demo.world_with Demo.config [Demo.hit "first" "123"]))
  = true /\
  exists r w1 w2,
    send Demo.visitor (Some 7) (Demo.world_with Demo.config [Demo.hit "first" "123"])
    = Some (r, w1) /\
    posts w1 = [mkPost "https://www.google-analytics.com/batch" "first=123" [] []] /\
    await r [(0, None)] w1 = Some (tt, w2) /\
    calls w2 = [mkCall 7 Demo.visitor None 1].
Proof.
  split; [reflexivity|].
  destruct (single_hit_is_posted Demo.visitor 7
              (Demo.world_with Demo.config [Demo.hit "first" "123"])
              (Demo.hit "first" "123") eq_refl ltac:(reflexivity) eq_refl)
    as (r & w1 & w2 & Hsend & Hposts & Hawait & Hcalls).
  by exists r, w1, w2.
Defined.

(** X14.  With batching on, a [send] makes one request for each
    dispatch unit, in the order of the plan; all of them go to the host
    followed by the batch path and carry the headers and the request
    options of the Visitor's options, and each has the body of its unit. *)
Theorem one_request_per_unit (v : Visitor) (fn : option Callback) (w : World) :
  Config.batching (config w) = true ->
  (0 < Config.batchSize (config w))%Z ->
  array_at (queue v) w <> [] ->
  exists (units : list (list JS.object)) w0 r w1 new,
    getSendTaskQueue v w = Some (map Batch units, w0) /\
    send v fn w = Some (r, w1) /\
    posts w1 = (posts w ++ new)%list /\
    map post_body new = map batch_body units /\
    Forall (fun p =>
              post_path p = Config.hostname (config w) ++ Config.batchPath (config w) /\
              post_headers p = default [] (VisitorOptions.headers (options v)) /\
              post_requestOptions p =
                JS.delete "headers"
                  (JS.delete "body"
                     (default [] (VisitorOptions.requestOptions (options v)))))
      new.
Proof.
  intros Hon HB Hne.
  destruct (plan_batches v w Hon HB) as (w0 & Hplan & _ & _ & Hframe).
  set (units := chunk _ _ _) in *.
  assert (Hunits : units <> []).
  { intros Hnil. destruct (plan_batches v w Hon HB) as (_ & _ & Hcat & _).
    fold units in Hcat. rewrite Hnil in Hcat. simpl in Hcat. congruence. }
  set (path := Config.hostname (config w) ++ Config.batchPath (config w)).
  destruct Hframe as (Hc & Ho & Hu & Hp & Hcl & Harr).
  assert (Hpath : send_path (config w0) = path).
  { unfold send_path. by rewrite Hc, Hon. }
  exists units, w0. eexists _, _, (map (fun u => request_of v path (batch_body u)) units).
  split; [exact Hplan|]. split; [|split; [|split]].
  - eapply send_run; [exact Hplan | by destruct units | ].
    rewrite Hpath. apply start_batches.
  - simpl. by rewrite Hp.
  - rewrite map_map. done.
  - apply Forall_map. by apply Forall_true.
Qed.

Lemma one_request_per_unit_witness :
  Config.batching (config (Demo.world_with (Demo.policy true 2)
     [Demo.hit "a" "1"; Demo.hit "b" "2"; Demo.hit "c" "3"])) = true /\
  exists (units : list (list JS.object)) w0 r w1 new,
    getSendTaskQueue Demo.visitor
      (Demo.world_with (Demo.policy true 2)
         [Demo.hit "a" "1"; Demo.hit "b" "2"; Demo.hit "c" "3"])
    = Some (map Batch units, w0) /\
    send Demo.visitor None
      (Demo.world_with (Demo.policy true 2)
         [Demo.hit "a" "1"; Demo.hit "b" "2"; Demo.hit "c" "3"])
    = Some (r, w1) /\
    posts w1 = new /\
    map post_body new = map batch_body units.
Proof.
  split; [reflexivity|].
  destruct (one_request_per_unit Demo.visitor None
              (Demo.world_with (Demo.policy true 2)
                 [Demo.hit "a" "1"; Demo.hit "b" "2"; Demo.hit "c" "3"])
              eq_refl ltac:(reflexivity) ltac:(discriminate))
    as (units & w0 & r & w1 & new & Hplan & Hsend & Hposts & Hbodies & _).
  by exists units, w0, r, w1, new.
Defined.

(** ** How the operations compose *)

Section ComposeFacts.
Context {collab : Collaborators}.
Implicit Types (v view : Visitor) (w : World).

Lemma send_empty_run v f w :
  array_at (queue v) w = [] ->
  exists w',
    send v (Some f) w = Some (None, w') /\
    calls w' = (calls w ++ [mkCall f v None 0])%list /\
    posts w' = posts w /\ array_at (queue v) w' = [].
Proof.
  intros Hq. destruct (plan_empty v w Hq) as (w0 & Hplan & Hempty & Hframe).
  destruct Hframe as (_ & _ & _ & Hp & Hc & _).
  eexists. rewrite (send_nothing _ _ _ _ Hplan). cbn [call bind modify ret].
  split; [reflexivity|]. simpl. rewrite Hp, Hc. by repeat split.
Qed.

(** [enqueue] with a callback: push, then [send]. *)
Lemma enqueue_send view t p f w :
  enqueue view t p (Some f) w =
  match send view (Some f)
          (with_arrays
             (<[queue view :=
                  (array_at (queue view) w ++ [hit_of (config w) view t p])%list]>
                (arrays w)) w) with
  | Some (s, w') => Some ((view, s), w')
  | None => None
  end.
Proof. reflexivity. Qed.

End ComposeFacts.

(** X15.  A [send] leaves nothing for the next one: after a [send] under
    the batching policy, a second [send], with no Hit enqueued in
    between, makes no request and calls back at once with no error and a
    count of zero. *)
Theorem second_send_finds_nothing (v : Visitor) (fn : option Callback)
    (f : Callback) (w : World) :
  policy_ok (config w) ->
  exists r w1 w2,
    send v fn w = Some (r, w1) /\
    send v (Some f) w1 = Some (None, w2) /\
    posts w2 = posts w1 /\
    calls w2 = (calls w1 ++ [mkCall f v None 0])%list.
Proof.
  intros Hok.
  destruct (plan_drains v w Hok) as (tasks & w0 & Hplan & _ & Hempty & _).
  destruct (send_after_plan v fn w tasks w0 Hplan) as (r & w1 & Hsend & _ & Ha & _).
  assert (Hq1 : array_at (queue v) w1 = []).
  { unfold array_at in *. by rewrite Ha. }
  destruct (send_empty_run v f w1 Hq1) as (w2 & Hsend2 & Hcalls & Hposts & _).
  by exists r, w1, w2.
Qed.

Lemma second_send_finds_nothing_witness :
  policy_ok (config (Demo.world_with Demo.config [Demo.hit "a" "1"])) /\
  exists r w1 w2,
    send Demo.visitor None (Demo.world_with Demo.config [Demo.hit "a" "1"])
    = Some (r, w1) /\
    send Demo.visitor (Some 7) w1 = Some (None, w2) /\
    posts w2 = posts w1 /\
    calls w2 = (calls w1 ++ [mkCall 7 Demo.visitor None 0])%list.
Proof.
  assert (Hok : policy_ok (config (Demo.world_with Demo.config [Demo.hit "a" "1"]))).
  { intros _. reflexivity. }
  split; [exact Hok|].
  exact (second_send_finds_nothing Demo.visitor None 7 _ Hok).
Defined.

(** X16.  [pageview] with a callback sends at once: the Hit is enqueued
    and the whole queue, the Hits that were waiting and the new one, is
    planned and posted before [pageview] returns, leaving the queue
    empty.  The [send] is the view's: the callback will be called on the
    view, not on the Visitor [pageview] was called on. *)
Theorem pageview_with_callback_sends {collab : Collaborators}
    (v : Visitor) (pv : PageviewArgs) (f : Callback) (w : World) :
  pv_callback pv = Some f ->
  Config.batching (apply_options (options v) (config w)) = true ->
  (0 < Config.batchSize (apply_options (options v) (config w)))%Z ->
  let c := apply_options (options v) (config w) in
  let B := Config.batchSize c in
  exists view s w' h,
    pageview v pv w = Some ((view, Some s), w') /\
    queue view = queue v /\
    h = hit_of c view PAGEVIEW
          (pageviewParams (object_at (persistentParams v) w) (context v) pv) /\
    sending_this s = view /\ sending_fn s = Some f /\
    array_at (queue v) w' = [] /\
    let hits := (array_at (queue v) w ++ [h])%list in
    posts w' =
      (posts w ++
       map (fun u =>
              request_of view (Config.hostname c ++ Config.batchPath c) (batch_body u))
         (chunk (Z.to_nat B) (Z.to_nat ((Z.of_nat (length hits) + B - 1) / B)) hits))%list.
Proof.
  intros Hcb Hon HB c B.
  destruct (pageview_unfold v pv w)
    as (view & w1 & _ & Hpv & Hview & _ & Hc & Ha & _ & Hp & _).
  assert (Hqv : queue view = queue v) by (by rewrite Hview).
  rewrite Hpv, Hcb, enqueue_send. rewrite Hc. fold c.
  set (h := hit_of c view PAGEVIEW _).
  set (w2 := with_arrays _ w1).
  assert (Hq2 : array_at (queue view) w2 = (array_at (queue v) w ++ [h])%list).
  { unfold array_at at 1. subst w2. simpl. rewrite lookup_insert_eq. simpl.
    unfold array_at. by rewrite Ha, Hqv. }
  destruct (send_batches view (Some f) w2) as (w3 & Hsend & _ & Hposts & _ & _ & _ & _ & Hempty & _).
  { subst w2. simpl. by rewrite Hc. }
  { subst w2. simpl. by rewrite Hc. }
  { rewrite Hq2. by destruct (array_at (queue v) w). }
  rewrite Hsend. eexists view, _, w3, h.
  split; [reflexivity|]. split; [exact Hqv|]. split; [reflexivity|].
  split; [reflexivity|]. split; [reflexivity|].
  split; [by rewrite <- Hqv|].
  rewrite Hposts, Hq2. subst w2. simpl. by rewrite Hc, Hp.
Qed.

Lemma pageview_with_callback_sends_witness :
  Config.batching
    (apply_options (collab := Demo.collaborators) (options Demo.visitor)
       (config (Demo.world_with Demo.config [Demo.hit "a" "1"]))) = true /\
  exists view s w',
    pageview (collab := Demo.collaborators) Demo.visitor
      (mkPageviewArgs "/home" None None None (Some 7))
      (Demo.world_with Demo.config [Demo.hit "a" "1"])
    = Some ((view, Some s), w') /\
    sending_this s = view /\
    array_at (queue Demo.visitor) w' = [] /\
    length (posts w') = 1.
Proof.
  split; [reflexivity|].
  destruct (pageview_with_callback_sends (collab := Demo.collaborators)
              Demo.visitor (mkPageviewArgs "/home" None None None (Some 7)) 7
              (Demo.world_with Demo.config [Demo.hit "a" "1"])
              eq_refl eq_refl ltac:(reflexivity))
    as (view & s & w' & h & Hpv & _ & _ & Hthis & _ & Hq & Hposts).
  exists view, s, w'. split; [exact Hpv|]. split; [exact Hthis|].
  split; [exact Hq|]. simpl in Hposts. rewrite Hposts. reflexivity.
Defined.

(** ** The body of a request *)

Section BodyFacts.
Implicit Types (s t : string) (c : ascii).

Lemma occurs_app c s t : occurs c (s ++ t) = occurs c s || occurs c t.
Proof.
  induction s as [|a s IH]; simpl; [done|]. by rewrite IH, orb_assoc.
Qed.

Lemma escape_cons c s :
  QueryString.escape (String c s)
  = QueryString.escape (String c "") ++ QueryString.escape s.
Proof. simpl. by destruct (QueryString.unreserved c). Qed.

(** [querystring.escape] writes a line feed as [%0A]. *)
Lemma escape_char_no_newline c :
  occurs (ascii_of_nat 10) (QueryString.escape (String c "")) = false.
Proof. destruct c as [[] [] [] [] [] [] [] []]; vm_compute; reflexivity. Qed.

Lemma escape_no_newline s :
  occurs (ascii_of_nat 10) (QueryString.escape s) = false.
Proof.
  induction s as [|c s IH]; [done|].
  by rewrite escape_cons, occurs_app, escape_char_no_newline, IH.
Qed.

Lemma join_no_newline (l : list string) :
  Forall (fun x => occurs (ascii_of_nat 10) x = false) l ->
  occurs (ascii_of_nat 10) (QueryString.join "&" l) = false.
Proof.
  induction 1 as [|x l Hx Hl IH]; [done|].
  destruct l as [|y l]; [done|].
  change (QueryString.join "&" (x :: y :: l))
    with (x ++ "&" ++ QueryString.join "&" (y :: l)).
  by rewrite !occurs_app, Hx, IH.
Qed.

Lemma stringify_no_newline (o : JS.object) :
  occurs (ascii_of_nat 10) (QueryString.stringify o) = false.
Proof.
  unfold QueryString.stringify. apply join_no_newline, Forall_map, Forall_true.
  intros k. unfold QueryString.field. simpl.
  by rewrite !occurs_app, !escape_no_newline.
Qed.

Lemma split_lines_one s :
  occurs (ascii_of_nat 10) s = false -> split_lines s = [s].
Proof.
  induction s as [|c s IH]; simpl; [done|].
  intros [Hc Hs]%orb_false_elim. by rewrite Hc, (IH Hs).
Qed.

Lemma split_lines_app s t :
  occurs (ascii_of_nat 10) s = false ->
  split_lines (s ++ String (ascii_of_nat 10) t) = s :: split_lines t.
Proof.
  induction s as [|c s IH]; intros Hs.
  - reflexivity.
  - simpl in Hs. apply orb_false_elim in Hs as [Hc Hs].
    simpl. rewrite Hc. simpl in IH. by rewrite (IH Hs).
Qed.

Lemma split_lines_join (l : list string) :
  l <> [] ->
  Forall (fun x => occurs (ascii_of_nat 10) x = false) l ->
  split_lines (QueryString.join (String (ascii_of_nat 10) "") l) = l.
Proof.
  intros Hne Hall. induction Hall as [|x l Hx Hl IH]; [done|].
  destruct l as [|y l]; [by apply split_lines_one|].
  change (QueryString.join (String (ascii_of_nat 10) "") (x :: y :: l))
    with (x ++ String (ascii_of_nat 10)
                 (QueryString.join (String (ascii_of_nat 10) "") (y :: l))).
  rewrite split_lines_app by done. by rewrite IH.
Qed.

End BodyFacts.

(** X17.  The body of a batch has one line for each Hit, the Hit in
    query-string form: a line feed inside a name or a value is written
    [%0A], so splitting the body at the line feeds gives back the
    query strings of the Hits, in their order. *)
Theorem body_has_one_line_per_hit (hits : list JS.object) :
  hits <> [] ->
  exists body,
    getBody (Batch hits) = inr body /\
    split_lines body = map QueryString.stringify hits.
Proof.
  intros Hne. eexists. split; [reflexivity|].
  apply split_lines_join.
  - by destruct hits.
  - apply Forall_map, Forall_true. intros h. apply stringify_no_newline.
Qed.

Lemma body_has_one_line_per_hit_witness :
  exists body,
    getBody (Batch [Demo.hit "a" "1"; [("b", JS.VStr (String (ascii_of_nat 10) "x"))]])
    = inr body /\
    split_lines body = ["a=1"; "b=%0Ax"].
Proof.
  destruct (body_has_one_line_per_hit
              [Demo.hit "a" "1"; [("b", JS.VStr (String (ascii_of_nat 10) "x"))]]
              ltac:(discriminate))
    as (body & Hbody & Hlines).
  by exists body.
Defined.

(** ** Views, persistent parameters and the context *)

(** X18.  [set], under a name other than [__proto__], writes into the
    persistent parameters the Visitor and its views share: a value set
    through a view is in the parameters of the next [pageview] of the
    Visitor itself, unless the call gives a parameter of that name,
    which wins; [null] and [undefined] are removed either way. *)
Theorem set_through_view_reaches_visitor {collab : Collaborators}
    (v : Visitor) (ctx : option JS.object) (key : string) (value : JS.value)
    (w : World) :
  key <> "__proto__" ->
  exists view w1 w2,
    withContext v ctx w = Some (view, w1) /\
    set view key value w1 = Some (tt, w2) /\
    object_at (persistentParams v) w2
    = JS.set key value (object_at (persistentParams v) w) /\
    forall pv, key <> "dp" -> key <> "dh" -> key <> "dt" ->
      JS.lookup key
        (pageviewParams (object_at (persistentParams v) w2) (context v) pv)
      = match JS.lookup key (default [] (pv_params pv)) with
        | Some x => if JS.nullish x then None else Some x
        | None => if JS.nullish value then None else Some value
        end.
Proof.
  intros _.
  destruct (withContext_run v ctx w)
    as (view & w1 & Hview & _ & Hpp & _ & _ & _ & _ & _ & _ & Ho & _).
  eexists view, w1, _. split; [exact Hview|]. split; [reflexivity|].
  assert (Hobj : object_at (persistentParams v)
                   (with_objects
                      (<[persistentParams view :=
                           JS.set key value (object_at (persistentParams view) w1)]>
                         (objects w1)) w1)
                 = JS.set key value (object_at (persistentParams v) w)).
  { unfold object_at. simpl. rewrite Hpp, lookup_insert_eq. simpl. by rewrite Ho. }
  split; [exact Hobj|]. intros pv Hdp Hdh Hdt.
  rewrite pageviewParams_other by done. rewrite Hobj, lookup_set_eq.
  by destruct (JS.lookup key (default [] (pv_params pv))).
Qed.

Lemma set_through_view_reaches_visitor_witness :
  exists view w1 w2,
    withContext (collab := Demo.collaborators) Demo.visitor None
      (Demo.world_with Demo.config [])
    = Some (view, w1) /\
    set view "cd1" (JS.VStr "gold") w1 = Some (tt, w2) /\
    JS.lookup "cd1"
      (pageviewParams (object_at (persistentParams Demo.visitor) w2)
         (context Demo.visitor) (mkPageviewArgs "/home" None None None None))
    = Some (JS.VStr "gold").
Proof.
  destruct (set_through_view_reaches_visitor (collab := Demo.collaborators)
              Demo.visitor None "cd1" (JS.VStr "gold")
              (Demo.world_with Demo.config []))
    as (view & w1 & w2 & Hview & Hset & _ & Hpv); [discriminate|].
  exists view, w1, w2. split; [exact Hview|]. split; [exact Hset|].
  rewrite Hpv by discriminate. reflexivity.
Defined.

(** X19.  The view [pageview] returns has the parameters of the call as
    its context.  For a later [pageview] on that view with an empty
    path, the parameters handed to [enqueue] take their [dp] from that
    context; after [reset] there is no context, and they have no
    [dp]. *)
Theorem chained_pageview_takes_dp_from_context {collab : Collaborators}
    (v : Visitor) (pv1 pv2 : PageviewArgs) (w : World) (x : string) :
  pv_callback pv1 = None ->
  JS.lookup "dp" (default [] (pv_params pv1)) = Some (JS.VStr x) ->
  x <> "" ->
  pv_path pv2 = "" ->
  exists view w1,
    pageview v pv1 w = Some ((view, None), w1) /\
    context view = default [] (pv_params pv1) /\
    (forall persistent,
       JS.lookup "dp" (pageviewParams persistent (context view) pv2)
       = Some (JS.VStr x)) /\
    (forall persistent,
       JS.lookup "dp" (pageviewParams persistent (context (reset view)) pv2) = None).
Proof.
  intros Hcb Hdp Hx Hpath.
  destruct (pageview_unfold v pv1 w) as (view & w1 & _ & Hpv & Hview & _).
  rewrite Hcb, enqueue_run in Hpv. eexists view, _. split; [exact Hpv|].
  assert (Hctx : context view = default [] (pv_params pv1)) by (by rewrite Hview).
  split; [exact Hctx|]. split; intros persistent; unfold pageviewParams;
    rewrite lookup_tidyParameters, !lookup_set_ne, lookup_set_eq by done;
    rewrite Hpath; unfold JS.or_else; cbn [JS.truthy String.eqb negb].
  - rewrite Hctx. unfold JS.get. rewrite Hdp. done.
  - done.
Qed.

Lemma chained_pageview_takes_dp_from_context_witness :
  JS.lookup "dp" (default [] (Some [("dp", JS.VStr "/from-params")]))
  = Some (JS.VStr "/from-params") /\
  exists view w1,
    pageview (collab := Demo.collaborators) Demo.visitor
      (mkPageviewArgs "/first" None None (Some [("dp", JS.VStr "/from-params")]) None)
      (Demo.world_with Demo.config [])
    = Some ((view, None), w1) /\
    JS.lookup "dp"
      (pageviewParams [] (context view) (mkPageviewArgs "" None None None None))
    = Some (JS.VStr "/from-params") /\
    JS.lookup "dp"
      (pageviewParams [] (context (reset view)) (mkPageviewArgs "" None None None None))
    = None.
Proof.
  split; [reflexivity|].
  destruct (chained_pageview_takes_dp_from_context (collab := Demo.collaborators)
              Demo.visitor
              (mkPageviewArgs "/first" None None
                 (Some [("dp", JS.VStr "/from-params")]) None)
              (mkPageviewArgs "" None None None None)
              (Demo.world_with Demo.config []) "/from-params"
              eq_refl eq_refl ltac:(discriminate) eq_refl)
    as (view & w1 & Hpv & _ & Hdp & Hreset).
  exists view, w1. split; [exact Hpv|]. split; [apply Hdp | apply Hreset].
Defined.

(** X20.  A Visitor constructed by [init] has a queue of its own, empty
    at first: the queues that exist stay as they are when it is
    constructed and when a [pageview] enqueues on it. *)
Theorem new_visitor_has_own_queue {collab : Collaborators}
    (o : VisitorOptions.t) (pv : PageviewArgs) (w : World) (l : loc) :
  is_Some (arrays w !! l) ->
  pv_callback pv = None ->
  exists v2 w2 view w3,
    init o w = Some (v2, w2) /\
    queue v2 <> l /\
    array_at (queue v2) w2 = [] /\
    array_at l w2 = array_at l w /\
    pageview v2 pv w2 = Some ((view, None), w3) /\
    length (array_at (queue v2) w3) = 1 /\
    array_at l w3 = array_at l w.
Proof.
  intros Hl Hcb.
  destruct (init_run o w) as (v2 & w2 & Hinit & _ & _ & Hq & _ & _ & _ & _ & Harr).
  destruct (Harr l Hl) as [Hne Hsame].
  destruct (pageview_run v2 pv w2 Hcb)
    as (view & w3 & Hpv & _ & _ & _ & _ & _ & Hq3 & _ & _ & Hother).
  exists v2, w2, view, w3. split; [exact Hinit|]. split; [done|].
  split; [exact Hq|]. split; [unfold array_at; by rewrite Hsame|].
  split; [exact Hpv|]. split; [by rewrite Hq3, Hq|].
  unfold array_at. by rewrite Hother, Hsame.
Qed.

Lemma new_visitor_has_own_queue_witness :
  is_Some (arrays (Demo.world_with Demo.config [Demo.hit "a" "1"]) !! 0) /\
  exists v2 w2 view w3,
    init (collab := Demo.collaborators) VisitorOptions.empty
      (Demo.world_with Demo.config [Demo.hit "a" "1"])
    = Some (v2, w2) /\
    queue v2 <> 0 /\
    pageview (collab := Demo.collaborators) v2
      (mkPageviewArgs "/home" None None None None) w2
    = Some ((view, None), w3) /\
    length (array_at (queue v2) w3) = 1 /\
    array_at 0 w3 = [Demo.hit "a" "1"].
Proof.
  assert (Hl : is_Some (arrays (Demo.world_with Demo.config [Demo.hit "a" "1"]) !! 0)).
  { eexists. reflexivity. }
  split; [exact Hl|].
  destruct (new_visitor_has_own_queue (collab := Demo.collaborators)
              VisitorOptions.empty (mkPageviewArgs "/home" None None None None)
              (Demo.world_with Demo.config [Demo.hit "a" "1"]) 0 Hl eq_refl)
    as (v2 & w2 & view & w3 & Hinit & Hne & _ & _ & Hpv & Hlen & Hsame).
  by exists v2, w2, view, w3.
Defined.

(** X21.  [pageview] constructs its view from the options of the
    Visitor, and the constructor writes them into the shared
    configuration: after a [pageview], every one of [path],
    [enableBatching] and [batchSize] that the Visitor's options supply
    is in the configuration again, whatever another Visitor wrote there
    in between.  Without a callback that, the queue and the count of
    identifiers drawn are all it changes: no request, no call, no other
    array or object. *)
Theorem pageview_rewrites_shared_config {collab : Collaborators}
    (v : Visitor) (pv : PageviewArgs) (w : World) :
  pv_callback pv = None ->
  exists view w',
    pageview v pv w = Some ((view, None), w') /\
    (forall p, VisitorOptions.path (options v) = Some p -> Config.path (config w') = p) /\
    (forall b, VisitorOptions.enableBatching (options v) = Some b ->
               Config.batching (config w') = b) /\
    (forall n, VisitorOptions.batchSize (options v) = Some n ->
               Config.batchSize (config w') = n) /\
    posts w' = posts w /\ calls w' = calls w /\ objects w' = objects w /\
    forall l, l <> queue v -> arrays w' !! l = arrays w !! l.
Proof.
  intros Hcb.
  destruct (pageview_unfold v pv w)
    as (view & w1 & _ & Hpv & Hview & _ & Hc & Ha & Ho & Hp & Hcl).
  rewrite Hcb, enqueue_run in Hpv. eexists view, _. split; [exact Hpv|].
  simpl. rewrite Hc.
  split; [|split; [|split; [|split; [done|split; [done|split; [done|]]]]]].
  - intros p Hpath. unfold apply_options. rewrite Hpath.
    by destruct (VisitorOptions.hostname (options v)),
         (VisitorOptions.enableBatching (options v)),
         (VisitorOptions.batchSize (options v)).
  - intros b Hb. unfold apply_options. rewrite Hb.
    by destruct (VisitorOptions.hostname (options v)),
         (VisitorOptions.path (options v)),
         (VisitorOptions.batchSize (options v)).
  - intros n Hn. unfold apply_options. rewrite Hn.
    by destruct (VisitorOptions.hostname (options v)),
         (VisitorOptions.path (options v)),
         (VisitorOptions.enableBatching (options v)).
  - intros l Hl. rewrite lookup_insert_ne; [by rewrite Ha|].
    by rewrite Hview.
Qed.

Lemma pageview_rewrites_shared_config_witness :
  exists view w',
    pageview (collab := Demo.collaborators)
      (mkVisitor
         (VisitorOptions.mk None None None None None None (Some true) (Some 5%Z)
            None None)
         [] 0 0 JS.VUndefined (JS.VStr "cid-0") JS.VUndefined)
      (mkPageviewArgs "/home" None None None None)
      (Demo.world_with (Demo.policy false 1) [])
    = Some ((view, None), w') /\
    Config.batching (config w') = true /\
    Config.batchSize (config w') = 5%Z.
Proof.
  destruct (pageview_rewrites_shared_config (collab := Demo.collaborators)
              (mkVisitor
                 (VisitorOptions.mk None None None None None None (Some true)
                    (Some 5%Z) None None)
                 [] 0 0 JS.VUndefined (JS.VStr "cid-0") JS.VUndefined)
              (mkPageviewArgs "/home" None None None None)
              (Demo.world_with (Demo.policy false 1) []) eq_refl)
    as (view & w' & Hpv & _ & Hb & Hn & _).
  exists view, w'. split; [exact Hpv|]. split; [by apply Hb | by apply Hn].
Defined.

(** X22.  In the Hit that [pageview] enqueues, only [tid] and [uid] can
    be [null] or [undefined]: every other property, those of the
    parameters and the defaults [v], [cid] and [t], has a string. *)
Theorem pageview_hit_nullish_only_tid_uid {collab : Collaborators}
    (v : Visitor) (pv : PageviewArgs) (w : World) :
  pv_callback pv = None ->
  exists view w' h,
    pageview v pv w = Some ((view, None), w') /\
    array_at (queue v) w' = (array_at (queue v) w ++ [h])%list /\
    forall k val, JS.lookup k h = Some val -> JS.nullish val = true ->
                  k = "tid" \/ k = "uid".
Proof.
  intros Hcb.
  destruct (pageview_unfold v pv w)
    as (view & w1 & _ & Hpv & Hview & Hcid & Hc & Ha & _).
  rewrite Hcb, enqueue_run in Hpv. eexists view, _, _.
  split; [exact Hpv|]. split.
  { unfold array_at at 1. simpl. rewrite Hview at 1. cbn [queue].
    rewrite lookup_insert_eq. simpl. unfold array_at. rewrite Ha.
    rewrite Hview at 1. reflexivity. }
  intros k val Hk Hnull.
  destruct (string_dec k "tid") as [->|Htid]; [by left|].
  destruct (string_dec k "uid") as [->|Huid]; [by right|].
  exfalso.
  destruct (string_dec k "v") as [->|Hv].
  { rewrite (proj1 (hit_defaults_values _ _ _ _)) in Hk. by injection Hk as <-. }
  destruct (string_dec k "t") as [->|Ht].
  { rewrite (proj1 (proj2 (hit_defaults_values _ _ _ _))) in Hk. by injection Hk as <-. }
  destruct (string_dec k "cid") as [->|Hcidk].
  { rewrite lookup_hit_cid in Hk. injection Hk as <-.
    destruct (JS.truthy (JS.of_option (VisitorOptions.cid (options v)))) eqn:Htr;
      injection Hcid as Hcid _; rewrite Hcid in Hnull; [|done].
    by destruct (VisitorOptions.cid (options v)). }
  apply pageview_hit_clean in Hk; [congruence|done..].
Qed.

Lemma pageview_hit_nullish_only_tid_uid_witness :
  exists view w' h,
    pageview (collab := Demo.collaborators) Demo.visitor
      (mkPageviewArgs "/home" None None
         (Some [("x", JS.VNull); ("z", JS.VStr "v")]) None)
      (Demo.world_with Demo.config [])
    = Some ((view, None), w') /\
    array_at (queue Demo.visitor) w' = [h] /\
    JS.keys h = ["z"; "dp"; "v"; "tid"; "cid"; "uid"; "t"].
Proof.
  destruct (pageview_hit_nullish_only_tid_uid (collab := Demo.collaborators)
              Demo.visitor
              (mkPageviewArgs "/home" None None
                 (Some [("x", JS.VNull); ("z", JS.VStr "v")]) None)
              (Demo.world_with Demo.config []) eq_refl)
    as (view & w' & h & Hpv & Hq & _).
  exists view, w', h. split; [exact Hpv|]. split; [exact Hq|].
  vm_compute in Hpv. injection Hpv as _ <-.
  vm_compute in Hq. by injection Hq as <-.
Defined.

(** ** The first implementation *)

Section LegacyFacts.
Context {collab : Collaborators}.
Implicit Types (this v view : Legacy.Visitor) (st : Legacy.State).

Lemma legacy_queue_at_store q hs st :
  Legacy.queue_at q (Legacy.with_queue q hs st) = hs.
Proof. unfold Legacy.queue_at. simpl. by rewrite lookup_insert_eq. Qed.

(** A new, empty queue changes no queue that could be read before. *)
Lemma legacy_queue_at_fresh l st :
  Legacy.queue_at l (Legacy.with_queue (fresh (dom (Legacy.queues st))) [] st)
  = Legacy.queue_at l st.
Proof.
  unfold Legacy.queue_at. simpl.
  destruct (decide (fresh (dom (Legacy.queues st)) = l)) as [<-|Hne].
  - rewrite lookup_insert_eq.
    destruct (Legacy.queues st !! fresh (dom (Legacy.queues st))) eqn:E; [|done].
    exfalso. apply (is_fresh (dom (Legacy.queues st))), elem_of_dom. by eexists.
  - by rewrite lookup_insert_ne.
Qed.

Lemma or_else_idem a b : JS.or_else (JS.or_else a b) b = JS.or_else a b.
Proof. unfold JS.or_else. destruct (JS.truthy a) eqn:E; [by rewrite E|]. by destruct (JS.truthy b). Qed.

(** The [tid] and the [cid] the constructor computes. *)
Lemma legacy_init_identity tid cid options st v st1 :
  Legacy.init tid cid options st = (v, st1) ->
  JS.or_else (Legacy.tid v) (Legacy.o_tid (Legacy.options v)) = Legacy.tid v /\
  (uuid_v4 (Legacy.uuids st) <> "" -> JS.truthy (Legacy.cid v) = true).
Proof.
  unfold Legacy.init, Legacy.new_Visitor.
  destruct (Legacy.is_object tid), (Legacy.is_object cid); simpl;
    repeat (match goal with
            | |- context [if JS.truthy ?x then _ else _] =>
                destruct (JS.truthy x) eqn:?
            end);
    intros [= <- <-]; simpl; (split; [by apply or_else_idem|]); try done;
    intros Hne; by rewrite (proj2 (String.eqb_neq _ "")).
Qed.

(** Constructing a view: the queue of the Visitor, the given context,
    and nothing changes that could be read before. *)
Lemma legacy_withContext_frame this l st :
  exists view st',
    Legacy._withContext this l st = (view, st') /\
    Legacy._queue view = Legacy._queue this /\
    Legacy._context view = Some l /\
    Legacy.objects st' = Legacy.objects st /\
    Legacy.config st' = Legacy.config st /\
    Legacy.posts st' = Legacy.posts st /\
    Legacy.calls st' = Legacy.calls st /\
    forall q, Legacy.queue_at q st' = Legacy.queue_at q st.
Proof.
  unfold Legacy._withContext, Legacy.new_Visitor.
  destruct (Legacy.is_object (Legacy.Val (Legacy.tid this))),
    (Legacy.is_object (Legacy.Val (Legacy.cid this))); cbn [default Legacy.as_options];
    repeat (match goal with
            | |- context [if JS.truthy ?x then _ else _] =>
                destruct (JS.truthy x) eqn:?
            end);
    eexists _, _; (split; [reflexivity|]); simpl;
    repeat split; try done; intros q; apply legacy_queue_at_fresh.
Qed.

(** A view of a Visitor whose [tid] is not [null]: the identity and the
    options of the Visitor, its queue, the given context; no identifier
    is drawn. *)
Lemma legacy_withContext_keeps this l st :
  Legacy.tid this <> JS.VNull ->
  JS.truthy (Legacy.cid this) = true ->
  JS.or_else (Legacy.tid this) (Legacy.o_tid (Legacy.options this)) = Legacy.tid this ->
  Legacy._withContext this l st =
  (Legacy.mkVisitor (Legacy._queue this) (Legacy.options this) (Some l)
     (Legacy.tid this) (Legacy.cid this),
   Legacy.with_queue (fresh (dom (Legacy.queues st))) [] st).
Proof.
  intros Htid Hcid Hwf. unfold Legacy._withContext, Legacy.new_Visitor.
  assert (Ht : Legacy.is_object (Legacy.Val (Legacy.tid this)) = false).
  { simpl. by destruct (Legacy.tid this). }
  assert (Hc : Legacy.is_object (Legacy.Val (Legacy.cid this)) = false).
  { simpl. by destruct (Legacy.cid this). }
  rewrite Ht, Hc. cbn [Legacy.as_value default].
  assert (Hgiven : JS.or_else (Legacy.cid this) (Legacy.o_cid (Legacy.options this))
                   = Legacy.cid this).
  { unfold JS.or_else. by rewrite Hcid. }
  unfold id. rewrite Hgiven, Hcid, Hwf. reflexivity.
Qed.

(** The loop of [send] when every request succeeds. *)
Lemma legacy_whilst_all_succeed (hs : list JS.object) : forall v fn st,
  Legacy.queue_at (Legacy._queue v) st = hs ->
  exists st',
    Legacy.responses (replicate (length hs) None)
      (fst (Legacy.whilst v fn st)) (snd (Legacy.whilst v fn st))
    = (None, st') /\
    Legacy.posts st'
    = (Legacy.posts st ++ map (Legacy.request_path (Legacy.config st)) hs)%list /\
    Legacy.calls st' = Legacy.calls (Legacy.call fn v None st) /\
    Legacy.queue_at (Legacy._queue v) st' = [] /\
    Legacy.config st' = Legacy.config st.
Proof.
  induction hs as [|h hs IH]; intros v fn st Hq.
  - unfold Legacy.whilst. rewrite Hq. simpl. eexists. split; [reflexivity|].
    rewrite app_nil_r. destruct fn; simpl; by repeat split.
  - unfold Legacy.whilst at 1 2. rewrite Hq. cbn [fst snd length replicate].
    cbn [Legacy.responses Legacy.respond Legacy.sending_self Legacy.sending_fn].
    set (st1 := Legacy.mkState _ _ _ _ _ _).
    destruct (IH v fn st1) as (st' & Hrun & Hposts & Hcalls & Hempty & Hcfg).
    { subst st1. apply legacy_queue_at_store. }
    exists st'. rewrite (surjective_pairing (Legacy.whilst v fn st1)).
    split; [exact Hrun|]. rewrite Hposts, Hcalls, Hcfg. subst st1. simpl.
    split; [by rewrite <- app_assoc|]. split; [by destruct fn|]. by split.
Qed.

(** The loop of [send] up to the first request that fails. *)
Lemma legacy_whilst_first_error (pre : list JS.object) : forall h rest e v f st,
  Legacy.queue_at (Legacy._queue v) st = (pre ++ h :: rest)%list ->
  exists st',
    Legacy.responses (replicate (length pre) None ++ [Some e])%list
      (fst (Legacy.whilst v (Some f) st)) (snd (Legacy.whilst v (Some f) st))
    = (None, st') /\
    Legacy.posts st'
    = (Legacy.posts st
       ++ map (Legacy.request_path (Legacy.config st)) (pre ++ [h]))%list /\
    Legacy.calls st' = (Legacy.calls st ++ [Legacy.mkCall f v (Some e)])%list /\
    Legacy.queue_at (Legacy._queue v) st' = rest.
Proof.
  induction pre as [|p pre IH]; intros h rest e v f st Hq.
  - unfold Legacy.whilst. rewrite Hq. simpl. eexists. split; [reflexivity|].
    simpl. split; [done|]. split; [done|]. apply legacy_queue_at_store.
  - unfold Legacy.whilst at 1 2. rewrite Hq. cbn [app fst snd length replicate].
    cbn [Legacy.responses Legacy.respond Legacy.sending_self Legacy.sending_fn].
    set (st1 := Legacy.mkState _ _ _ _ _ _).
    destruct (IH h rest e v f st1) as (st' & Hrun & Hposts & Hcalls & Hrest).
    { subst st1. apply legacy_queue_at_store. }
    exists st'. rewrite (surjective_pairing (Legacy.whilst v (Some f) st1)).
    split; [exact Hrun|]. rewrite Hposts, Hcalls. subst st1. simpl.
    split; [by rewrite <- app_assoc|]. by split.
Qed.

End LegacyFacts.

Section LegacyPageviewFacts.
Context {collab : Collaborators}.
Implicit Types (this v view : Legacy.Visitor) (st : Legacy.State).

(** [pageview] without a callback, once its arguments are sorted out:
    the merged parameters with their [dp], extended by the defaults of
    the view, are the Hit. *)
Lemma legacy_pageview_hit this (path : JS.value) (src : JS.object) st view st1 :
  let context :=
    match Legacy._context this with
    | Some l => Legacy.object_at l st
    | None => []
    end in
  let merged := JS.assign (JS.assign [] context) src in
  let l := fresh (dom (Legacy.objects st)) in
  let params := JS.set "dp" (JS.or_else path (JS.get "dp" merged)) merged in
  Legacy._withContext this l (Legacy.with_object l params st) = (view, st1) ->
  exists st2,
    Legacy._enqueue view "pageview" l None st1 = ((view, None), st2) /\
    Legacy.queue_at (Legacy._queue this) st2
    = (Legacy.queue_at (Legacy._queue this) st
       ++ [JS.assign params (Legacy.defaults (Legacy.config st) view "pageview")])%list /\
    Legacy.uuids st2 = Legacy.uuids st1.
Proof.
  intros context merged l params Hview.
  destruct (legacy_withContext_frame this l (Legacy.with_object l params st))
    as (view' & st1' & Hview' & Hq & _ & Ho & Hc & _ & _ & Hqs).
  rewrite Hview in Hview'. injection Hview' as <- <-.
  assert (Hobj : Legacy.object_at l st1 = params).
  { unfold Legacy.object_at. rewrite Ho. simpl. by rewrite lookup_insert_eq. }
  eexists. split; [reflexivity|]. rewrite Hobj, Hc.
  change (Legacy.config (Legacy.with_object l params st)) with (Legacy.config st).
  split; [|reflexivity].
  rewrite Hq, legacy_queue_at_store. f_equal.
  change (Legacy.queue_at (Legacy._queue this)
            (Legacy.with_object l
               (JS.assign params (Legacy.defaults (Legacy.config st) view "pageview"))
               st1))
    with (Legacy.queue_at (Legacy._queue this) st1).
  by rewrite Hqs.
Qed.

End LegacyPageviewFacts.

(** X23.  In the first implementation a view is constructed from the
    [tid] and the [cid] of its Visitor: the Hit that [pageview] enqueues
    carries the [cid] and the [tid] of the Visitor it was called on, and
    no identifier is drawn for the view. *)
Theorem legacy_pageview_keeps_identity {collab : Collaborators}
    (tid cid : Legacy.Arg) (options : option Legacy.Options)
    (s : option string) (o : JS.object)
    (st st1 : Legacy.State) (v : Legacy.Visitor) :
  Legacy.init tid cid options st = (v, st1) ->
  Legacy.tid v <> JS.VNull ->
  uuid_v4 (Legacy.uuids st) <> "" ->
  exists view st2 h,
    Legacy.pageview v
      (match s with Some x => Legacy.PString x | None => Legacy.PUndefined end)
      (Legacy.QObject o) None st1
    = ((view, None), st2) /\
    Legacy.cid view = Legacy.cid v /\
    Legacy.tid view = Legacy.tid v /\
    Legacy.queue_at (Legacy._queue v) st2
    = (Legacy.queue_at (Legacy._queue v) st1 ++ [h])%list /\
    JS.lookup "cid" h = Some (Legacy.cid v) /\
    JS.lookup "tid" h = Some (Legacy.tid v) /\
    Legacy.uuids st2 = Legacy.uuids st1.
Proof.
  intros Hinit Htid Huuid.
  destruct (legacy_init_identity _ _ _ _ _ _ Hinit) as [Hwf Hcid].
  specialize (Hcid Huuid).
  set (path := match s with Some x => JS.VStr x | None => JS.VUndefined end).
  set (context := match Legacy._context v with
                  | Some l => Legacy.object_at l st1 | None => [] end).
  set (merged := JS.assign (JS.assign [] context) o).
  set (l := fresh (dom (Legacy.objects st1))).
  set (params := JS.set "dp" (JS.or_else path (JS.get "dp" merged)) merged).
  pose proof (legacy_withContext_keeps v l (Legacy.with_object l params st1)
                Htid Hcid Hwf) as Hview.
  destruct (legacy_pageview_hit v path o st1 _ _ Hview) as (st2 & Henq & Hq & Hu).
  eexists _, st2, _. split.
  { unfold Legacy.pageview. destruct s; cbn [Legacy.source_of];
      fold context merged l; fold path params; rewrite Hview; exact Henq. }
  split; [done|]. split; [done|]. split; [exact Hq|].
  rewrite !lookup_assign. simpl. by repeat split.
Qed.

Lemma legacy_pageview_keeps_identity_witness :
  Demo.uuid 0 <> "" /\
  exists v st1 view st2 h,
    Legacy.init (collab := Demo.collaborators) (Legacy.Val (JS.VStr "UA-1"))
      (Legacy.Val JS.VUndefined) None
      (Legacy.mkState Demo.config ∅ ∅ 0 [] [])
    = (v, st1) /\
    Legacy.cid v = JS.VStr "uuid-" /\
    Legacy.pageview (collab := Demo.collaborators) v (Legacy.PString "/home")
      (Legacy.QObject []) None st1
    = ((view, None), st2) /\
    Legacy.queue_at (Legacy._queue v) st2 = [h] /\
    JS.lookup "cid" h = Some (JS.VStr "uuid-") /\
    Legacy.uuids st2 = 1.
Proof.
  split; [discriminate|].
  destruct (Legacy.init (collab := Demo.collaborators) (Legacy.Val (JS.VStr "UA-1"))
              (Legacy.Val JS.VUndefined) None
              (Legacy.mkState Demo.config ∅ ∅ 0 [] [])) as [v st1] eqn:Hinit.
  assert (Hv : v = Legacy.mkVisitor 0 Legacy.no_options None (JS.VStr "UA-1")
                     (JS.VStr "uuid-") /\ Legacy.uuids st1 = 1 /\
               Legacy.queue_at 0 st1 = []).
  { vm_compute in Hinit. injection Hinit as <- <-. by repeat split. }
  destruct Hv as (Hv & Hu1 & Hq1).
  destruct (legacy_pageview_keeps_identity (collab := Demo.collaborators)
              _ _ _ (Some "/home") [] _ _ _ Hinit)
    as (view & st2 & h & Hpv & _ & _ & Hq & Hcid & _ & Hu).
  { rewrite Hv. discriminate. }
  { discriminate. }
  exists v, st1, view, st2, h. split; [reflexivity|].
  rewrite Hv in *. simpl in *. rewrite Hq1 in Hq.
  split; [reflexivity|]. split; [exact Hpv|]. split; [exact Hq|].
  split; [exact Hcid|]. by rewrite Hu.
Defined.

(** X24.  In the first implementation the [dp] of a pageview is the path
    when one is given and not empty, and otherwise the [dp] of the
    parameters of the call, and after that the [dp] of the context: a
    [dp] given in the parameters is kept when there is no path. *)
Theorem legacy_pageview_dp_falls_back {collab : Collaborators}
    (this : Legacy.Visitor) (s : option string) (o : JS.object)
    (st : Legacy.State) :
  exists view st' h,
    Legacy.pageview this
      (match s with Some x => Legacy.PString x | None => Legacy.PUndefined end)
      (Legacy.QObject o) None st
    = ((view, None), st') /\
    Legacy.queue_at (Legacy._queue this) st'
    = (Legacy.queue_at (Legacy._queue this) st ++ [h])%list /\
    JS.lookup "dp" h =
    Some (JS.or_else (JS.of_option s)
            (match JS.lookup "dp" o with
             | Some x => x
             | None =>
                 JS.get "dp"
                   (match Legacy._context this with
                    | Some l => Legacy.object_at l st
                    | None => []
                    end)
             end)).
Proof.
  set (path := match s with Some x => JS.VStr x | None => JS.VUndefined end).
  set (context := match Legacy._context this with
                  | Some l => Legacy.object_at l st | None => [] end).
  set (merged := JS.assign (JS.assign [] context) o).
  set (l := fresh (dom (Legacy.objects st))).
  set (params := JS.set "dp" (JS.or_else path (JS.get "dp" merged)) merged).
  destruct (Legacy._withContext this l (Legacy.with_object l params st))
    as [view st1] eqn:Hview.
  destruct (legacy_pageview_hit this path o st _ _ Hview) as (st2 & Henq & Hq & _).
  eexists view, st2, _. split.
  { unfold Legacy.pageview. destruct s; cbn [Legacy.source_of];
      fold context merged l; fold path params; rewrite Hview; exact Henq. }
  split; [exact Hq|].
  rewrite lookup_assign. cbn [Legacy.defaults JS.lookup String.eqb Ascii.eqb Bool.eqb].
  fold params. unfold params. rewrite lookup_set_eq. f_equal.
  assert (Hpath : path = JS.of_option s) by (by destruct s).
  rewrite Hpath. f_equal. unfold JS.get, merged. rewrite !lookup_assign.
  fold context.
  destruct (JS.lookup "dp" o); [reflexivity|].
  destruct (JS.lookup "dp" context); reflexivity.
Qed.

Section LegacyLoopFacts.
Implicit Types (v : Legacy.Visitor) (st : Legacy.State).

(** The loop of [send] after as many successes as there are Hits before
    a given one: that Hit has been posted, and its request is under
    way. *)
Lemma legacy_whilst_prefix (pre : list JS.object) : forall h rest v fn st,
  Legacy.queue_at (Legacy._queue v) st = (pre ++ h :: rest)%list ->
  exists st',
    Legacy.responses (replicate (length pre) None)
      (fst (Legacy.whilst v fn st)) (snd (Legacy.whilst v fn st))
    = (Some (Legacy.mkSending v fn), st') /\
    Legacy.posts st'
    = (Legacy.posts st
       ++ map (Legacy.request_path (Legacy.config st)) (pre ++ [h]))%list /\
    Legacy.calls st' = Legacy.calls st /\
    Legacy.queue_at (Legacy._queue v) st' = rest.
Proof.
  induction pre as [|p pre IH]; intros h rest v fn st Hq.
  - unfold Legacy.whilst. rewrite Hq. simpl. eexists. split; [reflexivity|].
    simpl. split; [done|]. split; [done|]. apply legacy_queue_at_store.
  - unfold Legacy.whilst at 1 2. rewrite Hq. cbn [app fst snd length replicate].
    cbn [Legacy.responses Legacy.respond Legacy.sending_self Legacy.sending_fn].
    set (st1 := Legacy.mkState _ _ _ _ _ _).
    destruct (IH h rest v fn st1) as (st' & Hrun & Hposts & Hcalls & Hrest).
    { subst st1. apply legacy_queue_at_store. }
    exists st'. rewrite (surjective_pairing (Legacy.whilst v fn st1)).
    split; [exact Hrun|]. rewrite Hposts, Hcalls. subst st1. simpl.
    split; [by rewrite <- app_assoc|]. by split.
Qed.

End LegacyLoopFacts.

(** X25.  [send] in the first implementation posts the Hits of the queue
    one at a time, each when the request before it has succeeded, to the
    host and path followed by the Hit as a query string.  After as many
    successes as there are Hits before it, a Hit has been posted and
    none of those after it: its request is under way, the Hits after it
    are still on the queue and the callback has not been called.  When
    all have succeeded the queue is empty and the callback is called
    once, without an error. *)
Theorem legacy_send_posts_in_turn (v : Legacy.Visitor) (f : Callback)
    (st : Legacy.State) :
  (forall pre h rest,
     Legacy.queue_at (Legacy._queue v) st = (pre ++ h :: rest)%list ->
     exists s st1 st',
       Legacy.send v (Some f) st = (s, st1) /\
       Legacy.responses (replicate (length pre) None) s st1
       = (Some (Legacy.mkSending v (Some f)), st') /\
       Legacy.posts st'
       = (Legacy.posts st
          ++ map (Legacy.request_path (Legacy.config st)) (pre ++ [h]))%list /\
       Legacy.calls st' = Legacy.calls st /\
       Legacy.queue_at (Legacy._queue v) st' = rest) /\
  exists s st1 st',
    Legacy.send v (Some f) st = (s, st1) /\
    Legacy.responses
      (replicate (length (Legacy.queue_at (Legacy._queue v) st)) None) s st1
    = (None, st') /\
    Legacy.posts st'
    = (Legacy.posts st
       ++ map (Legacy.request_path (Legacy.config st))
            (Legacy.queue_at (Legacy._queue v) st))%list /\
    Legacy.calls st' = (Legacy.calls st ++ [Legacy.mkCall f v None])%list /\
    Legacy.queue_at (Legacy._queue v) st' = [].
Proof.
  split.
  - intros pre h rest Hq.
    destruct (legacy_whilst_prefix pre h rest v (Some f) st Hq)
      as (st' & Hrun & Hposts & Hcalls & Hrest).
    exists (fst (Legacy.whilst v (Some f) st)),
      (snd (Legacy.whilst v (Some f) st)), st'.
    split; [unfold Legacy.send; apply surjective_pairing|]. by repeat split.
  - destruct (legacy_whilst_all_succeed (Legacy.queue_at (Legacy._queue v) st)
                v (Some f) st eq_refl)
      as (st' & Hrun & Hposts & Hcalls & Hempty & _).
    exists (fst (Legacy.whilst v (Some f) st)),
      (snd (Legacy.whilst v (Some f) st)), st'.
    split; [unfold Legacy.send; apply surjective_pairing|]. by repeat split.
Qed.

(** X26.  When a request fails, [send] in the first implementation
    stops: the callback gets the error, the Hits after the failed one
    stay on the queue, and the failed Hit itself is gone from it. *)
Theorem legacy_send_stops_at_first_error (v : Legacy.Visitor) (f : Callback)
    (st : Legacy.State) (pre rest : list JS.object) (h : JS.object) (e : string) :
  Legacy.queue_at (Legacy._queue v) st = (pre ++ h :: rest)%list ->
  exists s st1 st',
    Legacy.send v (Some f) st = (s, st1) /\
    Legacy.responses (replicate (length pre) None ++ [Some e])%list s st1
    = (None, st') /\
    Legacy.posts st'
    = (Legacy.posts st
       ++ map (Legacy.request_path (Legacy.config st)) (pre ++ [h]))%list /\
    Legacy.calls st' = (Legacy.calls st ++ [Legacy.mkCall f v (Some e)])%list /\
    Legacy.queue_at (Legacy._queue v) st' = rest.
Proof.
  intros Hq.
  destruct (legacy_whilst_first_error pre h rest e v f st Hq)
    as (st' & Hrun & Hposts & Hcalls & Hrest).
  exists (fst (Legacy.whilst v (Some f) st)), (snd (Legacy.whilst v (Some f) st)), st'.
  split; [unfold Legacy.send; apply surjective_pairing|]. by repeat split.
Qed.

Lemma legacy_send_stops_at_first_error_witness :
  exists s st1 st',
    Legacy.send (Legacy.mkVisitor 0 Legacy.no_options None JS.VUndefined
                   (JS.VStr "cid-0")) (Some 7)
      (Legacy.mkState Demo.config
         {[ 0 := [Demo.hit "a" "1"; Demo.hit "b" "2"; Demo.hit "c" "3"] ]} ∅ 0 [] [])
    = (s, st1) /\
    Legacy.responses [None; Some "ECONNRESET"] s st1 = (None, st') /\
    Legacy.posts st'
    = ["https://www.google-analytics.com/collect?a=1";
       "https://www.google-analytics.com/collect?b=2"] /\
    Legacy.queue_at 0 st' = [Demo.hit "c" "3"].
Proof.
  assert (Hq : Legacy.queue_at 0
                 (Legacy.mkState Demo.config
                    {[ 0 := [Demo.hit "a" "1"; Demo.hit "b" "2"; Demo.hit "c" "3"] ]}
                    ∅ 0 [] [])
               = ([Demo.hit "a" "1"] ++ Demo.hit "b" "2" :: [Demo.hit "c" "3"])%list)
    by (vm_compute; reflexivity).
  destruct (legacy_send_stops_at_first_error
              (Legacy.mkVisitor 0 Legacy.no_options None JS.VUndefined (JS.VStr "cid-0"))
              7
              (Legacy.mkState Demo.config
                 {[ 0 := [Demo.hit "a" "1"; Demo.hit "b" "2"; Demo.hit "c" "3"] ]}
                 ∅ 0 [] [])
              [Demo.hit "a" "1"] [Demo.hit "c" "3"] (Demo.hit "b" "2") "ECONNRESET"
              Hq)
    as (s & st1 & st' & Hsend & Hrun & Hposts & _ & Hrest).
  exists s, st1, st'. split; [exact Hsend|]. split; [exact Hrun|].
  split; [rewrite Hposts; reflexivity | exact Hrest].
Defined.

(** X27.  [send] in the first implementation reads the queue anew before
    every request: a Hit enqueued while a request of the [send] is under
    way is posted by that same [send], after the Hits that were waiting,
    and the callback comes after it. *)
Theorem legacy_send_takes_late_hits (v view : Legacy.Visitor) (f : Callback)
    (type : string) (l : loc) (st : Legacy.State)
    (h : JS.object) (rest : list JS.object) :
  Legacy.queue_at (Legacy._queue v) st = h :: rest ->
  Legacy._queue view = Legacy._queue v ->
  exists s st1 st2 st' late,
    Legacy.send v (Some f) st = (Some s, st1) /\
    Legacy._enqueue view type l None st1 = ((view, None), st2) /\
    late = JS.assign (Legacy.object_at l st)
             (Legacy.defaults (Legacy.config st) view type) /\
    Legacy.responses (replicate (length rest + 2) None) (Some s) st2 = (None, st') /\
    Legacy.posts st'
    = (Legacy.posts st
       ++ map (Legacy.request_path (Legacy.config st)) (h :: rest ++ [late]))%list /\
    Legacy.calls st' = (Legacy.calls st ++ [Legacy.mkCall f v None])%list.
Proof.
  intros Hq Hview. unfold Legacy.send, Legacy.whilst. rewrite Hq.
  set (st1 := Legacy.mkState _ _ _ _ _ _).
  set (late := JS.assign (Legacy.object_at l st)
                 (Legacy.defaults (Legacy.config st) view type)).
  set (st2 := Legacy.with_queue (Legacy._queue view)
                (Legacy.queue_at (Legacy._queue view)
                   (Legacy.with_object l late st1) ++ [late])%list
                (Legacy.with_object l late st1)).
  assert (Hq2 : Legacy.queue_at (Legacy._queue v) st2 = (rest ++ [late])%list).
  { subst st2. rewrite Hview, legacy_queue_at_store.
    unfold Legacy.queue_at. simpl. by rewrite lookup_insert_eq. }
  destruct (legacy_whilst_all_succeed (rest ++ [late])%list v (Some f) st2 Hq2)
    as (st' & Hrun & Hposts & Hcalls & _).
  eexists _, st1, st2, st', late. split; [reflexivity|].
  split; [reflexivity|]. split; [reflexivity|]. split.
  - replace (length rest + 2) with (S (length (rest ++ [late])%list))
      by (rewrite length_app; simpl; lia).
    cbn [replicate Legacy.responses Legacy.respond Legacy.sending_self
           Legacy.sending_fn].
    rewrite (surjective_pairing (Legacy.whilst v (Some f) st2)). exact Hrun.
  - rewrite Hposts, Hcalls. subst st2 st1. simpl. split; [|done].
    by rewrite <- app_assoc.
Qed.

Lemma legacy_send_takes_late_hits_witness :
  exists s st1 st2 st',
    Legacy.send (Legacy.mkVisitor 0 Legacy.no_options None JS.VUndefined
                   (JS.VStr "cid-0")) (Some 7)
      (Legacy.mkState Demo.config {[ 0 := [Demo.hit "a" "1"] ]}
         {[ 5 := Demo.hit "dp" "/late" ]} 0 [] [])
    = (Some s, st1) /\
    Legacy._enqueue (Legacy.mkVisitor 0 Legacy.no_options (Some 5) JS.VUndefined
                       (JS.VStr "cid-0")) "pageview" 5 None st1
    = ((Legacy.mkVisitor 0 Legacy.no_options (Some 5) JS.VUndefined
          (JS.VStr "cid-0"), None), st2) /\
    Legacy.responses [None; None] (Some s) st2 = (None, st') /\
    Legacy.posts st'
    = ["https://www.google-analytics.com/collect?a=1";
       "https://www.google-analytics.com/collect?dp=%2Flate&v=1&tid=&cid=cid-0&t=pageview"].
Proof.
  assert (Hq : Legacy.queue_at 0
                 (Legacy.mkState Demo.config {[ 0 := [Demo.hit "a" "1"] ]}
                    {[ 5 := Demo.hit "dp" "/late" ]} 0 [] [])
               = [Demo.hit "a" "1"])
    by (vm_compute; reflexivity).
  destruct (legacy_send_takes_late_hits
              (Legacy.mkVisitor 0 Legacy.no_options None JS.VUndefined (JS.VStr "cid-0"))
              (Legacy.mkVisitor 0 Legacy.no_options (Some 5) JS.VUndefined
                 (JS.VStr "cid-0"))
              7 "pageview" 5
              (Legacy.mkState Demo.config {[ 0 := [Demo.hit "a" "1"] ]}
                 {[ 5 := Demo.hit "dp" "/late" ]} 0 [] [])
              (Demo.hit "a" "1") [] Hq eq_refl)
    as (s & st1 & st2 & st' & late & Hsend & Henq & Hlate & Hrun & Hposts & _).
  exists s, st1, st2, st'. split; [exact Hsend|]. split; [exact Henq|].
  split; [exact Hrun|]. rewrite Hposts, Hlate. reflexivity.
Defined.

(** X28.  In the first implementation [pageview(null, params)] takes the
    [null] for the parameters object, since [typeof null] is ['object']:
    the parameters of the call are dropped, and the Hit has, apart from
    [dp] and the four defaults, what the context has and nothing
    else. *)
Theorem legacy_pageview_null_path_drops_params {collab : Collaborators}
    (this : Legacy.Visitor) (o : JS.object) (st : Legacy.State) (k : string) :
  k <> "dp" -> k <> "v" -> k <> "tid" -> k <> "cid" -> k <> "t" ->
  exists view st' h,
    Legacy.pageview this Legacy.PNull (Legacy.QObject o) None st
    = ((view, None), st') /\
    Legacy.queue_at (Legacy._queue this) st'
    = (Legacy.queue_at (Legacy._queue this) st ++ [h])%list /\
    JS.lookup k h =
    JS.lookup k (match Legacy._context this with
                 | Some l => Legacy.object_at l st
                 | None => []
                 end).
Proof.
  intros Hdp Hv Htid Hcid Ht.
  set (context := match Legacy._context this with
                  | Some l => Legacy.object_at l st | None => [] end).
  set (merged := JS.assign (JS.assign [] context) []).
  set (l := fresh (dom (Legacy.objects st))).
  set (params := JS.set "dp" (JS.or_else JS.VNull (JS.get "dp" merged)) merged).
  destruct (Legacy._withContext this l (Legacy.with_object l params st))
    as [view st1] eqn:Hview.
  destruct (legacy_pageview_hit this JS.VNull [] st _ _ Hview)
    as (st2 & Henq & Hq & _).
  eexists view, st2, _. split.
  { unfold Legacy.pageview. cbn [Legacy.source_of].
    fold context merged l; fold params; rewrite Hview; exact Henq. }
  split; [exact Hq|].
  rewrite lookup_assign.
  assert (Hd : JS.lookup k (Legacy.defaults (Legacy.config st) view "pageview") = None).
  { unfold Legacy.defaults. cbn [JS.lookup].
    rewrite !eqb_other by congruence. reflexivity. }
  rewrite Hd. fold params. unfold params.
  rewrite lookup_set_ne by congruence.
  unfold merged. rewrite !lookup_assign. cbn [JS.lookup].
  fold context. by destruct (JS.lookup k context).
Qed.

Lemma legacy_pageview_null_path_drops_params_witness :
  exists view st' h,
    Legacy.pageview (collab := Demo.collaborators)
      (Legacy.mkVisitor 0 Legacy.no_options None (JS.VStr "UA-1") (JS.VStr "cid-0"))
      Legacy.PNull (Legacy.QObject (Demo.hit "dt" "Title")) None
      (Legacy.mkState Demo.config {[ 0 := [] ]} ∅ 0 [] [])
    = ((view, None), st') /\
    Legacy.queue_at 0 st' = [h] /\
    JS.lookup "dt" h = None.
Proof.
  destruct (legacy_pageview_null_path_drops_params (collab := Demo.collaborators)
              (Legacy.mkVisitor 0 Legacy.no_options None (JS.VStr "UA-1")
                 (JS.VStr "cid-0"))
              (Demo.hit "dt" "Title")
              (Legacy.mkState Demo.config {[ 0 := [] ]} ∅ 0 [] []) "dt")
    as (view & st' & h & Hpv & Hq & Hk); try discriminate.
  exists view, st', h. split; [exact Hpv|]. split; [exact Hq|]. exact Hk.
Defined.
